(** * Pixano annotation storage: a shallow embedding of the storage and codec
    layer (pixano/core/bbox.py, pixano/core/arrow_types/__init__.py,
    pixano/data/dataset/dataset_stat.py and pixano/api/items.py).

    Python values are modelled by inductive types, [dict]s by finite maps or
    ordered association lists, exceptions by an error monad and the files on
    disk by an explicit store that is threaded through the update
    transaction. *)

From Stdlib Require Import ZArith NArith Ascii String Floats DecimalString.
From Stdlib Require Import Sorting.Sorted Sorting.Permutation.
From stdpp Require Import base option list strings gmap.

Set Warnings "-register-all".

Open Scope string_scope.
Open Scope Z_scope.
Open Scope list_scope.

(** ** Python runtime: exceptions and results *)

Inductive exn : Type :=
| AttributeError (what : string)
| KeyError (key : string)
| IndexError
| TypeError (what : string)
| DecodeError
| ArrowInvalid (what : string).

Inductive result (A : Type) : Type :=
| Ok (a : A)
| Err (e : exn).
Arguments Ok {A} a.
Arguments Err {A} e.

(** The error monad, with stdpp's [x ← m; k] notation for sequencing. *)
#[global] Instance result_ret : MRet result := fun A a => Ok a.
#[global] Instance result_bind : MBind result := fun A B k r =>
  match r with
  | Ok a => k a
  | Err e => Err e
  end.

Definition is_ok {A : Type} (r : result A) : bool :=
  match r with Ok _ => true | Err _ => false end.

(** [for x in xs: ys.append(f(x))] with a body that may raise. *)
Fixpoint mapM {A B : Type} (f : A -> result B) (xs : list A) : result (list B) :=
  match xs with
  | [] => Ok []
  | x :: xs' => y ← f x; ys ← mapM f xs'; Ok (y :: ys)
  end.

(** Python truthiness of an [Optional[str]]: [None] and the empty string are
    falsy. *)
Definition truthy (o : option string) : bool :=
  match o with
  | None => false
  | Some s => negb (String.eqb s "")
  end.

(** [a or b] on two [Optional[str]] operands: [a] when it is truthy, [b]
    otherwise. *)
Definition py_or (a b : option string) : option string :=
  if truthy a then a else b.

(** ** Geometry: pixano/core/bbox.py *)

Module Geometry.

(** Python floats are IEEE binary64 numbers. *)
Definition pyfloat : Type := PrimFloat.float.

(** [==] on two lists of floats: same length and pairwise [==]. *)
Fixpoint float_list_eq (l1 l2 : list pyfloat) : bool :=
  match l1, l2 with
  | [], [] => true
  | x :: l1', y :: l2' => PrimFloat.eqb x y && float_list_eq l1' l2'
  | _, _ => false
  end.

Record BBox : Type := mkBBox {
  coords : list pyfloat;
  format : string;
  is_normalized : option bool;
  confidence : option pyfloat
}.

(** Defaults of [BBox.__init__]: [is_normalized=True], [confidence=None]. *)
Definition default_is_normalized : option bool := Some true.
Definition default_confidence : option pyfloat := None.

(** Modelled from the spec: pixano.utils.xywh_to_xyxy is not among the
    sources; section 4.1 gives xyxy=[x1,y1,x2,y2] and xywh=[x,y,w,h] with
    x2=x+w and y2=y+h. A list that does not hold four numbers raises. *)
Definition xywh_to_xyxy (c : list pyfloat) : result (list pyfloat) :=
  match c with
  | [x; y; w; h] => Ok [x; y; (x + w)%float; (y + h)%float]
  | _ => Err IndexError
  end.

(** Modelled from the spec: pixano.utils.xyxy_to_xywh, the inverse reading of
    the same equations (w=x2-x1, h=y2-y1). *)
Definition xyxy_to_xywh (c : list pyfloat) : result (list pyfloat) :=
  match c with
  | [x1; y1; x2; y2] => Ok [x1; y1; (x2 - x1)%float; (y2 - y1)%float]
  | _ => Err IndexError
  end.

(** Property [BBox.xyxy_coords]. *)
Definition xyxy_coords (self : BBox) : result (list pyfloat) :=
  if String.eqb (format self) "xyxy" then Ok (coords self)
  else xywh_to_xyxy (coords self).

(** Property [BBox.xywh_coords]. *)
Definition xywh_coords (self : BBox) : result (list pyfloat) :=
  if String.eqb (format self) "xywh" then Ok (coords self)
  else xyxy_to_xywh (coords self).

(** Property [BBox.is_predicted]. *)
Definition is_predicted (self : BBox) : bool :=
  match confidence self with Some _ => true | None => false end.

(** [BBox.to_xyxy]: [BBox(self.xyxy_coords, "xyxy", self.is_normalized)]. *)
Definition to_xyxy (self : BBox) : result BBox :=
  c ← xyxy_coords self;
  Ok (mkBBox c "xyxy" (is_normalized self) default_confidence).

(** [BBox.to_xywh]: [BBox(self.xywh_coords, "xywh", self.is_normalized)]. *)
Definition to_xywh (self : BBox) : result BBox :=
  c ← xywh_coords self;
  Ok (mkBBox c "xywh" (is_normalized self) default_confidence).

(** [BBox.from_xyxy] and [BBox.from_xywh]: both leave [is_normalized] and
    [confidence] to the defaults of the constructor. *)
Definition from_xyxy (xyxy : list pyfloat) : BBox :=
  mkBBox xyxy "xyxy" default_is_normalized default_confidence.

Definition from_xywh (xywh : list pyfloat) : BBox :=
  mkBBox xywh "xywh" default_is_normalized default_confidence.

(** A dense mask: [height] rows of [width] booleans (a NumPy array). *)
Definition DenseMask : Type := list (list bool).


(** Indices of the [true] entries of a list of booleans. *)
Fixpoint true_indices (i : nat) (l : list bool) : list nat :=
  match l with
  | [] => []
  | b :: l' => (if b then [i] else []) ++ true_indices (S i) l'
  end.

(** Rows holding a foreground pixel ([np.any(mask, axis=1)]) and the columns
    of all foreground pixels. *)
Definition fg_rows (m : DenseMask) : list nat :=
  true_indices 0 (map (existsb id) m).

Definition fg_cols (m : DenseMask) : list nat :=
  concat (map (true_indices 0) m).

Definition float_of_nat (n : nat) : pyfloat :=
  PrimFloat.of_uint63 (Uint63.of_Z (Z.of_nat n)).

(** The extent [x, y, w, h] of the foreground, in pixels, as naturals. The
    empty mask is outside the precondition of section 4.1; the extent is then
    all zeros. *)
Definition mask_extent (m : DenseMask) : nat * nat * nat * nat :=
  match fg_rows m, fg_cols m with
  | r :: rs, c :: cs =>
      let rmin := foldr Nat.min r rs in
      let rmax := foldr Nat.max r rs in
      let cmin := foldr Nat.min c cs in
      let cmax := foldr Nat.max c cs in
      (cmin, rmin, cmax - cmin + 1, rmax - rmin + 1)%nat
  | _, _ => (0, 0, 0, 0)%nat
  end.

(** Modelled from the spec: pixano.utils.mask_to_bbox is not among the
    sources; section 4.1 has it compute the tight axis-aligned bounding
    rectangle of the foreground pixels as [x, y, w, h]. *)
Definition mask_to_bbox (m : DenseMask) : list pyfloat :=
  let '(x, y, w, h) := mask_extent m in
  [float_of_nat x; float_of_nat y; float_of_nat w; float_of_nat h].

(** [BBox.from_mask], over the function [rectangle] it calls as
    [mask_to_bbox]: [BBox.from_xywh(mask_to_bbox(mask))]. *)
Definition from_mask_by (rectangle : DenseMask -> list pyfloat)
    (mask : DenseMask) : BBox :=
  from_xywh (rectangle mask).

(** [BBox.from_mask] with the rectangle of section 4.1. *)
Definition from_mask (mask : DenseMask) : BBox :=
  from_mask_by mask_to_bbox mask.

End Geometry.

(** ** Annotation values: pixano.core *)

Module Core.
Import Geometry.

(** The two shapes of the [counts] entry of a mask dictionary: the list of
    run lengths of the uncompressed interchange form (URLE) and the bytes of
    the compressed form. *)
Inductive rle_counts : Type :=
| UrleCounts (runs : list Z)
| RleCounts (packed : list Byte.byte).

(** A mask as [{"size": [height, width], "counts": ...}]. *)
Record MaskDict : Type := mkMask {
  size : list Z;
  counts : rle_counts
}.

Definition is_compressed (m : MaskDict) : bool :=
  match counts m with RleCounts _ => true | UrleCounts _ => false end.

Record Pose : Type := mkPose {
  cam_R_m2c : list pyfloat;
  cam_t_m2c : list pyfloat
}.

(** [ObjectAnnotation], with the fields of the annotation struct spelled out
    at line 288 of pixano/api/items.py. *)
Record ObjectAnnotation : Type := mkAnn {
  id : string;
  view_id : string;
  bbox : option BBox;
  bbox_source : option string;
  bbox_confidence : option pyfloat;
  is_group_of : option bool;
  is_difficult : option bool;
  is_truncated : option bool;
  mask : option MaskDict;
  mask_source : option string;
  area : option pyfloat;
  pose : option Pose;
  category_id : option Z;
  category_name : option string;
  identity : option string
}.

Definition set_mask (m : option MaskDict) (a : ObjectAnnotation) : ObjectAnnotation :=
  mkAnn (id a) (view_id a) (bbox a) (bbox_source a) (bbox_confidence a)
        (is_group_of a) (is_difficult a) (is_truncated a) m (mask_source a)
        (area a) (pose a) (category_id a) (category_name a) (identity a).

Definition set_bbox (b : option BBox) (a : ObjectAnnotation) : ObjectAnnotation :=
  mkAnn (id a) (view_id a) b (bbox_source a) (bbox_confidence a)
        (is_group_of a) (is_difficult a) (is_truncated a) (mask a) (mask_source a)
        (area a) (pose a) (category_id a) (category_name a) (identity a).

(** [Image(uri, bytes, preview_bytes)], as tests/core/test_image.py builds it. *)
Record Image : Type := mkImage {
  uri : string;
  bytes : option (list Byte.byte);
  preview_bytes : option (list Byte.byte)
}.

(** Python values held by table cells and passed to the converters. *)
Inductive value : Type :=
| VNone
| VBool (b : bool)
| VInt (z : Z)
| VFloat (f : pyfloat)
| VStr (s : string)
| VBytes (b : list Byte.byte)
| VList (l : list value)
| VDict (d : list (string * value))
| VImage (im : Image)
| VObject (a : ObjectAnnotation).

(** A Python [dict] with string keys, in insertion order. *)
Definition pydict : Type := list (string * value).

(** [d[k]]: the value under [k], [KeyError] when there is none. *)
Fixpoint dict_get (d : pydict) (k : string) : result value :=
  match d with
  | [] => Err (KeyError k)
  | (k', v) :: d' => if String.eqb k' k then Ok v else dict_get d' k
  end.

(** [d[k] = v]: replaces the value in place, or appends a new entry. *)
Fixpoint dict_set (d : pydict) (k : string) (v : value) : pydict :=
  match d with
  | [] => [(k, v)]
  | (k', v') :: d' =>
      if String.eqb k' k then (k, v) :: d' else (k', v') :: dict_set d' k v
  end.

(** The parts of pixano.core that pixano/api/items.py calls and that are not
    among the sources: the mask codec behind [CompressedRLE.from_urle] and
    [CompressedRLE.to_mask], and the dictionary forms of annotations and
    images. They are an interface of the development: every theorem about the
    update transaction holds for all implementations. *)
Class PixanoCore : Type := {
  (** [CompressedRLE.from_urle(d)]: the compressed form of a mask dictionary. *)
  from_urle : MaskDict -> result MaskDict;
  (** [m.to_mask()]: the dense mask a compressed mask decodes to. *)
  to_mask : MaskDict -> result DenseMask;
  (** [ObjectAnnotation.to_dict] and [ObjectAnnotation.from_dict]. *)
  annotation_to_dict : ObjectAnnotation -> pydict;
  annotation_from_dict : pydict -> result ObjectAnnotation;
  (** [Image.to_dict] and [Image.from_dict]. *)
  image_to_dict : Image -> pydict;
  image_from_dict : pydict -> result Image
}.

(** Line 211 of pixano/api/items.py, in [load_item_details]:
    [source = obj.mask_source or obj.bbox_source or "Ground truth"]. *)
Definition object_source (obj : ObjectAnnotation) : option string :=
  py_or (py_or (mask_source obj) (bbox_source obj)) (Some "Ground truth").

End Core.

(** ** Dataset statistics: pixano/data/dataset/dataset_stat.py *)

Module Stats.

(** Parsed JSON documents; an object keeps the order of its keys. *)
Inductive json : Type :=
| JNull
| JBool (b : bool)
| JInt (z : Z)
| JFloat (f : PrimFloat.float)
| JStr (s : string)
| JArr (l : list json)
| JObj (o : list (string * json)).

Record DatasetStat : Type := mkStat {
  name : string;
  type : string;
  histogram : list (list (string * json));
  range : option (list json)
}.

(** The files that hold JSON, by path; a path that is not bound does not
    exist. *)
Definition json_files : Type := gmap string json.

Fixpoint obj_get (o : list (string * json)) (k : string) : option json :=
  match o with
  | [] => None
  | (k', v) :: o' => if String.eqb k' k then Some v else obj_get o' k
  end.

(** [stat["name"]] on a loaded JSON value: only an object with that key
    answers. *)
Definition stat_name (stat : json) : result json :=
  match stat with
  | JObj o =>
      match obj_get o "name" with
      | Some v => Ok v
      | None => Err (KeyError "name")
      end
  | _ => Err (TypeError "indices must be integers")
  end.

(** [stat["name"] != self.name]: a value that is not a string differs from
    every string. *)
Definition name_differs (v : json) (n : string) : bool :=
  match v with
  | JStr s => negb (String.eqb s n)
  | _ => true
  end.

(** What [for stat in json_stats] walks through: the elements of an array.
    An empty object or string yields nothing; their keys or characters are
    strings, as is every other thing that can be walked. *)
Definition iter_json (doc : json) : result (list json) :=
  match doc with
  | JArr l => Ok l
  | JObj o => Ok (map (fun kv => JStr (fst kv)) o)
  | JStr s => Ok (map (fun a => JStr (String a EmptyString)) (String.list_ascii_of_string s))
  | _ => Err (TypeError "object is not iterable")
  end.

(** [[stat for stat in json_stats if stat["name"] != self.name]]. *)
Fixpoint keep_other_names (n : string) (stats : list json) : result (list json) :=
  match stats with
  | [] => Ok []
  | stat :: rest =>
      v ← stat_name stat;
      kept ← keep_other_names n rest;
      Ok (if name_differs v n then stat :: kept else kept)
  end.

(** The record [to_json] appends:
    [{"name": self.name, "type": self.type, "histogram": self.histogram}]. *)
Definition stat_record (self : DatasetStat) : json :=
  JObj [("name", JStr (name self));
        ("type", JStr (type self));
        ("histogram", JArr (map JObj (histogram self)))].

(** [DatasetStat.to_json(self, json_fp)]: the files after the call, or the
    exception it raises (nothing is written then). *)
Definition to_json (self : DatasetStat) (json_fp : string) (fs : json_files)
  : result json_files :=
  json_stats ← match fs !! json_fp with
               | Some doc => iter_json doc
               | None => Ok []                (* except FileNotFoundError *)
               end;
  json_stats ← keep_other_names (name self) json_stats;
  let json_stats := json_stats ++ [stat_record self] in
  Ok (<[json_fp := JArr json_stats]> fs).

(** The record a statistic has when all its fields are written, [range]
    included when it is set: what [from_json] reads back in full. *)
Definition full_record (self : DatasetStat) : json :=
  JObj ([("name", JStr (name self));
         ("type", JStr (type self));
         ("histogram", JArr (map JObj (histogram self)))]
        ++ match range self with
           | Some r => [("range", JArr r)]
           | None => []
           end).

(** A record of another name than [n], as the comprehension keeps it. *)
Definition other_name (n : string) (stat : json) : bool :=
  match stat_name stat with
  | Ok v => name_differs v n
  | Err _ => false
  end.

(** The statistics file of the example: one record for the feature "area",
    with its range. *)
Definition area_record : json :=
  JObj [("name", JStr "area"); ("type", JStr "numerical");
        ("histogram", JArr [JObj [("bin_start", JInt 0); ("counts", JInt 3)]]);
        ("range", JArr [JInt 0; JInt 10])].

Definition split_record : json :=
  JObj [("name", JStr "split"); ("type", JStr "categorical");
        ("histogram", JArr [JObj [("split", JStr "train"); ("counts", JInt 5)]])].

Definition new_area_stat : DatasetStat :=
  mkStat "area" "numerical" [[("bin_start", JInt 0); ("counts", JInt 4)]]
         (Some [JInt 0; JInt 20]).

End Stats.

(** ** Arrow types and the field converter:
       pixano/core/arrow_types/__init__.py *)

Module Arrow.
Import Geometry Core.

(** The PyArrow data types the store uses. *)
Inductive DataType : Type :=
| pa_null
| pa_bool
| pa_int32
| pa_int64
| pa_float32
| pa_float64
| pa_string
| pa_binary
| pa_list (value_type : DataType)
| pa_fixed_size_list (value_type : DataType) (list_size : nat)
| pa_struct (fields : list (string * DataType))
| pa_extension (extension_name class_name : string) (storage_type : DataType).

Definition nat_str (n : nat) : string := NilZero.string_of_uint (Nat.to_uint n).

Fixpoint join_str (sep : string) (l : list string) : string :=
  match l with
  | [] => ""
  | [x] => x
  | x :: l' => x +:+ sep +:+ join_str sep l'
  end.

(** [str(t)], as PyArrow prints a type. *)
Fixpoint type_str (t : DataType) : string :=
  match t with
  | pa_null => "null"
  | pa_bool => "bool"
  | pa_int32 => "int32"
  | pa_int64 => "int64"
  | pa_float32 => "float"
  | pa_float64 => "double"
  | pa_string => "string"
  | pa_binary => "binary"
  | pa_list v => "list<item: " +:+ type_str v +:+ ">"
  | pa_fixed_size_list v n =>
      "fixed_size_list<item: " +:+ type_str v +:+ ">[" +:+ nat_str n +:+ "]"
  | pa_struct fs =>
      "struct<"
      +:+ join_str ", " (map (fun f => fst f +:+ ": " +:+ type_str (snd f)) fs)
      +:+ ">"
  | pa_extension n c _ => "extension<" +:+ n +:+ "<" +:+ c +:+ ">>"
  end.

(** An Arrow array by its type and its logical content, one Python value per
    row ([VNone] for a null row). *)
Record Array : Type := mkArray {
  arr_type : DataType;
  arr_data : list value
}.

Definition arr_len (a : Array) : nat := length (arr_data a).

(** [isinstance(a, pa.NullArray)]. *)
Definition is_null_array (a : Array) : bool :=
  match arr_type a with pa_null => true | _ => false end.

(** [pa.nulls(n, t)]. *)
Definition pa_nulls (n : nat) (t : DataType) : Array :=
  mkArray t (replicate n VNone).

Definition is_none (v : value) : bool :=
  match v with VNone => true | _ => false end.

(** *** Conversions between Python numbers *)

Definition float_of_Z (z : Z) : pyfloat :=
  if z <? 0 then (- PrimFloat.of_uint63 (Uint63.of_Z (- z)))%float
  else PrimFloat.of_uint63 (Uint63.of_Z z).

(** The integer a float holds, when it holds one. *)
Definition float_to_Z (f : pyfloat) : option Z :=
  match Prim2SF f with
  | S754_zero _ => Some 0
  | S754_finite sgn m e =>
      let v :=
        if 0 <=? e then Some (Z.pos m * 2 ^ e)
        else if Z.pos m mod 2 ^ (- e) =? 0 then Some (Z.pos m / 2 ^ (- e))
        else None in
      (fun z => if sgn then - z else z) <$> v
  | _ => None
  end.

(** *** [pa.array(data)]: type inference *)

Fixpoint field_type (fs : list (string * DataType)) (n : string) : option DataType :=
  match fs with
  | [] => None
  | (n', t) :: fs' => if String.eqb n' n then Some t else field_type fs' n
  end.

Definition has_field (fs : list (string * DataType)) (n : string) : bool :=
  match field_type fs n with Some _ => true | None => false end.

(** The fields of two struct types put together: a field of the first type
    takes the common type with the field of that name in the second, if there
    is one; [u] gives the common type of two types. *)
Fixpoint merge_fields (u : DataType -> DataType -> result DataType)
    (fa fb : list (string * DataType)) : result (list (string * DataType)) :=
  match fa with
  | [] => Ok []
  | (n, t) :: fa' =>
      t' ← match field_type fb n with
           | Some x => u t x
           | None => Ok t
           end;
      rest ← merge_fields u fa' fb;
      Ok ((n, t') :: rest)
  end.

(** The common type of two inferred types: nulls fit every type, integers
    widen to doubles, lists unify their items and structs take the union of
    their fields, in order of first appearance. *)
Fixpoint unify (a b : DataType) {struct a} : result DataType :=
  match a, b with
  | pa_null, _ => Ok b
  | _, pa_null => Ok a
  | pa_bool, pa_bool => Ok pa_bool
  | pa_int64, pa_int64 => Ok pa_int64
  | pa_int64, pa_float64 | pa_float64, pa_int64 | pa_float64, pa_float64 =>
      Ok pa_float64
  | pa_string, pa_string => Ok pa_string
  | pa_binary, pa_binary => Ok pa_binary
  | pa_list x, pa_list y => t ← unify x y; Ok (pa_list t)
  | pa_struct fa, pa_struct fb =>
      merged ← merge_fields unify fa fb;
      Ok (pa_struct (merged ++ List.filter (fun f => negb (has_field fa (fst f))) fb))
  | _, _ => Err (ArrowInvalid "cannot mix the types of the values")
  end.

(** The common type of the values of a sequence and the types of the
    entries of a dictionary; [inf] gives the type of one value. *)
Fixpoint infer_items (inf : value -> result DataType) (l : list value)
  : result DataType :=
  match l with
  | [] => Ok pa_null
  | x :: l' => tx ← inf x; tl ← infer_items inf l'; unify tx tl
  end.

Fixpoint infer_entries (inf : value -> result DataType) (d : list (string * value))
  : result (list (string * DataType)) :=
  match d with
  | [] => Ok []
  | (k, x) :: d' => tx ← inf x; rest ← infer_entries inf d'; Ok ((k, tx) :: rest)
  end.

(** The type PyArrow infers for one Python value. Pixano objects are not
    recognised. *)
Fixpoint infer_type (v : value) : result DataType :=
  match v with
  | VNone => Ok pa_null
  | VBool _ => Ok pa_bool
  | VInt _ => Ok pa_int64
  | VFloat _ => Ok pa_float64
  | VStr _ => Ok pa_string
  | VBytes _ => Ok pa_binary
  | VList l => t ← infer_items infer_type l; Ok (pa_list t)
  | VDict d => fs ← infer_entries infer_type d; Ok (pa_struct fs)
  | VImage _ | VObject _ =>
      Err (ArrowInvalid "did not recognize Python value type")
  end.

(** The type inferred for the values of a column. *)
Definition infer_types (data : list value) : result DataType :=
  infer_items infer_type data.

(** [pa.array(data)]: the array of the inferred type over the given values. *)
Definition pa_array (data : list value) : result Array :=
  t ← infer_types data; Ok (mkArray t data).

(** [d.get(name)]: the value of a dictionary under a key, [None] when it
    lacks the key. *)
Definition dict_value (d : pydict) (name : string) : value :=
  match dict_get d name with Ok v => v | Err _ => VNone end.

(** The value a builder appends for an empty slot of the type: [pa.array]
    fills the children of a struct with it where the struct itself is null.
    It is a valid value, not a null, for every type but the null type. *)
Fixpoint empty_value (t : DataType) : value :=
  match t with
  | pa_null => VNone
  | pa_bool => VBool false
  | pa_int32 | pa_int64 => VInt 0
  | pa_float32 | pa_float64 => VFloat 0%float
  | pa_string => VStr ""
  | pa_binary => VBytes []
  | pa_list _ => VList []
  | pa_fixed_size_list v n => VList (replicate n (empty_value v))
  | pa_struct fs => VDict (map (fun f => (fst f, empty_value (snd f))) fs)
  | pa_extension _ _ st => empty_value st
  end.

(** [native_arr.field(name)] of an inferred struct array: the child under
    that name, of type [t], as it was built; the validity of the struct is
    not applied to it. A row that is a dictionary gave the child its value
    under the name ([None] when it lacks the key); a row that is [None] gave
    it the empty value of its type (an empty string, a zero), which is what
    the child holds there. [KeyError] when the struct type has no such
    field. *)
Definition row_field (t : DataType) (name : string) (row : value) : value :=
  match row with
  | VDict d => dict_value d name
  | _ => empty_value t
  end.

Definition field (a : Array) (name : string) : result Array :=
  match arr_type a with
  | pa_struct fs =>
      match field_type fs name with
      | Some t => Ok (mkArray t (map (row_field t name) (arr_data a)))
      | None => Err (KeyError name)
      end
  | _ => Err (AttributeError "field")
  end.

(** [native_arr.offsets] and [native_arr.values] of an inferred list array:
    the running total of the row lengths (a null row has length 0) and the
    items of all rows, one after the other. *)
Definition row_items (row : value) : list value :=
  match row with VList l => l | _ => [] end.

Fixpoint running_total (start : nat) (lens : list nat) : list nat :=
  match lens with
  | [] => [start]
  | n :: lens' => start :: running_total (start + n) lens'
  end.

Definition offsets (a : Array) : result (list nat) :=
  match arr_type a with
  | pa_list _ => Ok (running_total 0 (map (fun r => length (row_items r)) (arr_data a)))
  | _ => Err (AttributeError "offsets")
  end.

Definition values (a : Array) : result Array :=
  match arr_type a with
  | pa_list t => Ok (mkArray t (concat (map row_items (arr_data a))))
  | _ => Err (AttributeError "values")
  end.

(** [a.to_numpy(zero_copy_only=False)]: a numeric array with nulls becomes an
    array of floats with NaN for the nulls; every other array keeps its
    values. *)
Definition is_numeric (t : DataType) : bool :=
  match t with
  | pa_int32 | pa_int64 | pa_float32 | pa_float64 => true
  | _ => false
  end.

Definition numpy_float (v : value) : value :=
  match v with
  | VNone => VFloat PrimFloat.nan
  | VInt z => VFloat (float_of_Z z)
  | _ => v
  end.

Definition to_numpy (a : Array) : list value :=
  if is_numeric (arr_type a) && existsb is_none (arr_data a)
  then map numpy_float (arr_data a)
  else arr_data a.

(** [pa.ListArray.from_arrays(offsets, values)]: row [i] holds the values
    from [offsets[i]] up to [offsets[i+1]]; no row is null. *)
Fixpoint list_rows (offs : list nat) (vals : list value) : list value :=
  match offs with
  | lo :: ((hi :: _) as offs') =>
      VList (take (hi - lo) (drop lo vals)) :: list_rows offs' vals
  | _ => []
  end.

Definition ListArray_from_arrays (offs : list nat) (vals : Array) : Array :=
  mkArray (pa_list (arr_type vals)) (list_rows offs (arr_data vals)).

(** [pa.StructArray.from_arrays(arrays, fields=t)]: row [i] is the dictionary
    of the [i]-th values of the children, under the names of the fields; the
    array is as long as its first child (empty without children) and the
    children must agree on their length. *)
Definition struct_row (names : list string) (children : list Array) (i : nat) : value :=
  VDict (zip_with (fun n c => (n, default VNone (arr_data c !! i))) names children).

Definition StructArray_from_arrays
    (children : list Array) (fields : list (string * DataType)) : result Array :=
  let n := match children with [] => 0%nat | c :: _ => arr_len c end in
  if forallb (fun c => Nat.eqb (arr_len c) n) children
  then Ok (mkArray (pa_struct fields)
                   (map (struct_row (map fst fields) children) (seq 0 n)))
  else Err (ArrowInvalid "mismatching child array lengths").

(** *** [pa.array(data, type=t)]: conversion to a declared type *)

Definition in_int32 (z : Z) : bool := (- 2 ^ 31 <=? z) && (z <? 2 ^ 31).
Definition in_int64 (z : Z) : bool := (- 2 ^ 63 <=? z) && (z <? 2 ^ 63).

Definition type_mismatch {A : Type} : result A :=
  Err (ArrowInvalid "could not convert the value to the declared type").

Definition to_int (fits : Z -> bool) (v : value) : result value :=
  match v with
  | VInt z => if fits z then Ok (VInt z) else type_mismatch
  | VFloat f =>
      match float_to_Z f with
      | Some z => if fits z then Ok (VInt z) else type_mismatch
      | None => type_mismatch
      end
  | _ => type_mismatch
  end.

Definition to_float (v : value) : result value :=
  match v with
  | VFloat f => Ok (VFloat f)
  | VInt z => Ok (VFloat (float_of_Z z))
  | _ => type_mismatch
  end.

(** The entries of a struct row: every declared field with the converted
    value the dictionary [d] has for it; [tv] converts one value. *)
Fixpoint typed_entries (tv : DataType -> value -> result value) (d : pydict)
    (fs : list (string * DataType)) : result pydict :=
  match fs with
  | [] => Ok []
  | (n, ft) :: fs' =>
      x ← tv ft (dict_value d n);
      rest ← typed_entries tv d fs';
      Ok ((n, x) :: rest)
  end.

(** One value converted to the declared type [t]; a null fits every type. A
    dictionary gives a struct its declared fields ([None] for a missing key)
    and an extension type converts as its storage. *)
Fixpoint typed_value (t : DataType) (v : value) {struct t} : result value :=
  match v with
  | VNone => Ok VNone
  | _ =>
    match t with
    | pa_null => type_mismatch
    | pa_bool => match v with VBool b => Ok (VBool b) | _ => type_mismatch end
    | pa_int32 => to_int in_int32 v
    | pa_int64 => to_int in_int64 v
    | pa_float32 | pa_float64 => to_float v
    | pa_string => match v with VStr s => Ok (VStr s) | _ => type_mismatch end
    | pa_binary =>
        match v with
        | VBytes b => Ok (VBytes b)
        | VStr s => Ok (VBytes (String.list_byte_of_string s))
        | _ => type_mismatch
        end
    | pa_list vt =>
        match v with
        | VList l => l' ← mapM (typed_value vt) l; Ok (VList l')
        | _ => type_mismatch
        end
    | pa_fixed_size_list vt n =>
        match v with
        | VList l =>
            if Nat.eqb (length l) n
            then l' ← mapM (typed_value vt) l; Ok (VList l')
            else type_mismatch
        | _ => type_mismatch
        end
    | pa_struct fs =>
        match v with
        | VDict d =>
            d' ← typed_entries typed_value d fs;
            Ok (VDict d')
        | _ => type_mismatch
        end
    | pa_extension _ _ st => typed_value st v
    end
  end.

(** [pa.array(data, type=t)]. *)
Definition pa_array_typed (data : list value) (t : DataType) : result Array :=
  data' ← mapM (typed_value t) data; Ok (mkArray t data').

(** [pa.ExtensionArray.from_storage(t, storage)]. *)
Definition ExtensionArray_from_storage (t : DataType) (storage : Array) : Array :=
  mkArray t (arr_data storage).

(** *** [convert_field] *)

(** The loop over the fields of a struct type: [for subfield in field_type]
    takes the child of that name out of the inferred array, converts it with
    [conv] and collects the results. *)
Fixpoint convert_subfields
    (conv : string -> DataType -> list value -> result Array)
    (field_name : string) (native_arr : Array) (fs : list (string * DataType))
  : result (list Array) :=
  match fs with
  | [] => Ok []
  | (n, t) :: fs' =>
      sub_arr ← field native_arr n;
      converted ← conv (field_name +:+ "." +:+ n) t (to_numpy sub_arr);
      rest ← convert_subfields conv field_name native_arr fs';
      Ok (converted :: rest)
  end.

(** [convert_field(field_name, field_type, field_data)], by recursion on the
    target type. *)
Fixpoint convert_field (field_name : string) (ftype : DataType)
    (field_data : list value) {struct ftype} : result Array :=
  match ftype with
  (* If target format is an ExtensionType *)
  | pa_extension _ _ storage_type =>
      storage ← pa_array_typed field_data storage_type;
      Ok (ExtensionArray_from_storage ftype storage)
  (* If target format is an extension of ListType *)
  | pa_list value_type =>
      native_arr ← pa_array field_data;
      if is_null_array native_arr
      then Ok (pa_nulls (arr_len native_arr) ftype)
      else
        offs ← offsets native_arr;
        vals ← values native_arr;
        converted ← convert_field (field_name +:+ ".elements") value_type
                                  (to_numpy vals);
        Ok (ListArray_from_arrays offs converted)
  (* If target format is an extension of StructType *)
  | pa_struct fields =>
      native_arr ← pa_array field_data;
      if is_null_array native_arr
      then Ok (pa_nulls (arr_len native_arr) ftype)
      else
        arrays ← convert_subfields convert_field field_name native_arr fields;
        StructArray_from_arrays arrays fields
  (* For other target formats *)
  | _ => pa_array_typed field_data ftype
  end.

(** The row is a dictionary with the key [n]. *)
Definition has_key (n : string) (row : value) : bool :=
  match row with
  | VDict d => is_ok (dict_get d n)
  | _ => false
  end.

(** The column [convert_field] hands to the conversion of the declared field
    [n] when the rows were inferred as a struct of fields [tfs]: what
    [native_arr.field(n).to_numpy()] gives. *)
Definition projected_column (tfs : list (string * DataType)) (n : string)
    (data : list value) : result (list value) :=
  sub_arr ← field (mkArray (pa_struct tfs) data) n;
  Ok (to_numpy sub_arr).

(** [is_number]. *)
Definition is_number (t : DataType) : bool :=
  match t with
  | pa_int32 | pa_int64 | pa_float32 | pa_float64 => true
  | _ => false
  end.

End Arrow.

(** ** Natural keys and sorting: pixano.utils.natural_key, [sorted] *)

Module NaturalSort.

(** The pieces of a natural key: a run of text or the number a run of digits
    stands for. *)
Inductive token : Type :=
| Text (s : string)
| Num (n : N).

Definition is_digit (a : ascii) : bool :=
  let n := N_of_ascii a in (48 <=? n)%N && (n <=? 57)%N.

Definition digit_value (a : ascii) : N := (N_of_ascii a - 48)%N.

(** The scan behind the key: [txt] is the text read since the last number and
    [num] the value of the digits being read, if any. A key starts and ends
    with a (possibly empty) text and alternates texts and numbers. *)
Fixpoint scan_key (s : string) (txt : string) (num : option N) : list token :=
  match s with
  | EmptyString =>
      match num with
      | None => [Text txt]
      | Some n => [Num n; Text ""]
      end
  | String a s' =>
      if is_digit a then
        match num with
        | None => Text txt :: scan_key s' "" (Some (digit_value a))
        | Some n => scan_key s' "" (Some (10 * n + digit_value a)%N)
        end
      else
        match num with
        | None => scan_key s' (txt +:+ String a EmptyString) None
        | Some n => Num n :: scan_key s' (String a EmptyString) None
        end
  end.

(** Modelled from the spec: pixano.utils.natural_key is not among the
    sources; section 6 describes the natural key as the string order in
    which embedded digit runs compare as integers, so that "item2" comes
    before "item10". The key splits the string into its texts and the
    numbers between them. *)
Definition natural_key (s : string) : list token := scan_key s "" None.

(** Lexicographic comparison of two lists under a comparison of their items:
    the first difference decides and a proper prefix comes first. *)
Fixpoint lex_compare {A : Type} (cmp : A -> A -> comparison) (l1 l2 : list A)
  : comparison :=
  match l1, l2 with
  | [], [] => Eq
  | [], _ :: _ => Lt
  | _ :: _, [] => Gt
  | x :: l1', y :: l2' =>
      match cmp x y with
      | Eq => lex_compare cmp l1' l2'
      | c => c
      end
  end.

Definition ascii_compare (a b : ascii) : comparison :=
  N.compare (N_of_ascii a) (N_of_ascii b).

(** Python compares strings character by character. *)
Definition str_compare (s1 s2 : string) : comparison :=
  lex_compare ascii_compare (String.list_ascii_of_string s1)
                            (String.list_ascii_of_string s2).

(** Texts compare as strings and numbers as integers. A text and a number
    never meet at the same place of two natural keys; a number is put first
    to make the comparison total. *)
Definition token_compare (a b : token) : comparison :=
  match a, b with
  | Text s1, Text s2 => str_compare s1 s2
  | Num n1, Num n2 => N.compare n1 n2
  | Num _, Text _ => Lt
  | Text _, Num _ => Gt
  end.

Definition key_compare (k1 k2 : list token) : comparison :=
  lex_compare token_compare k1 k2.

(** [k1 < k2] on keys, the only comparison [sorted] makes. *)
Definition key_lt (k1 k2 : list token) : bool :=
  match key_compare k1 k2 with Lt => true | _ => false end.

(** [k1 <= k2]: [k2] is not before [k1]. *)
Definition key_le (k1 k2 : list token) : Prop := key_lt k2 k1 = false.

Section Sorted.
Context {A K : Type} (lt : K -> K -> bool).

(** One step of a stable insertion: [x] goes before the first element that
    is not smaller than it. The elements carry their keys. *)
Fixpoint insert_keyed (x : K * A) (l : list (K * A)) : list (K * A) :=
  match l with
  | [] => [x]
  | y :: l' =>
      if lt (fst y) (fst x) then y :: insert_keyed x l' else x :: y :: l'
  end.

(** The stable sort of the keyed elements: elements with equal keys keep
    their order. Python's [sorted] is stable and compares keys with [<]
    only, so it returns this list. *)
Definition sort_keyed (l : list (K * A)) : list (K * A) :=
  foldr insert_keyed [] l.
End Sorted.

(** The list that has, at every place [k], the element of [l] at the index
    that [order] has at [k]. *)
Definition reorder {A : Type} (order : list nat) (l : list A) : list A :=
  omap (fun i => l !! i) order.

(** The order in which a stable sort on the keys takes the rows: the row
    indices, sorted on the keys of their rows. *)
Definition sort_order (keys : list (list token)) : list nat :=
  map snd (sort_keyed key_lt (zip keys (seq 0 (length keys)))).

(** [sorted(l, key=key)] when computing a key may raise: the keys are all
    computed first, then the elements are sorted on them. *)
Definition sorted_by {A : Type} (key : A -> result (list token)) (l : list A)
  : result (list A) :=
  keys ← mapM key l;
  Ok (map snd (sort_keyed key_lt (zip keys l))).

End NaturalSort.

(** ** The item store: pixano/api/items.py *)

Module Items.
Import Geometry Core Arrow NaturalSort.

(** *** Tables and schemas *)

(** [pa.field(name, type)]. *)
Record Field : Type := mkField {
  fname : string;
  ftype : DataType
}.

(** A table read from or written to a shard file: its schema and, for every
    field of the schema, the column of its values (what [to_pydict] gives). *)
Record Table : Type := mkTable {
  schema : list Field;
  columns : list (list value)
}.

(** All the columns of a table have the same number of rows. *)
Definition num_rows (t : Table) : nat :=
  match columns t with
  | [] => 0%nat
  | c :: _ => length c
  end.

(** [schema.get_field_index(name)]: the index of the only field of that
    name, -1 when there is none or more than one. *)
Fixpoint indices_of (name : string) (i : nat) (sch : list Field) : list nat :=
  match sch with
  | [] => []
  | f :: sch' =>
      (if String.eqb (fname f) name then [i] else []) ++ indices_of name (S i) sch'
  end.

Definition get_field_index (sch : list Field) (name : string) : Z :=
  match indices_of name 0 sch with
  | [i] => Z.of_nat i
  | _ => -1
  end.

(** [schema.remove(i)]: the index must be one of the schema. *)
Definition schema_remove (sch : list Field) (i : Z) : result (list Field) :=
  if (0 <=? i) && (i <? Z.of_nat (length sch))
  then Ok (take (Z.to_nat i) sch ++ drop (S (Z.to_nat i)) sch)
  else Err (ArrowInvalid "Invalid column index to remove field.").

(** [schema.append(field)]. *)
Definition schema_append (sch : list Field) (f : Field) : list Field :=
  sch ++ [f].

(** *** The extension types of pixano.core *)

(** [BBox.to_struct()] (pixano/core/bbox.py, lines 183-196): the struct a
    box is stored as. It has no field for the confidence of the box and its
    coordinates are of single precision. *)
Definition BBox_to_struct : DataType :=
  pa_struct [("coords", pa_fixed_size_list pa_float32 4);
             ("is_normalized", pa_bool);
             ("format", pa_string)].

(** The structs of a mask and of a pose, as the literal of line 288 spells
    them. *)
Definition CompressedRLEStruct : DataType :=
  pa_struct [("size", pa_list pa_int32); ("counts", pa_binary)].

Definition PoseStruct : DataType :=
  pa_struct [("cam_R_m2c", pa_fixed_size_list pa_float64 9);
             ("cam_t_m2c", pa_fixed_size_list pa_float64 3)].

(** The extension types of annotations and of images, the two tests on
    types and the array classes of the two types are declared in modules of
    pixano.core that are not among the sources (line 199 of bbox.py shows
    such a type being made by the generic [create_pyarrow_type]). They are
    an interface of the development: what is proved of the update
    transaction and of the readers holds for all implementations, whatever
    the types print as and however the arrays encode their values. Of the
    two tests only this is taken for granted: a string type is neither an
    image type nor a list of annotations. *)
Class PixanoArrow : Type := {
  ObjectAnnotationType : DataType;
  ImageType : DataType;
  (** [is_image_type(t)] and [is_list_of_object_annotation_type(t)] *)
  is_image_type : DataType -> bool;
  is_list_of_object_annotation_type : DataType -> bool;
  (** [ObjectAnnotationType.Array.from_lists(lists)]: the array written for
      a column of lists of annotations *)
  from_lists : list value -> result Array;
  (** [ImageType.Array.from_list(images)]: the array written for a column
      of images *)
  from_list : list value -> result Array;
  string_is_no_image : is_image_type pa_string = false;
  string_is_no_annotation_list :
    is_list_of_object_annotation_type pa_string = false
}.

(** The previous type of an annotation column, whose [str] is the literal at
    line 288. *)
Definition previous_objects_type : DataType :=
  pa_list
    (pa_struct [("id", pa_string); ("view_id", pa_string);
                ("bbox", pa_fixed_size_list pa_float32 4);
                ("bbox_source", pa_string); ("bbox_confidence", pa_float32);
                ("is_group_of", pa_bool); ("is_difficult", pa_bool);
                ("is_truncated", pa_bool); ("mask", CompressedRLEStruct);
                ("mask_source", pa_string); ("area", pa_float32);
                ("pose", PoseStruct); ("category_id", pa_int32);
                ("category_name", pa_string); ("identity", pa_string)]).

Definition previous_objects_str : string :=
  "list<item: struct<id: string, view_id: string, bbox: fixed_size_list<item: float>[4], bbox_source: string, bbox_confidence: float, is_group_of: bool, is_difficult: bool, is_truncated: bool, mask: struct<size: list<item: int32>, counts: binary>, mask_source: string, area: float, pose: struct<cam_R_m2c: fixed_size_list<item: double>[9], cam_t_m2c: fixed_size_list<item: double>[3]>, category_id: int32, category_name: string, identity: string>>".

(** The literal at line 296: what [str] prints for an extension type of the
    name [Image] whose class is named [CustomExtensionType]. *)
Definition previous_image_str : string :=
  "extension<Image<CustomExtensionType>>".

(** *** The files and the objects of the caller *)

(** The state the transaction works on: the annotation objects the caller's
    list refers to, the shard files by path in the order the directory lists
    them, and the paths [pq.write_table] was called on, oldest first. *)
Record World : Type := mkWorld {
  heap : gmap nat ObjectAnnotation;
  files : list (string * Table);
  written : list string
}.

Fixpoint read_table (fs : list (string * Table)) (file : string) : result Table :=
  match fs with
  | [] => Err (ArrowInvalid "No such file")
  | (p, t) :: fs' => if String.eqb p file then Ok t else read_table fs' file
  end.

(** [pq.write_table(table, file)] replaces the content of the file. *)
Fixpoint write_table (fs : list (string * Table)) (file : string) (t : Table)
  : list (string * Table) :=
  match fs with
  | [] => [(file, t)]
  | (p, t') :: fs' =>
      if String.eqb p file then (p, t) :: fs' else (p, t') :: write_table fs' file t
  end.

Definition ends_with (suffix s : string) : bool :=
  let n := String.length s in
  let m := String.length suffix in
  (m <=? n)%nat && String.eqb (String.substring (n - m) m s) suffix.

(** [(dataset_dir / "db").glob("**/*.parquet")]: the files below the [db]
    directory of the dataset whose name ends in [.parquet]. *)
Definition glob_parquet (dataset_dir : string) (fs : list (string * Table))
  : list string :=
  List.filter
    (fun p => String.prefix (dataset_dir +:+ "/db/") p && ends_with ".parquet" p)
    (map fst fs).

(** [path.name]: what follows the last slash. *)
Fixpoint path_name_from (s : string) (acc : string) : string :=
  match s with
  | EmptyString => acc
  | String a s' =>
      if Ascii.eqb a "/"%char then path_name_from s' ""
      else path_name_from s' (acc +:+ String a EmptyString)
  end.

Definition path_name (p : string) : string := path_name_from p "".

(** *** The first loop: masks and bounding boxes (lines 265-272) *)

Definition zero_coords : list pyfloat := [0%float; 0%float; 0%float; 0%float].

Section Transaction.
Context `{PixanoCore} `{PixanoArrow}.

(** One turn of the loop on the object at [l]. The mask is assigned before
    the bounding box is looked at, so an exception raised by the second
    statement leaves the first one done. *)
Definition normalize_annotation (h : gmap nat ObjectAnnotation) (l : nat)
  : gmap nat ObjectAnnotation * result unit :=
  match h !! l with
  | None => (h, Err (AttributeError "mask"))
  | Some ann =>
      (* ann.mask = CompressedRLE.from_urle(ann.mask.to_dict()) *)
      match mask ann with
      | None => (h, Err (AttributeError "to_dict"))
      | Some m =>
          match from_urle m with
          | Err e => (h, Err e)
          | Ok rle =>
              let ann1 := set_mask (Some rle) ann in
              let h1 := <[l := ann1]> h in
              (* ann.bbox = ann.bbox if ann.bbox.coords != [0.0] * 4
                            else BBox.from_mask(ann.mask.to_mask()) *)
              match bbox ann1 with
              | None => (h1, Err (AttributeError "coords"))
              | Some b =>
                  if negb (float_list_eq (coords b) zero_coords)
                  then (<[l := set_bbox (Some b) ann1]> h1, Ok tt)
                  else
                    match to_mask rle with
                    | Err e => (h1, Err e)
                    | Ok dense =>
                        (<[l := set_bbox (Some (from_mask dense)) ann1]> h1, Ok tt)
                    end
              end
          end
      end
  end.

(** [for ann in annotations: ...]. *)
Fixpoint normalize_annotations (h : gmap nat ObjectAnnotation)
    (annotations : list nat) : gmap nat ObjectAnnotation * result unit :=
  match annotations with
  | [] => (h, Ok tt)
  | l :: rest =>
      match normalize_annotation h l with
      | (h', Ok _) => normalize_annotations h' rest
      | (h', Err e) => (h', Err e)
      end
  end.

(** The annotations a list of references stands for. *)
Definition deref (h : gmap nat ObjectAnnotation) (annotations : list nat)
  : list ObjectAnnotation :=
  omap (fun l => h !! l) annotations.

(** *** Support for the previous types (lines 283-300) *)

(** One turn of the loop over the fields of the schema that was read:
    [sch] is the schema being rebuilt and [upd] the names in
    [fields_to_update]. *)
Definition update_field_type (field : Field)
    (st : list Field * list string) : result (list Field * list string) :=
  let '(sch, upd) := st in
  st1 ← (if String.eqb (type_str (ftype field)) previous_objects_str
         then
           sch1 ← schema_remove sch (get_field_index sch "objects");
           Ok (schema_append sch1 (mkField (fname field) (pa_list ObjectAnnotationType)),
               upd ++ [fname field])
         else Ok (sch, upd));
  let '(sch, upd) := st1 in
  if String.eqb (type_str (ftype field)) previous_image_str
  then
    sch1 ← schema_remove sch (get_field_index sch (fname field));
    Ok (schema_append sch1 (mkField (fname field) ImageType), upd ++ [fname field])
  else Ok (sch, upd).

Fixpoint update_field_types (fields : list Field)
    (st : list Field * list string) : result (list Field * list string) :=
  match fields with
  | [] => Ok st
  | f :: fields' => st' ← update_field_type f st; update_field_types fields' st'
  end.

(** The type the field has in the schema that is rebuilt: the current
    annotation or image type when its type prints as one of the two
    literals, its own type otherwise. *)
Definition migrated_type (field : Field) : DataType :=
  if String.eqb (type_str (ftype field)) previous_objects_str
  then pa_list ObjectAnnotationType
  else if String.eqb (type_str (ftype field)) previous_image_str
       then ImageType
       else ftype field.

(** *** Looking the item up (lines 302-309) *)

(** The column [pc.field("id")] refers to: the only column of that name,
    which holds strings. *)
Definition id_column (t : Table) : result (list value) :=
  let i := get_field_index (schema t) "id" in
  if i <? 0 then Err (ArrowInvalid "No match for FieldRef.Name(id)")
  else
    match schema t !! Z.to_nat i, columns t !! Z.to_nat i with
    | Some f, Some col =>
        match ftype f with
        | pa_string => Ok col
        | _ => Err (ArrowInvalid "cannot compare the ids with a string")
        end
    | _, _ => Err (ArrowInvalid "No match for FieldRef.Name(id)")
    end.

(** [pc.field("id").isin([item_id])] on one row. *)
Definition is_item (item_id : string) (v : value) : bool :=
  match v with
  | VStr s => String.eqb s item_id
  | _ => false
  end.

(** The rows of a column kept by a mask of booleans, one per row. *)
Fixpoint filter_rows {A : Type} (keep : list bool) (col : list A) : list A :=
  match keep, col with
  | k :: keep', x :: col' =>
      if k then x :: filter_rows keep' col' else filter_rows keep' col'
  | _, _ => []
  end.

(** [to_pydict()]: the columns by name; of two columns of one name the
    later one stays. *)
Definition to_pydict (sch : list Field) (cols : list (list value))
  : gmap string (list value) :=
  foldl (fun m fc => <[fname (fst fc) := snd fc]> m) ∅ (zip sch cols).

(** First row of [to_pylist()]: the first values of the columns by name. *)
Definition first_row (sch : list Field) (cols : list (list value))
  : option (gmap string value) :=
  foldl (fun om fc =>
           m ← om; v ← head (snd fc); Some (<[fname (fst fc) := v]> m))
        (Some ∅) (zip sch cols).

Definition get_column (tbl : gmap string (list value)) (name : string)
  : result (list value) :=
  match tbl !! name with
  | Some col => Ok col
  | None => Err (KeyError name)
  end.

Definition get_cell (row : gmap string value) (name : string) : result value :=
  match row !! name with
  | Some v => Ok v
  | None => Err (KeyError name)
  end.

(** *** Putting the item back and sorting (lines 311-327) *)

(** [for field in schema:
       updated_table[field.name].append(item[0][field.name])]. *)
Fixpoint append_item (sch : list Field) (row : gmap string value)
    (tbl : gmap string (list value)) : result (gmap string (list value)) :=
  match sch with
  | [] => Ok tbl
  | f :: sch' =>
      col ← get_column tbl (fname f);
      v ← get_cell row (fname f);
      append_item sch' row (<[fname f := col ++ [v]]> tbl)
  end.

(** [natural_key(x)] on a cell of the id column: only a string has one. *)
Definition id_key (v : value) : result (list token) :=
  match v with
  | VStr s => Ok (natural_key s)
  | _ => Err (TypeError "expected string or bytes-like object")
  end.

(** [[x for _, x in sorted(zip(ids, column),
                          key=lambda pair: natural_key(pair[0]))]]. *)
Definition sort_column (ids column : list value) : result (list value) :=
  pairs ← sorted_by (fun pair => id_key (fst pair)) (zip ids column);
  Ok (map snd pairs).

(** The loop of lines 317-325 over the fields other than [id]. *)
Fixpoint sort_fields (sch : list Field) (tbl : gmap string (list value))
  : result (gmap string (list value)) :=
  match sch with
  | [] => Ok tbl
  | f :: sch' =>
      if negb (String.eqb (fname f) "id")
      then
        ids ← get_column tbl "id";
        col ← get_column tbl (fname f);
        sorted_col ← sort_column ids col;
        sort_fields sch' (<[fname f := sorted_col]> tbl)
      else sort_fields sch' tbl
  end.

(** Lines 316-327: every field is sorted on the ids, then the ids. *)
Definition sort_table (sch : list Field) (tbl : gmap string (list value))
  : result (gmap string (list value)) :=
  tbl1 ← sort_fields sch tbl;
  ids ← get_column tbl1 "id";
  sorted_ids ← sorted_by id_key ids;
  Ok (<["id" := sorted_ids]> tbl1).

(** *** Values of the previous types (lines 329-354) *)

Definition renew_image (v : value) : result value :=
  match v with
  | VImage im => im' ← image_from_dict (image_to_dict im); Ok (VImage im')
  | _ => Err (AttributeError "to_dict")
  end.

Definition renew_object (obj : value) : result value :=
  d ← match obj with
      | VDict d => Ok d
      | VObject a => Ok (annotation_to_dict a)
      | _ => Err (AttributeError "to_dict")
      end;
  (* Support for previous BBox type *)
  b ← dict_get d "bbox";
  let d1 := match b with
            | VList _ => dict_set d "bbox" (VDict [("coords", b); ("format", VStr "xywh")])
            | _ => d
            end in
  let d2 := dict_set d1 "mask_source" (VStr "") in
  let d3 := dict_set d2 "bbox_source" (VStr "") in
  a ← annotation_from_dict d3;
  Ok (VObject a).

Definition renew_objects (item_objects : value) : result value :=
  match item_objects with
  | VList objs => objs' ← mapM renew_object objs; Ok (VList objs')
  | _ => Err (TypeError "object is not iterable")
  end.

Definition elem_str (x : string) (l : list string) : bool :=
  existsb (String.eqb x) l.

Definition renew_field (upd : list string) (f : Field)
    (tbl : gmap string (list value)) : result (gmap string (list value)) :=
  tbl1 ← (if is_image_type (ftype f) && elem_str (fname f) upd
          then
            col ← get_column tbl (fname f);
            col' ← mapM renew_image col;
            Ok (<[fname f := col']> tbl)
          else Ok tbl);
  if is_list_of_object_annotation_type (ftype f) && elem_str (fname f) upd
  then
    col ← get_column tbl1 (fname f);
    col' ← mapM renew_objects col;
    Ok (<[fname f := col']> tbl1)
  else Ok tbl1.

Fixpoint renew_fields (upd : list string) (sch : list Field)
    (tbl : gmap string (list value)) : result (gmap string (list value)) :=
  match sch with
  | [] => Ok tbl
  | f :: sch' => tbl' ← renew_field upd f tbl; renew_fields upd sch' tbl'
  end.

(** *** Conversion and the new table (lines 356-378) *)

Definition field_array (tbl : gmap string (list value)) (f : Field)
  : result Array :=
  col ← get_column tbl (fname f);
  if is_list_of_object_annotation_type (ftype f) then from_lists col
  else if is_image_type (ftype f) then from_list col
  else convert_field (fname f) (ftype f) col.

(** [pa.Table.from_arrays(arrays, schema=schema)]: the arrays must have one
    length. Each array is taken to be of the type of its field:
    [convert_field] builds it so, and the two array classes are those of
    the types of their fields. *)
Definition Table_from_arrays (arrays : list Array) (sch : list Field)
  : result Table :=
  let n := match arrays with [] => 0%nat | a :: _ => arr_len a end in
  if forallb (fun a => Nat.eqb (arr_len a) n) arrays
  then Ok (mkTable sch (map arr_data arrays))
  else Err (ArrowInvalid "columns of different lengths").

(** *** The body of the loop over the files (lines 279-378) *)

(** What the body does with the table of one file: [None] when the item is
    not in the table, the table to write otherwise. [annotations] are the
    objects of the caller's list at this point. *)
Definition update_table (item_id : string) (annotations : list ObjectAnnotation)
    (table : Table) : result (option Table) :=
  (* Support for previous Image and ObjectAnnotation type *)
  st ← update_field_types (schema table) (schema table, []);
  let '(sch, fields_to_update) := st in
  (* Look for updated item *)
  ids ← id_column table;
  let found := map (is_item item_id) ids in
  let item := first_row (schema table) (map (filter_rows found) (columns table)) in
  (* If item found *)
  if existsb (fun b => b) found then
    match item with
    | None => Err IndexError
    | Some item0 =>
        (* Read table without item *)
        let updated_table :=
          to_pydict (schema table)
                    (map (filter_rows (map negb found)) (columns table)) in
        (* Add item with updated annotations *)
        let item0 := <["objects" := VList (map VObject annotations)]> item0 in
        tbl1 ← append_item sch item0 updated_table;
        (* Sort table fields according to IDs *)
        tbl2 ← sort_table sch tbl1;
        (* Support for previous Image and ObjectAnnotation type *)
        tbl3 ← renew_fields fields_to_update sch tbl2;
        (* Convert ExtensionTypes *)
        arrays ← mapM (field_array tbl3) sch;
        (* Save updated table *)
        new_table ← Table_from_arrays arrays sch;
        Ok (Some new_table)
    end
  else Ok None.

(** [for file in files: ...]: the files are read and, where the item is
    found, written one after the other; an exception ends the loop and
    leaves what was written before. *)
Fixpoint update_files (item_id : string) (annotations : list ObjectAnnotation)
    (paths : list string) (fs : list (string * Table)) (log : list string)
  : list (string * Table) * list string * result unit :=
  match paths with
  | [] => (fs, log, Ok tt)
  | file :: paths' =>
      match table ← read_table fs file; update_table item_id annotations table with
      | Err e => (fs, log, Err e)
      | Ok None => update_files item_id annotations paths' fs log
      | Ok (Some new_table) =>
          update_files item_id annotations paths'
                       (write_table fs file new_table) (log ++ [file])
      end
  end.

(** [save_item_annotations(dataset_dir, item_id, annotations)]: the world
    after the call and [Ok] when it returns, the exception when it
    raises. *)
Definition save_item_annotations (dataset_dir item_id : string)
    (annotations : list nat) (w : World) : World * result unit :=
  (* Convert URLE to RLE and add bounding box *)
  match normalize_annotations (heap w) annotations with
  | (h, Err e) => (mkWorld h (files w) (written w), Err e)
  | (h, Ok _) =>
      (* Dataset files *)
      let paths := glob_parquet dataset_dir (files w) in
      match sorted_by (fun x => Ok (natural_key (path_name x))) paths with
      | Err e => (mkWorld h (files w) (written w), Err e)
      | Ok paths =>
          (* Iterate on dataset files *)
          let '(fs, log, r) :=
            update_files item_id (deref h annotations) paths (files w) (written w) in
          (mkWorld h fs log, r)
      end
  end.

(** *** One annotation through the first loop *)

(** The annotation one turn of the first loop leaves at the place of [ann]
    when it does not raise: the mask is the compressed form of the mask it
    had; the bounding box is the one it had, unless the coordinates of that
    box are all zero, when it is the box of the decoded mask. *)
Definition normalized (ann : ObjectAnnotation) : result ObjectAnnotation :=
  match mask ann with
  | None => Err (AttributeError "to_dict")
  | Some m =>
      rle ← from_urle m;
      match bbox ann with
      | None => Err (AttributeError "coords")
      | Some b =>
          if negb (float_list_eq (coords b) zero_coords)
          then Ok (set_bbox (Some b) (set_mask (Some rle) ann))
          else
            dense ← to_mask rle;
            Ok (set_bbox (Some (from_mask dense)) (set_mask (Some rle) ann))
      end
  end.

(** *** One column through the transaction *)

(** What lines 329-354 do to the column of the field [f]. *)
Definition renew_column (upd : list string) (f : Field) (col : list value)
  : result (list value) :=
  col1 ← (if is_image_type (ftype f) && elem_str (fname f) upd
          then mapM renew_image col else Ok col);
  if is_list_of_object_annotation_type (ftype f) && elem_str (fname f) upd
  then mapM renew_objects col1 else Ok col1.

(** What lines 329-378 make of the sorted column of the field [f]: the
    values of the array that is written for it. *)
Definition encode_column (upd : list string) (f : Field) (col : list value)
  : result (list value) :=
  col' ← renew_column upd f col;
  arr ← (if is_list_of_object_annotation_type (ftype f) then from_lists col'
         else if is_image_type (ftype f) then from_list col'
         else convert_field (fname f) (ftype f) col');
  Ok (arr_data arr).

End Transaction.

(** *** Shards as the store keeps them *)

(** The ids of a table, when it has an id column of strings. *)
Definition table_ids (t : Table) : list value :=
  match id_column t with
  | Ok ids => ids
  | Err _ => []
  end.

(** The table holds a row for the item. *)
Definition contains_item (item_id : string) (t : Table) : bool :=
  existsb (is_item item_id) (table_ids t).

(** The column of a table under a name. *)
Definition table_column (t : Table) (name : string) : option (list value) :=
  to_pydict (schema t) (columns t) !! name.

(** No id is held by two rows of the shards. *)
Definition unique_ids (fs : list (string * Table)) : Prop :=
  NoDup (concat (map (fun pt => table_ids (snd pt)) fs)).

(** A table as PyArrow holds it: one column per field, all of one length,
    under distinct names. A column of the previous annotation type is the
    column [objects]. *)
Definition table_wf (t : Table) : Prop :=
  length (columns t) = length (schema t)
  /\ Forall (fun c => length c = num_rows t) (columns t)
  /\ NoDup (map fname (schema t))
  /\ Forall (fun f => type_str (ftype f) = previous_objects_str -> fname f = "objects")
            (schema t).

(** No type of the schema of the table prints as one of the two literals
    of lines 288 and 296. *)
Definition no_previous_type (t : Table) : Prop :=
  Forall (fun f => type_str (ftype f) <> previous_objects_str
                   /\ type_str (ftype f) <> previous_image_str) (schema t).

(** The type of a field prints as one of the two literals of lines 288 and
    296. *)
Definition of_previous_type (field : Field) : Prop :=
  type_str (ftype field) = previous_objects_str
  \/ type_str (ftype field) = previous_image_str.

(** The rows of a column that are not the item's, followed by the cell [v]
    put back for the item. *)
Definition put_back (item_id : string) (ids : list value) (col : list value)
    (v : value) : list value :=
  filter_rows (map (fun x => negb (is_item item_id x)) ids) col ++ [v].

(** The cell of the item's first row in a column. *)
Definition item_cell (item_id : string) (ids : list value) (col : list value)
  : option value :=
  head (filter_rows (map (is_item item_id) ids) col).

End Items.

(** ** A reference implementation of the absent parts of pixano.core *)

Module Reference.
Import Geometry Core.

(** Modelled from the spec: the mask codec of section 4.2. The runs of a
    mask alternate background and foreground in row-major order, starting
    with the background; the compressed form packs every run length into
    four bytes, low byte first (the spec leaves the packing open). *)
Definition byte_of_N (n : N) : Byte.byte :=
  default Byte.x00 (Byte.of_N (n mod 256)%N).

Definition pack_run (z : Z) : list Byte.byte :=
  let n := Z.to_N z in
  [byte_of_N n; byte_of_N (n / 256)%N; byte_of_N (n / 65536)%N;
   byte_of_N (n / 16777216)%N].

Fixpoint unpack_runs (bs : list Byte.byte) : result (list Z) :=
  match bs with
  | [] => Ok []
  | b0 :: b1 :: b2 :: b3 :: bs' =>
      runs ← unpack_runs bs';
      Ok (Z.of_N (Byte.to_N b0 + 256 * Byte.to_N b1 + 65536 * Byte.to_N b2
                  + 16777216 * Byte.to_N b3)%N :: runs)
  | _ => Err DecodeError
  end.

Definition ref_from_urle (m : MaskDict) : result MaskDict :=
  match counts m with
  | UrleCounts runs => Ok (mkMask (size m) (RleCounts (concat (map pack_run runs))))
  | RleCounts _ => Err (TypeError "the counts of an uncompressed mask are a list")
  end.

(** The pixels of the runs, one after the other. *)
Fixpoint expand_runs (fg : bool) (runs : list Z) : list bool :=
  match runs with
  | [] => []
  | r :: runs' => replicate (Z.to_nat r) fg ++ expand_runs (negb fg) runs'
  end.

(** [height] rows of [width] pixels each. *)
Fixpoint rows_of (height width : nat) (pixels : list bool) : list (list bool) :=
  match height with
  | O => []
  | S height' => take width pixels :: rows_of height' width (drop width pixels)
  end.

Definition ref_to_mask (m : MaskDict) : result DenseMask :=
  match counts m, size m with
  | RleCounts packed, [height; width] =>
      runs ← unpack_runs packed;
      let pixels := expand_runs false runs in
      if Nat.eqb (length pixels) (Z.to_nat height * Z.to_nat width)
      then Ok (rows_of (Z.to_nat height) (Z.to_nat width) pixels)
      else Err DecodeError
  | _, _ => Err DecodeError
  end.

(** The dictionary forms: every attribute under its name, [None] for an
    attribute that is not set. *)
Definition of_opt {A : Type} (f : A -> value) (o : option A) : value :=
  match o with Some a => f a | None => VNone end.

Definition floats_value (l : list pyfloat) : value := VList (map VFloat l).

Definition bbox_to_dict (b : BBox) : pydict :=
  [("coords", floats_value (coords b)); ("format", VStr (format b));
   ("is_normalized", of_opt VBool (is_normalized b));
   ("confidence", of_opt VFloat (confidence b))].

Definition mask_to_dict (m : MaskDict) : pydict :=
  [("size", VList (map VInt (size m)));
   ("counts", match counts m with
              | UrleCounts runs => VList (map VInt runs)
              | RleCounts packed => VBytes packed
              end)].

Definition pose_to_dict (p : Pose) : pydict :=
  [("cam_R_m2c", floats_value (cam_R_m2c p));
   ("cam_t_m2c", floats_value (cam_t_m2c p))].

Definition ref_annotation_to_dict (a : ObjectAnnotation) : pydict :=
  [("id", VStr (id a)); ("view_id", VStr (view_id a));
   ("bbox", of_opt (fun b => VDict (bbox_to_dict b)) (bbox a));
   ("bbox_source", of_opt VStr (bbox_source a));
   ("bbox_confidence", of_opt VFloat (bbox_confidence a));
   ("is_group_of", of_opt VBool (is_group_of a));
   ("is_difficult", of_opt VBool (is_difficult a));
   ("is_truncated", of_opt VBool (is_truncated a));
   ("mask", of_opt (fun m => VDict (mask_to_dict m)) (mask a));
   ("mask_source", of_opt VStr (mask_source a));
   ("area", of_opt VFloat (area a));
   ("pose", of_opt (fun p => VDict (pose_to_dict p)) (pose a));
   ("category_id", of_opt VInt (category_id a));
   ("category_name", of_opt VStr (category_name a));
   ("identity", of_opt VStr (identity a))].

(** Readers of the attributes: a missing key or [None] leaves the attribute
    unset and a value of another kind is refused. *)
Definition get_opt {A : Type} (read : value -> result A) (d : pydict) (k : string)
  : result (option A) :=
  match dict_get d k with
  | Ok VNone | Err _ => Ok None
  | Ok v => a ← read v; Ok (Some a)
  end.

Definition bad_value {A : Type} : result A := Err (TypeError "validation error").

Definition read_str (v : value) : result string :=
  match v with VStr s => Ok s | _ => bad_value end.
Definition read_bool (v : value) : result bool :=
  match v with VBool b => Ok b | _ => bad_value end.
Definition read_int (v : value) : result Z :=
  match v with VInt z => Ok z | _ => bad_value end.
Definition read_float (v : value) : result pyfloat :=
  match v with
  | VFloat f => Ok f
  | VInt z => Ok (Arrow.float_of_Z z)
  | _ => bad_value
  end.
Definition read_list {A : Type} (read : value -> result A) (v : value)
  : result (list A) :=
  match v with VList l => mapM read l | _ => bad_value end.

Definition read_bbox (v : value) : result BBox :=
  match v with
  | VDict d =>
      c ← (v ← dict_get d "coords"; read_list read_float v);
      f ← (v ← dict_get d "format"; read_str v);
      n ← get_opt read_bool d "is_normalized";
      conf ← get_opt read_float d "confidence";
      Ok (mkBBox c f n conf)
  | _ => bad_value
  end.

Definition read_mask (v : value) : result MaskDict :=
  match v with
  | VDict d =>
      sz ← (v ← dict_get d "size"; read_list read_int v);
      cnt ← (v ← dict_get d "counts";
             match v with
             | VBytes packed => Ok (RleCounts packed)
             | VList _ => runs ← read_list read_int v; Ok (UrleCounts runs)
             | _ => bad_value
             end);
      Ok (mkMask sz cnt)
  | _ => bad_value
  end.

Definition read_pose (v : value) : result Pose :=
  match v with
  | VDict d =>
      r ← (v ← dict_get d "cam_R_m2c"; read_list read_float v);
      t ← (v ← dict_get d "cam_t_m2c"; read_list read_float v);
      Ok (mkPose r t)
  | _ => bad_value
  end.

Definition ref_annotation_from_dict (d : pydict) : result ObjectAnnotation :=
  i ← (v ← dict_get d "id"; read_str v);
  vw ← (v ← dict_get d "view_id"; read_str v);
  bb ← get_opt read_bbox d "bbox";
  bs ← get_opt read_str d "bbox_source";
  bc ← get_opt read_float d "bbox_confidence";
  g ← get_opt read_bool d "is_group_of";
  df ← get_opt read_bool d "is_difficult";
  tr ← get_opt read_bool d "is_truncated";
  m ← get_opt read_mask d "mask";
  ms ← get_opt read_str d "mask_source";
  ar ← get_opt read_float d "area";
  po ← get_opt read_pose d "pose";
  ci ← get_opt read_int d "category_id";
  cn ← get_opt read_str d "category_name";
  idt ← get_opt read_str d "identity";
  Ok (mkAnn i vw bb bs bc g df tr m ms ar po ci cn idt).

Definition ref_image_to_dict (im : Image) : pydict :=
  [("uri", VStr (uri im)); ("bytes", of_opt VBytes (bytes im));
   ("preview_bytes", of_opt VBytes (preview_bytes im))].

Definition read_bytes (v : value) : result (list Byte.byte) :=
  match v with VBytes b => Ok b | _ => bad_value end.

Definition ref_image_from_dict (d : pydict) : result Image :=
  u ← (v ← dict_get d "uri"; read_str v);
  b ← get_opt read_bytes d "bytes";
  pb ← get_opt read_bytes d "preview_bytes";
  Ok (mkImage u b pb).

#[export] Instance reference_core : PixanoCore := {|
  from_urle := ref_from_urle;
  to_mask := ref_to_mask;
  annotation_to_dict := ref_annotation_to_dict;
  annotation_from_dict := ref_annotation_from_dict;
  image_to_dict := ref_image_to_dict;
  image_from_dict := ref_image_from_dict
|}.

(** *** The extension types and their arrays *)

Import Arrow Items.

(** After line 199 of pixano/core/bbox.py and the literal of line 296 of
    pixano/api/items.py: an extension type is made by one generic factory
    from a struct and a name, and the class of a type made so prints as
    [CustomExtensionType]. *)
Definition ref_create_pyarrow_type (struct_type : DataType) (name : string)
  : DataType :=
  pa_extension name "CustomExtensionType" struct_type.

(** The struct of an annotation has the fields of the literal of line 288,
    with the struct of [BBox] for the box. *)
Definition ref_ObjectAnnotationType : DataType :=
  ref_create_pyarrow_type
    (pa_struct [("id", pa_string); ("view_id", pa_string);
                ("bbox", BBox_to_struct); ("bbox_source", pa_string);
                ("bbox_confidence", pa_float32); ("is_group_of", pa_bool);
                ("is_difficult", pa_bool); ("is_truncated", pa_bool);
                ("mask", CompressedRLEStruct); ("mask_source", pa_string);
                ("area", pa_float32); ("pose", PoseStruct);
                ("category_id", pa_int32); ("category_name", pa_string);
                ("identity", pa_string)])
    "ObjectAnnotation".

Definition ref_ImageType : DataType :=
  ref_create_pyarrow_type
    (pa_struct [("uri", pa_string); ("bytes", pa_binary);
                ("preview_bytes", pa_binary)])
    "Image".

(** The tests on types go by the name of the extension type. *)
Definition is_extension (name : string) (t : DataType) : bool :=
  match t with
  | pa_extension n _ _ => String.eqb n name
  | _ => false
  end.

Definition ref_is_image_type (t : DataType) : bool :=
  is_extension "Image" t.

Definition ref_is_list_of_object_annotation_type (t : DataType) : bool :=
  match t with
  | pa_list v => is_extension "ObjectAnnotation" v
  | _ => false
  end.

(** A float as a field of single precision holds it: rounded to 24 bits, to
    nearest, with the exponent range of binary32. *)
Definition single (f : pyfloat) : pyfloat :=
  match Prim2SF f with
  | S754_finite s m e => SF2Prim (SpecFloat.binary_round 24 128 s m e)
  | _ => f
  end.

(** An annotation as an array of the type gives it back: the struct of a
    box keeps its coordinates in single precision and has no field for its
    confidence; the confidence and the area of the annotation are of single
    precision too. *)
Definition stored_bbox (b : BBox) : BBox :=
  mkBBox (map single (coords b)) (format b) (is_normalized b) None.

Definition stored_annotation (a : ObjectAnnotation) : ObjectAnnotation :=
  mkAnn (id a) (view_id a) (stored_bbox <$> bbox a) (bbox_source a)
        (single <$> bbox_confidence a)
        (is_group_of a) (is_difficult a) (is_truncated a) (mask a) (mask_source a)
        (single <$> area a) (pose a) (category_id a) (category_name a) (identity a).

(** [from_lists] takes the length of every list, so a row that is not a
    list raises, and the dictionary of every item of a list. *)
Definition stored_object (v : value) : result value :=
  match v with
  | VObject a => Ok (VObject (stored_annotation a))
  | _ => Err (AttributeError "to_dict")
  end.

Definition objects_row (v : value) : result value :=
  match v with
  | VList l => objs ← mapM stored_object l; Ok (VList objs)
  | _ => Err (TypeError "object has no len()")
  end.

Definition ref_from_lists (lists : list value) : result Array :=
  rows ← mapM objects_row lists;
  Ok (mkArray (pa_list ref_ObjectAnnotationType) rows).

(** [from_list] keeps the images, with nulls for [None]. *)
Definition image_row (v : value) : result value :=
  match v with
  | VImage im => Ok (VImage im)
  | VNone => Ok VNone
  | _ => Err (AttributeError "to_dict")
  end.

Definition ref_from_list (images : list value) : result Array :=
  rows ← mapM image_row images;
  Ok (mkArray ref_ImageType rows).

#[export] Instance reference_arrow : PixanoArrow := {|
  ObjectAnnotationType := ref_ObjectAnnotationType;
  ImageType := ref_ImageType;
  is_image_type := ref_is_image_type;
  is_list_of_object_annotation_type := ref_is_list_of_object_annotation_type;
  from_lists := ref_from_lists;
  from_list := ref_from_list;
  string_is_no_image := eq_refl;
  string_is_no_annotation_list := eq_refl
|}.

End Reference.

(** ** The scenario of section 8: two shards of five items each *)

Module Scenario.
Import Geometry Core Arrow Items Reference.

Definition shard_schema : list Field :=
  [mkField "id" pa_string;
   mkField "image" ImageType;
   mkField "objects" (pa_list ObjectAnnotationType);
   mkField "split" pa_string].

Definition image_of (name : string) : value :=
  VImage (mkImage ("image/train/" +:+ name +:+ ".png") None None).

Definition shard_of (names : list string) : Table :=
  mkTable shard_schema
    [map VStr names;
     map image_of names;
     map (fun _ => VList []) names;
     map (fun _ => VStr "train") names].

Definition shard_0 : Table :=
  shard_of ["img_1"; "img_2"; "img_3"; "img_4"; "img_5"].

Definition shard_1 : Table :=
  shard_of ["img_6"; "img_7"; "img_8"; "img_9"; "img_10"].

(** A 3x4 mask with foreground at rows 1-2, columns 1-2, as URLE: five
    background pixels, two foreground, two background, two foreground, one
    background. *)
Definition urle_mask : MaskDict :=
  mkMask [3; 4] (UrleCounts [5; 2; 2; 2; 1]).

Definition empty_bbox : BBox :=
  mkBBox zero_coords "xywh" (Some false) None.

Definition new_annotation (b : option BBox) : ObjectAnnotation :=
  mkAnn "obj_1" "image" b None None None None None (Some urle_mask)
        (Some "Pixano Annotator") None None (Some 3) (Some "cat") None.

(** The directory lists the second shard first. *)
Definition world_of (b : option BBox) : World :=
  mkWorld {[ 0%nat := new_annotation b ]}
          [("/data/ds/db/train/shard_1.parquet", shard_1);
           ("/data/ds/db/train/shard_0.parquet", shard_0)]
          [].

(** The call that saves the annotation for [img_7]. *)
Definition saved (b : option BBox) : World * result unit :=
  save_item_annotations "/data/ds" "img_7" [0%nat] (world_of b).

(** A shard written with the previous types: the columns of the images and
    of the annotations are of types that print as the two literals, an
    annotation is a dictionary and its box a list of coordinates. *)
Definition previous_object : value :=
  VDict [("id", VStr "obj_0"); ("view_id", VStr "image");
         ("bbox", VList [VFloat 1%float; VFloat 1%float; VFloat 2%float; VFloat 2%float]);
         ("bbox_source", VNone); ("bbox_confidence", VNone);
         ("is_group_of", VNone); ("is_difficult", VNone); ("is_truncated", VNone);
         ("mask", VNone); ("mask_source", VNone); ("area", VNone); ("pose", VNone);
         ("category_id", VInt 3); ("category_name", VStr "cat");
         ("identity", VNone)].

Definition previous_shard : Table :=
  mkTable
    [mkField "id" pa_string;
     mkField "image" (pa_extension "Image" "CustomExtensionType"
                        (pa_struct [("uri", pa_string); ("bytes", pa_binary);
                                    ("preview_bytes", pa_binary)]));
     mkField "objects" previous_objects_type;
     mkField "split" pa_string]
    [[VStr "img_11"; VStr "img_12"];
     [image_of "img_11"; image_of "img_12"];
     [VList [previous_object]; VList []];
     [VStr "val"; VStr "val"]].

Definition previous_world : World :=
  mkWorld {[ 0%nat := new_annotation (Some empty_bbox) ]}
          [("/data/old/db/val/shard_0.parquet", previous_shard)]
          [].

(** The call that saves the annotation for [img_12]. *)
Definition previous_saved : World * result unit :=
  save_item_annotations "/data/old" "img_12" [0%nat] previous_world.

End Scenario.

(** ** The shape of the target types of [convert_field] *)

Module ArrowShape.
Import Geometry Core Arrow.

(** The struct types [convert_field] goes through on its way down a target
    type all declare a field. *)
Fixpoint declares_fields (t : DataType) : bool :=
  match t with
  | pa_list v => declares_fields v
  | pa_struct fs =>
      negb (Nat.eqb (length fs) 0) && forallb (fun f => declares_fields (snd f)) fs
  | _ => true
  end.

End ArrowShape.

(** ** The readers of the item store: pixano/api/items.py, lines 42-249 *)

Module Explorer.
Import Geometry Core Arrow NaturalSort Items.

(** What the readers take from classes that are not among the sources:
    the two urls of an [Image] (tests/core/test_image.py has them be the
    [binary_to_url] of the bytes and of the preview bytes),
    [CompressedRLE.to_urle], [pixano.utils.format_bbox], and what iterating
    over an image or an annotation yields. *)
Class ExplorerCore : Type := {
  (** [image.preview_url] *)
  preview_url : Image -> result value;
  (** [image.url], once [image.uri_prefix] has been set to the given uri *)
  image_url : string -> Image -> result value;
  (** [mask.to_urle()] *)
  to_urle : MaskDict -> result value;
  (** [format_bbox(coords, is_predicted, confidence)] *)
  format_bbox : list pyfloat -> bool -> option pyfloat -> result value;
  (** [iter(x)] for [x] an image or an annotation *)
  iter_model : value -> result (list value)
}.

(** [ItemFeature(name, dtype, value)]. *)
Record ItemFeature : Type := mkFeature {
  feat_name : string;
  dtype : string;
  feat_value : value
}.

(** [pa.types.is_string(t)]. *)
Definition is_string (t : DataType) : bool :=
  match t with pa_string => true | _ => false end.

(** The rows of a table as [to_pylist] gives them: for every row the
    dictionary of its cells by field name (of two fields of one name the
    later one stays). *)
Definition row_dict (sch : list Field) (cols : list (list value)) (i : nat)
  : option (gmap string value) :=
  foldl (fun om fc => m ← om; v ← snd fc !! i; Some (<[fname (fst fc) := v]> m))
        (Some ∅) (zip sch cols).

Definition to_pylist (t : Table) : list (gmap string value) :=
  omap (row_dict (schema t) (columns t)) (seq 0 (num_rows t)).

(** [range(start, stop)]. *)
Definition py_range (start stop : Z) : list Z :=
  map (fun k => start + Z.of_nat k) (seq 0 (Z.to_nat (stop - start))).

(** [pa_ds.take(indices)]: the rows at the indices, in their order; an index
    that is not one of a row raises. *)
Definition take_index (n : nat) (i : Z) : result nat :=
  if (0 <=? i) && (i <? Z.of_nat n) then Ok (Z.to_nat i) else Err IndexError.

Definition take_rows (t : Table) (indices : list Z) : result Table :=
  order ← mapM (take_index (num_rows t)) indices;
  Ok (mkTable (schema t) (map (reorder order) (columns t))).

(** The page [create_page(items, total=total, params=params)] makes. *)
Record Page : Type := mkPage {
  page_items : list (list ItemFeature);
  page_total : nat
}.

(** [DatasetItem]: the details of one item. [itemObjects] is the
    [defaultdict] of the objects by source and by view. *)
Record DisplayedObject : Type := mkDisplayed {
  shown_id : string;
  shown_mask : option value;
  shown_bbox : option value;
  shown_category : option (Z * string)
}.

Record ItemDetails : Type := mkDetails {
  item_id_cell : value;
  item_views : list (string * value);
  item_features : list ItemFeature;
  itemObjects : gmap string (gmap string (list DisplayedObject))
}.

(** [itemObjects[source][view].append(o)] on the [defaultdict]. *)
Definition add_object (source view : string) (o : DisplayedObject)
    (groups : gmap string (gmap string (list DisplayedObject)))
  : gmap string (gmap string (list DisplayedObject)) :=
  let views := default ∅ (groups !! source) in
  let objs := default [] (views !! view) in
  <[source := <[view := objs ++ [o]]> views]> groups.

(** The objects listed under a source and a view ([[]] when there is
    none). *)
Definition objects_of (groups : gmap string (gmap string (list DisplayedObject)))
    (source view : string) : list DisplayedObject :=
  default [] (default ∅ (groups !! source) !! view).

(** [source = obj.mask_source or obj.bbox_source or "Ground truth"], a
    string. *)
Definition source_of (obj : ObjectAnnotation) : string :=
  default "Ground truth" (object_source obj).

Section Readers.
Context `{PixanoCore} `{ExplorerCore} `{PixanoArrow}.

(** One turn of the loop of [_create_features] (lines 73-89). *)
Definition feature_of (item : gmap string value) (field : Field)
  : result (list ItemFeature) :=
  (* Number fields *)
  if is_number (ftype field) then
    v ← get_cell item (fname field);
    Ok [mkFeature (fname field) "number" v]
  (* Image fields *)
  else if is_image_type (ftype field) then
    v ← get_cell item (fname field);
    thumbnail ← match v with
                | VImage im => preview_url im
                | _ => Err (AttributeError "preview_url")
                end;
    Ok [mkFeature (fname field) "image" thumbnail]
  (* String fields *)
  else if is_string (ftype field) then
    v ← get_cell item (fname field);
    Ok [mkFeature (fname field) "text" v]
  else Ok [].

(** [_create_features(item, schema)]. *)
Fixpoint _create_features (item : gmap string value) (schema : list Field)
  : result (list ItemFeature) :=
  match schema with
  | [] => Ok []
  | field :: rest =>
      fs ← feature_of item field;
      more ← _create_features item rest;
      Ok (fs ++ more)
  end.

(** [load_items(dataset, params)], on the table [pa_ds] that
    [dataset.load()] gives and the [offset] and [limit] of the raw
    parameters: [None] or the page. *)
Definition load_items (pa_ds : Table) (offset limit : Z) : result (option Page) :=
  let total := Z.of_nat (num_rows pa_ds) in
  (* Get page items *)
  let start := offset in
  let stop := Z.min (offset + limit) total in
  if stop <=? start then Ok None
  else
    items_table ← take_rows pa_ds (py_range start stop);
    (* Create items features *)
    items ← mapM (fun item => _create_features item (schema pa_ds))
                 (to_pylist items_table);
    Ok (Some (mkPage items (num_rows pa_ds))).

(** [scanner(filter=ds.field("id").isin([item_id])).to_table().to_pylist()[0]]:
    the first row of the item, [IndexError] when it has none. *)
Definition find_item (pa_ds : Table) (item_id : string)
  : result (gmap string value) :=
  ids ← id_column pa_ds;
  let found := map (is_item item_id) ids in
  match first_row (schema pa_ds) (map (filter_rows found) (columns pa_ds)) with
  | Some item => Ok item
  | None => Err IndexError
  end.

(** What [objects.extend(cell)] walks through. *)
Definition iter_value (v : value) : result (list value) :=
  match v with
  | VList l => Ok l
  | VStr s =>
      Ok (map (fun a => VStr (String a EmptyString)) (String.list_ascii_of_string s))
  | VBytes b => Ok (map (fun x => VInt (Z.of_N (Byte.to_N x))) b)
  | VDict d => Ok (map (fun kv => VStr (fst kv)) d)
  | VImage _ | VObject _ => iter_model v
  | VNone | VBool _ | VInt _ | VFloat _ => Err (TypeError "object is not iterable")
  end.

(** The loop of lines 151-153 and 161-165: the cells of the annotation
    columns of the row, one after the other. *)
Fixpoint gather_objects (item : gmap string value) (sch : list Field)
  : result (list value) :=
  match sch with
  | [] => Ok []
  | field :: rest =>
      here ← (if String.eqb (fname field) "objects"
                 || is_list_of_object_annotation_type (ftype field)
              then cell ← get_cell item (fname field); iter_value cell
              else Ok []);
      more ← gather_objects item rest;
      Ok (here ++ more)
  end.

(** The loop of lines 156-165 over the inference datasets; the row of the
    item is a dictionary, never [None]. *)
Fixpoint gather_inferences (item_id : string) (inf_datasets : list Table)
  : result (list value) :=
  match inf_datasets with
  | [] => Ok []
  | pa_inf_ds :: rest =>
      inf_item ← find_item pa_inf_ds item_id;
      here ← gather_objects inf_item (schema pa_inf_ds);
      more ← gather_inferences item_id rest;
      Ok (here ++ more)
  end.

(** Lines 187-192: an object of a previous annotation type is a dictionary,
    its bounding box a list of coordinates. The assignment to [obj["bbox"]]
    changes the dictionary in place; done again on the changed dictionary it
    changes nothing, so that the object read at a later view is the same. *)
Definition as_annotation (obj : value) : result ObjectAnnotation :=
  match obj with
  | VDict d =>
      b ← dict_get d "bbox";
      let d1 := match b with
                | VList _ => dict_set d "bbox" (VDict [("coords", b); ("format", VStr "xywh")])
                | _ => d
                end in
      annotation_from_dict d1
  | VObject a => Ok a
  | _ => Err (AttributeError "view_id")
  end.

(** Lines 195-225: what is shown of an object. *)
Definition displayed (obj : ObjectAnnotation) : result DisplayedObject :=
  (* Object mask *)
  mask ← match mask obj with
         | Some m => u ← to_urle m; Ok (Some u)
         | None => Ok None
         end;
  (* Object bounding box *)
  bbox ← match bbox obj with
         | Some b =>
             if negb (float_list_eq (coords b) zero_coords)
             then
               fb ← format_bbox (coords b)
                                (match bbox_confidence obj with Some _ => true | None => false end)
                                (bbox_confidence obj);
               Ok (Some fb)
             else Ok None
         | None => Ok None
         end;
  (* Object category *)
  let category :=
    match category_id obj, category_name obj with
    | Some i, Some n => Some (i, n)
    | _, _ => None
    end in
  Ok (mkDisplayed (id obj) mask bbox category).

(** One turn of [for obj in objects] at the view [view]. *)
Definition show_object (view : string) (obj : value)
    (groups : gmap string (gmap string (list DisplayedObject)))
  : result (gmap string (gmap string (list DisplayedObject))) :=
  ann ← as_annotation obj;
  (* If object in view *)
  if String.eqb (view_id ann) view then
    o ← displayed ann;
    Ok (add_object (source_of ann) view o groups)
  else Ok groups.

Fixpoint show_objects (view : string) (objects : list value)
    (groups : gmap string (gmap string (list DisplayedObject)))
  : result (gmap string (gmap string (list DisplayedObject))) :=
  match objects with
  | [] => Ok groups
  | obj :: rest => groups' ← show_object view obj groups; show_objects view rest groups'
  end.

(** The loop over the views (lines 177-226); [uri_prefix] is
    [media_dir.absolute().as_uri()]. *)
Fixpoint show_views (uri_prefix : string) (item : gmap string value)
    (objects : list value) (sch : list Field)
    (st : list (string * value) * gmap string (gmap string (list DisplayedObject)))
  : result (list (string * value) * gmap string (gmap string (list DisplayedObject))) :=
  match sch with
  | [] => Ok st
  | field :: rest =>
      if is_image_type (ftype field) then
        image ← get_cell item (fname field);
        url ← match image with
               | VImage im => image_url uri_prefix im
               | _ => Err (AttributeError "uri_prefix")
               end;
        groups ← show_objects (fname field) objects (snd st);
        show_views uri_prefix item objects rest
                   (fst st ++ [(fname field, url)], groups)
      else show_views uri_prefix item objects rest st
  end.

(** [load_item_details(dataset, item_id, media_dir, inf_datasets)], on the
    tables the datasets load. *)
Definition load_item_details (pa_ds : Table) (item_id : string)
    (uri_prefix : string) (inf_datasets : list Table) : result ItemDetails :=
  (* Get item *)
  item ← find_item pa_ds item_id;
  objects ← gather_objects item (schema pa_ds);
  (* Get item inference objects *)
  inf_objects ← gather_inferences item_id inf_datasets;
  let objects := objects ++ inf_objects in
  (* Create features *)
  id_cell ← get_cell item "id";
  features ← _create_features item (schema pa_ds);
  (* Iterate on view *)
  st ← show_views uri_prefix item objects (schema pa_ds) ([], ∅);
  Ok (mkDetails id_cell (fst st) features (snd st)).

(** [load_item_embedding(emb_ds, item_id, view)]. *)
Definition load_item_embedding (pa_emb_ds : Table) (item_id view : string)
  : result value :=
  emb_item ← find_item pa_emb_ds item_id;
  get_cell emb_item (view +:+ "_embedding").

End Readers.

End Explorer.

(** ** The readers on the scenario *)

Module ReaderScenario.
Import Geometry Core Arrow Items Explorer Reference Scenario.

(** An implementation of the interface of the readers, to run them on the
    scenario: the url of an image is its uri after the prefix and the
    preview url is the preview itself; a mask is shown as its dictionary
    and a box as the list of its coordinates; images and annotations are
    not walked through. *)
#[export] Instance reader_core : ExplorerCore := {|
  preview_url := fun im => Ok (of_opt VBytes (preview_bytes im));
  image_url := fun uri_prefix im => Ok (VStr (uri_prefix +:+ "/" +:+ uri im));
  to_urle := fun m => Ok (VDict (mask_to_dict m));
  format_bbox := fun c _ _ => Ok (floats_value c);
  iter_model := fun _ => Err (TypeError "object is not iterable")
|}.

(** The second shard as the call for [img_7] leaves it. *)
Definition saved_shard_1 : Table :=
  match read_table (files (fst (saved (Some empty_bbox))))
                   "/data/ds/db/train/shard_1.parquet" with
  | Ok t => t
  | Err _ => shard_1
  end.

End ReaderScenario.

(* ================================================================== *)
(** * Theorems *)
(* ================================================================== *)

Module ResultFacts.

Lemma mapM_length {A B : Type} (f : A -> result B) (l : list A) (l' : list B) :
  mapM f l = Ok l' -> length l' = length l.
Proof.
  revert l'. induction l as [|x l IH]; intros l'; simpl.
  - intros [= <-]. reflexivity.
  - destruct (f x); simpl; [|discriminate].
    destruct (mapM f l); simpl; [|discriminate].
    intros [= <-]. simpl. f_equal. apply IH. reflexivity.
Qed.

Lemma mapM_Forall2 {A B : Type} (f : A -> result B) (l : list A) (l' : list B) :
  mapM f l = Ok l' -> Forall2 (fun x y => f x = Ok y) l l'.
Proof.
  revert l'. induction l as [|x l IH]; intros l'; simpl.
  - intros [= <-]. constructor.
  - destruct (f x) eqn:E; simpl; [|discriminate].
    destruct (mapM f l); simpl; [|discriminate].
    intros [= <-]. constructor; [exact E | apply IH; reflexivity].
Qed.

Lemma mapM_ext {A B : Type} (f g : A -> result B) (l : list A) :
  (forall x, x ∈ l -> f x = g x) -> mapM f l = mapM g l.
Proof.
  induction l as [|x l IH]; intros H; simpl; [reflexivity|].
  rewrite (H x) by left. rewrite IH; [reflexivity|].
  intros y Hy. apply H. right. exact Hy.
Qed.

(** A map that returns its argument whenever it returns leaves the list as
    it is. *)
Lemma mapM_id {A : Type} (f : A -> result A) (l l' : list A) :
  (forall x y, f x = Ok y -> y = x) -> mapM f l = Ok l' -> l' = l.
Proof.
  intros Hf. revert l'. induction l as [|x l IH]; intros l'; simpl.
  - intros [= <-]. reflexivity.
  - destruct (f x) eqn:E; simpl; [|discriminate].
    destruct (mapM f l); simpl; [|discriminate].
    intros [= <-]. f_equal; [apply Hf, E | apply IH; reflexivity].
Qed.

Lemma mapM_lookup {A B : Type} (f : A -> result B) (l : list A) (l' : list B)
    (i : nat) (x : A) :
  mapM f l = Ok l' -> l !! i = Some x -> exists y, l' !! i = Some y /\ f x = Ok y.
Proof.
  intros H Hx. apply mapM_Forall2 in H.
  destruct (Forall2_lookup_l _ _ _ _ _ H Hx) as (y & Hy & Hf). eauto.
Qed.

Lemma mapM_fst_zip {A B C : Type} (f : A -> result C) (l : list A) (k : list B) :
  length l = length k -> mapM (fun p => f (fst p)) (zip l k) = mapM f l.
Proof.
  revert k. induction l as [|x l IH]; intros [|y k]; simpl; try discriminate;
    [reflexivity|].
  intros [= Hlen]. rewrite IH by exact Hlen. reflexivity.
Qed.

Lemma existsb_map_id {A : Type} (p : A -> bool) (l : list A) :
  existsb (fun b => b) (map p l) = existsb p l.
Proof.
  induction l as [|x l IH]; simpl; [reflexivity|]. rewrite IH. reflexivity.
Qed.

End ResultFacts.

Module GeometryFacts.
Import Geometry.



(** C6 (as amended): a box in xywh format goes through [to_xyxy] and
    [to_xywh] to a box in xywh format with the same [is_normalized] flag, no
    confidence, and the width and height recomputed as (x+w)-x and (y+h)-y;
    it is the box one started from when that box has no confidence and the
    two float computations give back w and h. *)
Theorem to_xywh_to_xyxy (b : BBox) (x y w h : pyfloat) :
  coords b = [x; y; w; h] ->
  format b = "xywh" ->
  (to_xyxy b ≫= to_xywh) =
    Ok (mkBBox [x; y; (x + w - x)%float; (y + h - y)%float] "xywh"
               (is_normalized b) None)
  /\ (confidence b = None ->
      (x + w - x)%float = w -> (y + h - y)%float = h ->
      (to_xyxy b ≫= to_xywh) = Ok b).
Proof.
  intros Hc Hf. destruct b as [c f n conf]. simpl in *. subst c f.
  split.
  - reflexivity.
  - intros -> Hw Hh. unfold to_xyxy, to_xywh, xyxy_coords, xywh_coords. simpl.
    rewrite Hw, Hh. reflexivity.
Qed.

Lemma to_xywh_to_xyxy_witness :
  (to_xyxy (mkBBox [1%float; 2%float; 3%float; 4%float] "xywh" (Some false) None)
     ≫= to_xywh) =
    Ok (mkBBox [1%float; 2%float; 3%float; 4%float] "xywh" (Some false) None).
Proof.
  apply (proj2 (to_xywh_to_xyxy
                  (mkBBox [1%float; 2%float; 3%float; 4%float] "xywh" (Some false) None)
                  1%float 2%float 3%float 4%float eq_refl eq_refl));
    reflexivity.
Defined.

(** C6 (as stated) fails in three ways: the confidence of a predicted box is
    lost, a box in xyxy format comes back in xywh format, and a width that
    is small next to x is rounded away. *)
Lemma to_xywh_to_xyxy_not_identity :
  (to_xyxy (mkBBox [1%float; 2%float; 3%float; 4%float] "xywh" (Some true) (Some 0.5%float))
     ≫= to_xywh)
    = Ok (mkBBox [1%float; 2%float; 3%float; 4%float] "xywh" (Some true) None)
  /\ (to_xyxy (mkBBox [1%float; 2%float; 4%float; 6%float] "xyxy" (Some true) None)
        ≫= to_xywh)
    = Ok (mkBBox [1%float; 2%float; 3%float; 4%float] "xywh" (Some true) None)
  /\ (to_xyxy (mkBBox [1e16%float; 0%float; 1%float; 1%float] "xywh" (Some false) None)
        ≫= to_xywh)
    = Ok (mkBBox [1e16%float; 0%float; 0%float; 1%float] "xywh" (Some false) None).
Proof.
  repeat split; vm_compute; reflexivity.
Qed.

End GeometryFacts.

Module CoreFacts.
Import Geometry Core.

(** C8 (as amended): the displayed source of an annotation is its
    [mask_source] when that is present and not the empty string, otherwise
    its [bbox_source] when that is present and not the empty string,
    otherwise "Ground truth". *)
Theorem object_source_rule (obj : ObjectAnnotation) :
  object_source obj =
    match mask_source obj with
    | Some (String a s) => Some (String a s)
    | _ =>
        match bbox_source obj with
        | Some (String a s) => Some (String a s)
        | _ => Some "Ground truth"
        end
    end.
Proof.
  unfold object_source, py_or, truthy.
  destruct (mask_source obj) as [[|a s]|]; simpl;
    destruct (bbox_source obj) as [[|b t]|]; reflexivity.
Qed.

(** C8 (as stated) fails: a [mask_source] that is present but empty, as the
    support for previous annotation types writes it, is passed over. *)
Lemma empty_mask_source_is_skipped :
  let obj := mkAnn "obj_1" "image" None (Some "model_a") None None None None None
                   (Some "") None None None None None in
  mask_source obj = Some ""
  /\ object_source obj = Some "model_a"
  /\ object_source obj <> mask_source obj.
Proof.
  repeat split. discriminate.
Qed.

End CoreFacts.

Module StatsFacts.
Import Stats.

Lemma keep_other_names_filter (n : string) (stats : list json) :
  Forall (fun stat => exists o v, stat = JObj o /\ obj_get o "name" = Some v) stats ->
  keep_other_names n stats = Ok (List.filter (other_name n) stats).
Proof.
  induction 1 as [|stat stats (o & v & -> & Hv) _ IH]; simpl.
  - reflexivity.
  - unfold other_name at 1. simpl. rewrite Hv. simpl. rewrite IH. simpl.
    destruct (name_differs v n); reflexivity.
Qed.

(** What [to_json] does to a statistics file that holds an array of named
    records: the records of other names are kept as they are, in their
    order, and one record of the three keys [name], [type] and [histogram]
    is put at the end; the file is rewritten as a whole. *)
Lemma to_json_upsert (self : DatasetStat) (json_fp : string) (fs : json_files)
    (stats : list json) :
  fs !! json_fp = Some (JArr stats) ->
  Forall (fun stat => exists o v, stat = JObj o /\ obj_get o "name" = Some v) stats ->
  to_json self json_fp fs =
    Ok (<[json_fp := JArr (List.filter (other_name (name self)) stats
                           ++ [stat_record self])]> fs).
Proof.
  intros Hfs Hstats. unfold to_json. rewrite Hfs. simpl.
  rewrite (keep_other_names_filter _ _ Hstats). reflexivity.
Qed.

(** A file that does not exist is created with the one record. *)
Lemma to_json_new_file (self : DatasetStat) (json_fp : string) (fs : json_files) :
  fs !! json_fp = None ->
  to_json self json_fp fs = Ok (<[json_fp := JArr [stat_record self]]> fs).
Proof.
  intros Hfs. unfold to_json. rewrite Hfs. reflexivity.
Qed.

(** C9 on the code: writing a statistic that has a range over a file that
    holds a record of the same name with a range leaves a record without any
    range, which is not the full record of the statistic; the record of
    another name is kept. *)
Theorem to_json_drops_range :
  to_json new_area_stat "stats.json" {[ "stats.json" := JArr [area_record; split_record] ]}
  = Ok {[ "stats.json" :=
            JArr [split_record;
                  JObj [("name", JStr "area"); ("type", JStr "numerical");
                        ("histogram",
                         JArr [JObj [("bin_start", JInt 0); ("counts", JInt 4)]])]] ]}
  /\ range new_area_stat = Some [JInt 0; JInt 20]
  /\ stat_record new_area_stat <> full_record new_area_stat.
Proof.
  split; [|split].
  - rewrite (to_json_upsert new_area_stat "stats.json" _ [area_record; split_record]).
    + reflexivity.
    + apply (lookup_singleton_eq (M := gmap string)).
    + repeat constructor; eexists _, _; (split; [reflexivity|]); reflexivity.
  - reflexivity.
  - discriminate.
Qed.

End StatsFacts.

Module ArrowFacts.
Import Geometry Core Arrow.

Lemma field_type_app (l1 l2 : list (string * DataType)) (n : string) :
  field_type (l1 ++ l2) n =
    match field_type l1 n with
    | Some t => Some t
    | None => field_type l2 n
    end.
Proof.
  induction l1 as [|[k t] l1 IH]; simpl; [reflexivity|].
  destruct (String.eqb k n); [reflexivity | exact IH].
Qed.

Lemma has_field_app (l1 l2 : list (string * DataType)) (n : string) :
  has_field (l1 ++ l2) n = has_field l1 n || has_field l2 n.
Proof.
  unfold has_field. rewrite field_type_app.
  destruct (field_type l1 n); reflexivity.
Qed.

Lemma has_field_filter (keep : string -> bool) (l : list (string * DataType))
    (n : string) :
  has_field (List.filter (fun f => keep (fst f)) l) n = keep n && has_field l n.
Proof.
  unfold has_field. induction l as [|[k t] l IH]; simpl.
  - destruct (keep n); reflexivity.
  - destruct (keep k) eqn:Ek; simpl.
    + destruct (String.eqb k n) eqn:E.
      * apply String.eqb_eq in E as ->. rewrite Ek. reflexivity.
      * exact IH.
    + destruct (String.eqb k n) eqn:E.
      * apply String.eqb_eq in E as ->. rewrite Ek. simpl.
        rewrite IH, Ek. reflexivity.
      * exact IH.
Qed.

(** Merging keeps the names of the first struct. *)
Lemma merge_fields_names (u : DataType -> DataType -> result DataType)
    (fa fb merged : list (string * DataType)) (n : string) :
  merge_fields u fa fb = Ok merged -> has_field merged n = has_field fa n.
Proof.
  revert merged. induction fa as [|[k t] fa IH]; intros merged; simpl.
  - intros [= <-]. reflexivity.
  - destruct (match field_type fb k with Some x => u t x | None => Ok t end)
      as [t'|]; simpl; [|discriminate].
    destruct (merge_fields u fa fb) as [rest|]; simpl; [|discriminate].
    intros [= <-]. unfold has_field in *. simpl.
    destruct (String.eqb k n); [reflexivity|]. apply IH. reflexivity.
Qed.

(** The fields of the common type of two structs are those of either. *)
Lemma unify_struct_fields (fa fb fc : list (string * DataType)) (n : string) :
  unify (pa_struct fa) (pa_struct fb) = Ok (pa_struct fc) ->
  has_field fc n = has_field fa n || has_field fb n.
Proof.
  simpl. destruct (merge_fields unify fa fb) as [merged|] eqn:E; simpl; [|discriminate].
  intros [= <-]. rewrite has_field_app, (merge_fields_names _ _ _ _ _ E).
  rewrite (has_field_filter (fun k => negb (has_field fa k))).
  destruct (has_field fa n), (has_field fb n); reflexivity.
Qed.

(** A struct is the common type of structs and nulls only. *)
Lemma unify_struct_inv (a b : DataType) (fc : list (string * DataType)) :
  unify a b = Ok (pa_struct fc) ->
  (a = pa_null /\ b = pa_struct fc)
  \/ (a = pa_struct fc /\ b = pa_null)
  \/ (exists fa fb, a = pa_struct fa /\ b = pa_struct fb).
Proof.
  destruct a, b; simpl; intros Hu; try discriminate;
    try (injection Hu as <-); eauto 6;
    try (destruct (unify a b); discriminate).
Qed.

Lemma unify_null_inv (a b : DataType) :
  unify a b = Ok pa_null -> a = pa_null /\ b = pa_null.
Proof.
  destruct a, b; simpl; intros Hu; try discriminate; eauto;
    try (destruct (unify a b); discriminate);
    try (destruct (merge_fields unify fields fields0); discriminate).
Qed.

Lemma infer_entries_names (d : pydict) (fs : list (string * DataType)) (n : string) :
  infer_entries infer_type d = Ok fs -> has_field fs n = is_ok (dict_get d n).
Proof.
  revert fs. induction d as [|[k v] d IH]; intros fs; simpl.
  - intros [= <-]. reflexivity.
  - destruct (infer_type v) as [tv|]; simpl; [|discriminate].
    destruct (infer_entries infer_type d) as [rest|]; simpl; [|discriminate].
    intros [= <-]. unfold has_field in *. simpl.
    destruct (String.eqb k n); [reflexivity|]. apply IH. reflexivity.
Qed.

(** The type inferred for one row tells a dictionary by its keys, and is
    null for [None] only. *)
Lemma infer_type_struct (v : value) (fs : list (string * DataType)) (n : string) :
  infer_type v = Ok (pa_struct fs) -> has_field fs n = has_key n v.
Proof.
  destruct v as [| | | | | |l|d| |]; simpl; try discriminate.
  - destruct (infer_items infer_type l); discriminate.
  - destruct (infer_entries infer_type d) as [fs'|] eqn:E; simpl; [|discriminate].
    intros [= <-]. apply (infer_entries_names _ _ _ E).
Qed.

Lemma infer_type_null (v : value) (n : string) :
  infer_type v = Ok pa_null -> has_key n v = false.
Proof.
  destruct v as [| | | | | |l|d| |]; simpl; try discriminate; try reflexivity.
  destruct (infer_entries infer_type d); discriminate.
Qed.

(** The struct type inferred for a column has a field exactly when some row
    of the column is a dictionary with that key. *)
Lemma infer_types_fields (data : list value) (n : string) :
  (infer_types data = Ok pa_null -> existsb (has_key n) data = false)
  /\ (forall tfs, infer_types data = Ok (pa_struct tfs) ->
                  has_field tfs n = existsb (has_key n) data).
Proof.
  unfold infer_types. induction data as [|v data [IHnull IHstruct]]; simpl.
  - split; [reflexivity | discriminate].
  - destruct (infer_type v) as [tv|] eqn:Ev; simpl; [|split; [|intros ?]; discriminate].
    destruct (infer_items infer_type data) as [tl|] eqn:El; simpl;
      [|split; [|intros ?]; discriminate].
    split.
    + intros Hu. apply unify_null_inv in Hu as [-> ->].
      rewrite (infer_type_null _ _ Ev). simpl. apply IHnull. reflexivity.
    + intros tfs Hu.
      destruct (unify_struct_inv _ _ _ Hu) as [[-> ->] | [[-> ->] | (fa & fb & -> & ->)]].
      * rewrite (infer_type_null _ _ Ev). simpl. apply IHstruct. reflexivity.
      * rewrite (infer_type_struct _ _ _ Ev), IHnull by reflexivity.
        symmetry. apply orb_false_r.
      * rewrite (unify_struct_fields _ _ _ _ Hu), (infer_type_struct _ _ _ Ev).
        f_equal. apply IHstruct. reflexivity.
Qed.

(** The loop over the declared fields is a map of independent conversions,
    each of the column projected under the name of its field. *)
Lemma convert_subfields_mapM (field_name : string)
    (tfs fs : list (string * DataType)) (data : list value) :
  convert_subfields convert_field field_name (mkArray (pa_struct tfs) data) fs =
    mapM (fun f => col ← projected_column tfs (fst f) data;
                   convert_field (field_name +:+ "." +:+ fst f) (snd f) col) fs.
Proof.
  induction fs as [|[n t] fs IH]; simpl; [reflexivity|].
  rewrite IH. unfold projected_column.
  destruct (field (mkArray (pa_struct tfs) data) n); reflexivity.
Qed.

Lemma mapM_err_elem {A B : Type} (f : A -> result B) (l : list A) (x : A) :
  x ∈ l -> is_ok (f x) = false -> is_ok (mapM f l) = false.
Proof.
  induction 1 as [x l | x y l _ IH]; simpl; intros Hx.
  - destruct (f x); [discriminate | reflexivity].
  - destruct (f y); [|reflexivity]. simpl.
    specialize (IH Hx). destruct (mapM f l); [discriminate | reflexivity].
Qed.

(** C7 (as amended): when the rows of the input are dictionaries (or None)
    that PyArrow reads as a struct array, [convert_field] to a struct type
    converts, for every declared field, the column projected under the name
    of that field, each on its own, and puts the results together under the
    declared names. In the projected column a row that is a dictionary has
    its value under the name, None when it lacks the key that another row
    has; a row that is None has the empty value of the type inferred for the
    field (an empty string, a zero), not None. A declared field that no row
    has is not in the inferred struct: projecting it raises KeyError and the
    conversion fails instead of giving nulls. *)
Theorem convert_field_struct (field_name : string)
    (fields tfs : list (string * DataType)) (data : list value) :
  infer_types data = Ok (pa_struct tfs) ->
  convert_field field_name (pa_struct fields) data =
    (arrays ← mapM (fun f => col ← projected_column tfs (fst f) data;
                             convert_field (field_name +:+ "." +:+ fst f) (snd f) col)
                   fields;
     StructArray_from_arrays arrays fields)
  /\ (forall n, existsb (has_key n) data = true ->
        exists t col,
          field_type tfs n = Some t
          /\ projected_column tfs n data = Ok (to_numpy (mkArray t col))
          /\ length col = length data
          /\ (forall i d, data !! i = Some (VDict d) ->
                col !! i = Some (dict_value d n))
          /\ (forall i, data !! i = Some VNone ->
                col !! i = Some (empty_value t)))
  /\ (forall n, existsb (has_key n) data = false ->
        projected_column tfs n data = Err (KeyError n))
  /\ (forall f, f ∈ fields -> existsb (has_key (fst f)) data = false ->
        is_ok (convert_field field_name (pa_struct fields) data) = false).
Proof.
  intros Hinf.
  assert (Hconv : convert_field field_name (pa_struct fields) data =
    (arrays ← mapM (fun f => col ← projected_column tfs (fst f) data;
                             convert_field (field_name +:+ "." +:+ fst f) (snd f) col)
                   fields;
     StructArray_from_arrays arrays fields)).
  { simpl. unfold pa_array. rewrite Hinf. simpl.
    rewrite convert_subfields_mapM. reflexivity. }
  assert (Hnone : forall n, existsb (has_key n) data = false ->
            projected_column tfs n data = Err (KeyError n)).
  { intros n Hn. rewrite <- (proj2 (infer_types_fields data n) _ Hinf) in Hn.
    unfold has_field in Hn. unfold projected_column, field. simpl.
    destruct (field_type tfs n) as [t|]; [discriminate | reflexivity]. }
  split; [exact Hconv|]. split; [|split; [exact Hnone|]].
  - intros n Hn. rewrite <- (proj2 (infer_types_fields data n) _ Hinf) in Hn.
    unfold has_field in Hn. unfold projected_column, field. simpl.
    destruct (field_type tfs n) as [t|]; [|discriminate].
    exists t, (map (row_field t n) data).
    split; [reflexivity|]. split; [reflexivity|].
    split; [apply length_map|].
    split; intros i; [intros d|]; intros Hi;
      change (map (row_field t n) data) with (row_field t n <$> data);
      rewrite list_lookup_fmap, Hi; reflexivity.
  - intros f Hf Hn. rewrite Hconv.
    pose proof (mapM_err_elem
      (fun f => col ← projected_column tfs (fst f) data;
                convert_field (field_name +:+ "." +:+ fst f) (snd f) col)
      fields f Hf) as Herr.
    simpl in Herr. rewrite (Hnone _ Hn) in Herr. specialize (Herr eq_refl).
    destruct (mapM _ fields); [discriminate | reflexivity].
Qed.

(** Three rows read as a struct of two strings: the second lacks the key
    [score] and the third is None. *)
Lemma convert_field_struct_witness :
  convert_field "features"
    (pa_struct [("label", pa_string); ("score", pa_string)])
    [VDict [("label", VStr "cat"); ("score", VStr "high")];
     VDict [("label", VStr "dog")];
     VNone]
  = Ok (mkArray (pa_struct [("label", pa_string); ("score", pa_string)])
                [VDict [("label", VStr "cat"); ("score", VStr "high")];
                 VDict [("label", VStr "dog"); ("score", VNone)];
                 VDict [("label", VStr ""); ("score", VStr "")]]).
Proof.
  rewrite (proj1 (convert_field_struct "features"
                    [("label", pa_string); ("score", pa_string)]
                    [("label", pa_string); ("score", pa_string)]
                    [VDict [("label", VStr "cat"); ("score", VStr "high")];
                     VDict [("label", VStr "dog")];
                     VNone] eq_refl)).
  reflexivity.
Defined.

(** C7 (as stated) fails: a field that the target struct declares and that no
    row of the input has raises KeyError; it does not map to null. *)
Lemma absent_field_raises_KeyError :
  convert_field "features"
    (pa_struct [("label", pa_string); ("score", pa_string)])
    [VDict [("label", VStr "cat")]; VDict [("label", VStr "dog")]]
  = Err (KeyError "score").
Proof. reflexivity. Qed.

End ArrowFacts.

Module NaturalSortFacts.
Import NaturalSort ResultFacts.

(** *** Comparisons that make a strict total order *)

Section Lexicographic.
Context {A : Type} (cmp : A -> A -> comparison).
Hypothesis cmp_antisym : forall x y, cmp y x = CompOpp (cmp x y).
Hypothesis cmp_eq : forall x y, cmp x y = Eq -> x = y.
Hypothesis cmp_trans : forall x y z, cmp x y = Lt -> cmp y z = Lt -> cmp x z = Lt.

Lemma cmp_refl (x : A) : cmp x x = Eq.
Proof.
  pose proof (cmp_antisym x x) as H. destruct (cmp x x); simpl in H; congruence.
Qed.

Lemma lex_compare_antisym (l1 l2 : list A) :
  lex_compare cmp l2 l1 = CompOpp (lex_compare cmp l1 l2).
Proof.
  revert l2. induction l1 as [|x l1 IH]; intros [|y l2]; simpl; try reflexivity.
  rewrite (cmp_antisym x y). destruct (cmp x y); simpl; auto.
Qed.

Lemma lex_compare_eq (l1 l2 : list A) :
  lex_compare cmp l1 l2 = Eq -> l1 = l2.
Proof.
  revert l2. induction l1 as [|x l1 IH]; intros [|y l2]; simpl;
    try discriminate; try reflexivity.
  destruct (cmp x y) eqn:E; try discriminate.
  intros H. apply cmp_eq in E as ->. f_equal. auto.
Qed.

Lemma lex_compare_trans (l1 l2 l3 : list A) :
  lex_compare cmp l1 l2 = Lt -> lex_compare cmp l2 l3 = Lt ->
  lex_compare cmp l1 l3 = Lt.
Proof.
  revert l2 l3. induction l1 as [|x l1 IH]; intros [|y l2] [|z l3]; simpl;
    try discriminate; try reflexivity.
  destruct (cmp x y) eqn:Exy; try discriminate.
  - apply cmp_eq in Exy as ->. destruct (cmp y z); try discriminate; eauto.
  - intros _. destruct (cmp y z) eqn:Eyz; try discriminate.
    + apply cmp_eq in Eyz as ->. rewrite Exy. reflexivity.
    + rewrite (cmp_trans _ _ _ Exy Eyz). reflexivity.
Qed.

End Lexicographic.

Lemma ascii_compare_antisym (a b : ascii) :
  ascii_compare b a = CompOpp (ascii_compare a b).
Proof. apply N.compare_antisym. Qed.

Lemma ascii_compare_eq (a b : ascii) : ascii_compare a b = Eq -> a = b.
Proof.
  unfold ascii_compare. intros H. apply N.compare_eq in H.
  rewrite <- (ascii_N_embedding a), <- (ascii_N_embedding b), H. reflexivity.
Qed.

Lemma ascii_compare_trans (a b c : ascii) :
  ascii_compare a b = Lt -> ascii_compare b c = Lt -> ascii_compare a c = Lt.
Proof.
  unfold ascii_compare. rewrite !N.compare_lt_iff. apply N.lt_trans.
Qed.

Lemma str_compare_antisym (s1 s2 : string) :
  str_compare s2 s1 = CompOpp (str_compare s1 s2).
Proof. apply lex_compare_antisym, ascii_compare_antisym. Qed.

Lemma str_compare_eq (s1 s2 : string) : str_compare s1 s2 = Eq -> s1 = s2.
Proof.
  intros H. apply (lex_compare_eq _ ascii_compare_eq) in H.
  rewrite <- (string_of_list_ascii_of_string s1),
          <- (string_of_list_ascii_of_string s2), H.
  reflexivity.
Qed.

Lemma str_compare_trans (s1 s2 s3 : string) :
  str_compare s1 s2 = Lt -> str_compare s2 s3 = Lt -> str_compare s1 s3 = Lt.
Proof.
  apply (lex_compare_trans _ ascii_compare_eq ascii_compare_trans).
Qed.

Lemma token_compare_antisym (a b : token) :
  token_compare b a = CompOpp (token_compare a b).
Proof.
  destruct a, b; simpl; try reflexivity.
  - apply str_compare_antisym.
  - apply N.compare_antisym.
Qed.

Lemma token_compare_eq (a b : token) : token_compare a b = Eq -> a = b.
Proof.
  destruct a, b; simpl; try discriminate; intros H.
  - f_equal. apply str_compare_eq, H.
  - f_equal. apply N.compare_eq, H.
Qed.

Lemma token_compare_trans (a b c : token) :
  token_compare a b = Lt -> token_compare b c = Lt -> token_compare a c = Lt.
Proof.
  destruct a, b, c; simpl; try discriminate; try reflexivity.
  - apply str_compare_trans.
  - rewrite !N.compare_lt_iff. apply N.lt_trans.
Qed.

(** [<] on keys is asymmetric and its negation is transitive: the keys are
    totally preordered. *)
Lemma key_lt_asym (k1 k2 : list token) : key_lt k1 k2 = true -> key_lt k2 k1 = false.
Proof.
  unfold key_lt, key_compare.
  rewrite (lex_compare_antisym _ token_compare_antisym k1 k2).
  destruct (lex_compare token_compare k1 k2); simpl; congruence.
Qed.

Lemma key_le_trans (k1 k2 k3 : list token) :
  key_le k1 k2 -> key_le k2 k3 -> key_le k1 k3.
Proof.
  unfold key_le, key_lt, key_compare.
  rewrite (lex_compare_antisym _ token_compare_antisym k1 k2).
  rewrite (lex_compare_antisym _ token_compare_antisym k2 k3).
  rewrite (lex_compare_antisym _ token_compare_antisym k1 k3).
  destruct (lex_compare token_compare k1 k2) eqn:E12; simpl; try discriminate;
    intros _.
  - apply (lex_compare_eq _ token_compare_eq) in E12 as ->. auto.
  - destruct (lex_compare token_compare k2 k3) eqn:E23; simpl; try discriminate;
      intros _.
    + apply (lex_compare_eq _ token_compare_eq) in E23 as ->.
      rewrite E12. reflexivity.
    + rewrite (lex_compare_trans _ token_compare_eq token_compare_trans
                                 _ _ _ E12 E23).
      reflexivity.
Qed.

(** The example of section 6. *)
Example item2_before_item10 :
  key_lt (natural_key "item2") (natural_key "item10") = true
  /\ key_lt (natural_key "item10") (natural_key "item2") = false.
Proof. split; reflexivity. Qed.

(** *** The stable sort *)

Section SortKeyed.
Context {A K : Type} (lt : K -> K -> bool).

Lemma insert_keyed_perm (x : K * A) (l : list (K * A)) :
  insert_keyed lt x l ≡ₚ x :: l.
Proof.
  induction l as [|y l IH]; simpl; [reflexivity|].
  destruct (lt (fst y) (fst x)); [|reflexivity].
  rewrite IH. apply Permutation_swap.
Qed.

Lemma sort_keyed_perm (l : list (K * A)) : sort_keyed lt l ≡ₚ l.
Proof.
  induction l as [|x l IH]; simpl; [reflexivity|].
  unfold sort_keyed in *. simpl. rewrite insert_keyed_perm, IH. reflexivity.
Qed.

Lemma sort_keyed_length (l : list (K * A)) : length (sort_keyed lt l) = length l.
Proof. apply Permutation_length, sort_keyed_perm. Qed.

Hypothesis lt_asym : forall a b, lt a b = true -> lt b a = false.
Hypothesis le_trans :
  forall a b c, lt b a = false -> lt c b = false -> lt c a = false.

Lemma insert_keyed_sorted (x : K * A) (l : list (K * A)) :
  StronglySorted (fun p q => lt (fst q) (fst p) = false) l ->
  StronglySorted (fun p q => lt (fst q) (fst p) = false) (insert_keyed lt x l).
Proof.
  induction 1 as [|y l Hs IH Hy]; simpl.
  - repeat constructor.
  - destruct (lt (fst y) (fst x)) eqn:E.
    + constructor; [exact IH|].
      rewrite insert_keyed_perm. constructor; [|exact Hy].
      apply lt_asym, E.
    + constructor; [constructor; assumption|].
      constructor; [exact E|].
      eapply Forall_impl; [exact Hy|]. intros z Hz. simpl in Hz.
      eapply le_trans; eassumption.
Qed.

Lemma sort_keyed_sorted (l : list (K * A)) :
  StronglySorted (fun p q => lt (fst q) (fst p) = false) (sort_keyed lt l).
Proof.
  induction l as [|x l IH]; simpl; [constructor|].
  apply insert_keyed_sorted, IH.
Qed.

End SortKeyed.

(** What the elements carry besides their keys does not bear on the order:
    sorting commutes with a map over it. *)
Lemma sort_keyed_map {A B K : Type} (lt : K -> K -> bool) (f : A -> B)
    (l : list (K * A)) :
  sort_keyed lt (map (fun p => (fst p, f (snd p))) l) =
    map (fun p => (fst p, f (snd p))) (sort_keyed lt l).
Proof.
  induction l as [|x l IH]; simpl; [reflexivity|].
  unfold sort_keyed in *. simpl. rewrite IH.
  generalize (foldr (insert_keyed lt) [] l). clear IH. intros s.
  induction s as [|y s IHs]; simpl; [reflexivity|].
  destruct (lt (fst y) (fst x)); simpl; [|reflexivity].
  rewrite IHs. reflexivity.
Qed.

(** *** The order of a sort on keys *)

Lemma reorder_map {A B : Type} (f : A -> B) (order : list nat) (l : list A) :
  map f (reorder order l) = reorder order (map f l).
Proof.
  unfold reorder. induction order as [|i order IH]; simpl; [reflexivity|].
  change (map f l !! i) with ((f <$> l) !! i). rewrite list_lookup_fmap.
  destruct (l !! i); simpl; [f_equal|]; exact IH.
Qed.

Lemma reorder_length {A : Type} (order : list nat) (l : list A) :
  Forall (fun i => (i < length l)%nat) order ->
  length (reorder order l) = length order.
Proof.
  unfold reorder. induction 1 as [|i order Hi _ IH]; simpl; [reflexivity|].
  apply lookup_lt_is_Some in Hi as [x ->]. simpl. f_equal. exact IH.
Qed.

Lemma zip_map_snd {K B C : Type} (ks : list K) (ps : list (B * C)) :
  zip ks (map snd ps) = map (fun p => (fst p, snd (snd p))) (zip ks ps).
Proof.
  revert ps. induction ks as [|k ks IH]; intros [|p ps]; simpl; try reflexivity.
  f_equal. apply IH.
Qed.

Lemma zip_map_fst {K B C : Type} (ks : list K) (ps : list (B * C)) :
  zip ks (map fst ps) = map (fun p => (fst p, fst (snd p))) (zip ks ps).
Proof.
  revert ps. induction ks as [|k ks IH]; intros [|p ps]; simpl; try reflexivity.
  f_equal. apply IH.
Qed.

Lemma sort_order_perm (keys : list (list token)) :
  sort_order keys ≡ₚ seq 0 (length keys).
Proof.
  unfold sort_order. rewrite sort_keyed_perm.
  change (map snd (zip keys (seq 0 (length keys))))
    with ((zip keys (seq 0 (length keys))).*2).
  rewrite snd_zip; [reflexivity|]. rewrite length_seq. reflexivity.
Qed.

Lemma sort_order_bound (keys : list (list token)) :
  Forall (fun i => (i < length keys)%nat) (sort_order keys).
Proof.
  rewrite sort_order_perm. apply Forall_forall. intros i Hi.
  apply elem_of_seq in Hi. lia.
Qed.

(** Sorting rows on their keys puts them in the order of the keys: every
    column sorted on the same keys is reordered in the same way. *)
Lemma sort_keyed_reorder {A : Type} (keys : list (list token)) (xs : list A) :
  length xs = length keys ->
  map snd (sort_keyed key_lt (zip keys xs)) = reorder (sort_order keys) xs.
Proof.
  intros Hlen. set (idx := seq 0 (length keys)).
  assert (Hidx : length idx = length xs) by (unfold idx; rewrite length_seq; lia).
  set (P := sort_keyed key_lt (zip keys (zip idx xs))).
  assert (Hxs : zip keys xs = map (fun p => (fst p, snd (snd p))) (zip keys (zip idx xs))).
  { rewrite <- zip_map_snd. f_equal.
    change (map snd (zip idx xs)) with ((zip idx xs).*2).
    rewrite snd_zip; [reflexivity | lia]. }
  assert (Hix : zip keys idx = map (fun p => (fst p, fst (snd p))) (zip keys (zip idx xs))).
  { rewrite <- zip_map_fst. f_equal.
    change (map fst (zip idx xs)) with ((zip idx xs).*1).
    rewrite fst_zip; [reflexivity | lia]. }
  unfold sort_order. fold idx. rewrite Hxs, Hix, !sort_keyed_map, !map_map. fold P.
  simpl.
  assert (HP : Forall (fun p => xs !! fst (snd p) = Some (snd (snd p))) P).
  { unfold P. rewrite sort_keyed_perm. apply Forall_forall. intros [k [i x]] Hin.
    apply elem_of_lookup_zip_with_1 in Hin as (j & k' & [i' x'] & [= -> -> ->] & _ & Hj).
    rewrite lookup_zip_with in Hj.
    destruct (idx !! j) as [i0|] eqn:Ei; simpl in Hj; [|discriminate].
    destruct (xs !! j) as [x0|] eqn:Ex; simpl in Hj; [|discriminate].
    injection Hj as -> ->. simpl.
    apply lookup_seq in Ei as [-> _]. exact Ex. }
  unfold reorder. clear -HP. induction HP as [|p P Hp _ IH]; simpl; [reflexivity|].
  rewrite Hp. simpl. f_equal. exact IH.
Qed.

Lemma reorder_lookup {A : Type} (order : list nat) (l : list A) (k : nat) :
  Forall (fun i => (i < length l)%nat) order ->
  reorder order l !! k = order !! k ≫= fun i => l !! i.
Proof.
  unfold reorder. intros Hall. revert k.
  induction Hall as [|i order Hi _ IH]; intros k; simpl; [reflexivity|].
  apply lookup_lt_is_Some in Hi as [x Hx]. rewrite Hx. simpl.
  destruct k as [|k]; simpl; [symmetry; exact Hx | apply IH].
Qed.

(** The rows taken in the order of the sort have their keys in order. *)
Lemma sort_keyed_keys_sorted {A : Type} (key : A -> result (list token))
    (l : list A) (keys : list (list token)) :
  mapM key l = Ok keys ->
  exists keys',
    mapM key (reorder (sort_order keys) l) = Ok keys'
    /\ StronglySorted key_le keys'.
Proof.
  intros Hk.
  assert (Hlen : length l = length keys) by (symmetry; eapply mapM_length, Hk).
  rewrite <- (sort_keyed_reorder keys l Hlen).
  pose proof (sort_keyed_sorted (A := A) key_lt key_lt_asym
                (fun a b c => key_le_trans a b c) (zip keys l)) as Hs.
  assert (Hall : Forall (fun p => key (snd p) = Ok (fst p))
                        (sort_keyed key_lt (zip keys l))).
  { rewrite sort_keyed_perm. apply mapM_Forall2 in Hk.
    clear -Hk. induction Hk as [|x k l keys Hx _ IH]; simpl; constructor; auto. }
  revert Hs Hall. generalize (sort_keyed key_lt (zip keys l)). intros S Hs Hall.
  exists (map fst S). split.
  - clear Hs. induction Hall as [|[k x] S Hx _ IH]; simpl; [reflexivity|].
    simpl in Hx. rewrite Hx. simpl. rewrite IH. reflexivity.
  - clear Hall. induction Hs as [|p S _ IH Hp]; simpl; constructor; [exact IH|].
    apply Forall_forall. intros k Hkin.
    apply list_elem_of_fmap in Hkin as (q & -> & Hq).
    rewrite Forall_forall in Hp. apply (Hp q Hq).
Qed.

End NaturalSortFacts.

Module ItemsFacts.
Import Geometry Core Arrow NaturalSort Items.
Import ResultFacts NaturalSortFacts.

(** *** Schemas *)

Lemma elem_of_indices_of (name : string) (sch : list Field) (s k : nat) :
  k ∈ indices_of name s sch <->
  exists j f, k = (s + j)%nat /\ sch !! j = Some f /\ fname f = name.
Proof.
  revert s. induction sch as [|f sch IH]; intros s; simpl.
  - split; [intros H; inversion H | intros (j & f & _ & H & _); discriminate].
  - rewrite elem_of_app, IH. split.
    + intros [H | (j & g & -> & Hj & Hg)].
      * destruct (String.eqb (fname f) name) eqn:E; [|inversion H].
        apply list_elem_of_singleton in H as ->. apply String.eqb_eq in E.
        exists 0%nat, f. split; [lia | done].
      * exists (S j), g. split; [lia | done].
    + intros (j & g & -> & Hj & Hg). destruct j as [|j]; simpl in Hj.
      * left. injection Hj as ->. rewrite (proj2 (String.eqb_eq _ _) Hg).
        replace (s + 0)%nat with s by lia. apply list_elem_of_singleton. done.
      * right. exists j, g. split; [lia | done].
Qed.

(** An index that [get_field_index] gives is the index of the only field of
    that name. *)
Lemma get_field_index_spec (sch : list Field) (name : string) (i : Z) :
  get_field_index sch name = i -> 0 <= i ->
  exists f, sch !! Z.to_nat i = Some f /\ fname f = name
            /\ forall j g, sch !! j = Some g -> fname g = name -> j = Z.to_nat i.
Proof.
  unfold get_field_index. intros Hi Hpos.
  destruct (indices_of name 0 sch) as [|k [|k' l]] eqn:E; subst i; try lia.
  rewrite Nat2Z.id.
  assert (Hk : k ∈ indices_of name 0 sch) by (rewrite E; left).
  apply elem_of_indices_of in Hk as (j & f & -> & Hj & Hf). simpl.
  exists f. repeat split; try assumption.
  intros j' g Hj' Hg.
  assert (Hin : (0 + j')%nat ∈ indices_of name 0 sch)
    by (apply elem_of_indices_of; eauto).
  rewrite E in Hin. apply list_elem_of_singleton in Hin. exact Hin.
Qed.

Lemma schema_remove_perm (sch sch1 : list Field) (name : string) :
  schema_remove sch (get_field_index sch name) = Ok sch1 ->
  map fname sch ≡ₚ name :: map fname sch1.
Proof.
  unfold schema_remove.
  destruct (0 <=? get_field_index sch name) eqn:H1; simpl; [|discriminate].
  destruct (get_field_index sch name <? Z.of_nat (length sch)); [|discriminate].
  intros [= <-]. apply Z.leb_le in H1.
  destruct (get_field_index_spec sch name _ eq_refl H1) as (f & Hf & Hname & _).
  rewrite <- (take_drop_middle _ _ _ Hf) at 1.
  rewrite !map_app. simpl. rewrite Hname.
  symmetry. apply Permutation_middle.
Qed.

Section Schemas.
Context {arrow : PixanoArrow}.

(** The support for previous types keeps the names of the columns, provided
    a column of the previous annotation type is named [objects]. *)
Lemma update_field_type_names (field : Field) (sch sch' : list Field)
    (upd upd' : list string) :
  (type_str (ftype field) = previous_objects_str -> fname field = "objects") ->
  update_field_type field (sch, upd) = Ok (sch', upd') ->
  map fname sch' ≡ₚ map fname sch.
Proof.
  intros Hobj. unfold update_field_type.
  destruct (String.eqb (type_str (ftype field)) previous_objects_str) eqn:E1.
  - apply String.eqb_eq in E1. specialize (Hobj E1).
    destruct (schema_remove sch (get_field_index sch "objects")) as [sch1|] eqn:R1;
      simpl; [|discriminate].
    apply schema_remove_perm in R1.
    destruct (String.eqb (type_str (ftype field)) previous_image_str) eqn:E2.
    + apply String.eqb_eq in E2. rewrite E1 in E2. discriminate.
    + intros [= <- <-]. unfold schema_append. rewrite map_app. simpl.
      rewrite R1, Hobj. symmetry. apply Permutation_cons_append.
  - simpl.
    destruct (String.eqb (type_str (ftype field)) previous_image_str) eqn:E2.
    + destruct (schema_remove sch (get_field_index sch (fname field)))
        as [sch1|] eqn:R1; simpl; [|discriminate].
      apply schema_remove_perm in R1.
      intros [= <- <-]. unfold schema_append. rewrite map_app. simpl.
      rewrite R1. symmetry. apply Permutation_cons_append.
    + intros [= <- <-]. reflexivity.
Qed.

Lemma update_field_types_names (fields sch sch' : list Field)
    (upd upd' : list string) :
  Forall (fun f => type_str (ftype f) = previous_objects_str -> fname f = "objects")
         fields ->
  update_field_types fields (sch, upd) = Ok (sch', upd') ->
  map fname sch' ≡ₚ map fname sch.
Proof.
  intros Hall. revert sch upd.
  induction Hall as [|f fields Hf _ IH]; intros sch upd.
  - intros [= <- <-]. reflexivity.
  - change (update_field_types (f :: fields) (sch, upd))
      with (update_field_type f (sch, upd) ≫= update_field_types fields).
    destruct (update_field_type f (sch, upd)) as [[sch1 upd1]|] eqn:E;
      [|discriminate].
    intros H. simpl in H. rewrite (IH _ _ H).
    eapply update_field_type_names; eassumption.
Qed.

(** A schema in which no type prints as one of the two literals goes
    through the support for previous types unchanged. *)
Lemma update_field_types_unchanged (fields sch : list Field) (upd : list string) :
  Forall (fun f => type_str (ftype f) <> previous_objects_str
                   /\ type_str (ftype f) <> previous_image_str) fields ->
  update_field_types fields (sch, upd) = Ok (sch, upd).
Proof.
  induction 1 as [|f fields [H1 H2] _ IH]; simpl; [reflexivity|].
  unfold update_field_type.
  rewrite (proj2 (String.eqb_neq _ _) H1), (proj2 (String.eqb_neq _ _) H2).
  simpl. exact IH.
Qed.

Lemma indices_of_nil (name : string) (sch : list Field) (s : nat) :
  name ∉ map fname sch -> indices_of name s sch = [].
Proof.
  revert s. induction sch as [|f sch IH]; intros s Hn; simpl; [reflexivity|].
  simpl in Hn. apply not_elem_of_cons in Hn as [Hne Hn].
  rewrite (proj2 (String.eqb_neq _ _)) by congruence. simpl. apply IH, Hn.
Qed.

Lemma indices_of_unique (sch : list Field) (s k : nat) (f : Field) :
  NoDup (map fname sch) -> sch !! k = Some f ->
  indices_of (fname f) s sch = [(s + k)%nat].
Proof.
  revert s k. induction sch as [|g sch IH]; intros s k Hnd Hk; [discriminate|].
  simpl in Hnd. apply NoDup_cons in Hnd as [Hg Hnd]. destruct k as [|k]; simpl in *.
  - injection Hk as ->. rewrite String.eqb_refl, (indices_of_nil _ _ _ Hg).
    simpl. f_equal. lia.
  - assert (Hne : fname g <> fname f).
    { intros Heq. apply Hg. rewrite Heq. apply list_elem_of_fmap_2.
      apply list_elem_of_lookup. eauto. }
    rewrite (proj2 (String.eqb_neq _ _) Hne). simpl.
    rewrite (IH (S s) k Hnd Hk). f_equal. lia.
Qed.

(** Two fields of one name in a schema of distinct names are one field. *)
Lemma field_by_name (sch : list Field) (f g : Field) :
  NoDup (map fname sch) -> f ∈ sch -> g ∈ sch -> fname f = fname g -> f = g.
Proof.
  intros Hnd Hf Hg Heq.
  apply list_elem_of_lookup in Hf as (i & Hi), Hg as (j & Hj).
  assert (i = j).
  { eapply NoDup_lookup; [exact Hnd | |].
    - change (map fname sch) with (fname <$> sch). rewrite list_lookup_fmap, Hi.
      reflexivity.
    - change (map fname sch) with (fname <$> sch). rewrite list_lookup_fmap, Hj.
      simpl. rewrite Heq. reflexivity. }
  subst j. congruence.
Qed.

Lemma schema_remove_sub (sch sch1 : list Field) (i : Z) (g : Field) :
  schema_remove sch i = Ok sch1 -> g ∈ sch1 -> g ∈ sch.
Proof.
  unfold schema_remove. destruct (_ && _); [|discriminate]. intros [= <-] Hg.
  rewrite <- (take_drop (Z.to_nat i) sch).
  apply elem_of_app in Hg as [Hg | Hg]; apply elem_of_app; [left; exact Hg|].
  right. rewrite <- (take_drop 1 (drop (Z.to_nat i) sch)), drop_drop.
  apply elem_of_app. right. replace (Z.to_nat i + 1)%nat with (S (Z.to_nat i)) by lia.
  exact Hg.
Qed.

(** A field of the schema after the support for previous types is a field of
    the schema before, or stands for a field of a previous type. *)
Lemma update_field_type_fields (field : Field) (sch sch' : list Field)
    (upd upd' : list string) (g : Field) :
  update_field_type field (sch, upd) = Ok (sch', upd') -> g ∈ sch' ->
  g ∈ sch
  \/ (fname g = fname field
      /\ (type_str (ftype field) = previous_objects_str
          \/ type_str (ftype field) = previous_image_str)).
Proof.
  unfold update_field_type.
  destruct (String.eqb (type_str (ftype field)) previous_objects_str) eqn:E1.
  - apply String.eqb_eq in E1.
    destruct (schema_remove sch (get_field_index sch "objects")) as [sch1|] eqn:R1;
      simpl; [|discriminate].
    destruct (String.eqb (type_str (ftype field)) previous_image_str) eqn:E2.
    + apply String.eqb_eq in E2. rewrite E1 in E2. discriminate.
    + intros [= <- <-] Hg. unfold schema_append in Hg.
      apply elem_of_app in Hg as [Hg | Hg].
      * left. eapply schema_remove_sub; eassumption.
      * apply list_elem_of_singleton in Hg as ->. right. simpl. auto.
  - simpl.
    destruct (String.eqb (type_str (ftype field)) previous_image_str) eqn:E2.
    + apply String.eqb_eq in E2.
      destruct (schema_remove sch (get_field_index sch (fname field)))
        as [sch1|] eqn:R1; simpl; [|discriminate].
      intros [= <- <-] Hg. unfold schema_append in Hg.
      apply elem_of_app in Hg as [Hg | Hg].
      * left. eapply schema_remove_sub; eassumption.
      * apply list_elem_of_singleton in Hg as ->. right. simpl. auto.
    + intros [= <- <-] Hg. left. exact Hg.
Qed.

Lemma update_field_types_fields (fields sch sch' : list Field)
    (upd upd' : list string) (g : Field) :
  update_field_types fields (sch, upd) = Ok (sch', upd') -> g ∈ sch' ->
  g ∈ sch
  \/ (exists field, field ∈ fields /\ fname g = fname field
        /\ (type_str (ftype field) = previous_objects_str
            \/ type_str (ftype field) = previous_image_str)).
Proof.
  revert sch upd. induction fields as [|f fields IH]; intros sch upd.
  - intros [= <- <-] Hg. left. exact Hg.
  - change (update_field_types (f :: fields) (sch, upd))
      with (update_field_type f (sch, upd) ≫= update_field_types fields).
    destruct (update_field_type f (sch, upd)) as [[sch1 upd1]|] eqn:E;
      [|discriminate].
    intros Hrec Hg. simpl in Hrec.
    destruct (IH _ _ Hrec Hg) as [Hg1 | (field & Hfield & Hrest)].
    + destruct (update_field_type_fields _ _ _ _ _ _ E Hg1) as [Hg0 | [Hn Ht]].
      * left. exact Hg0.
      * right. exists f. split; [left | split; assumption].
    + right. exists field. split; [right; exact Hfield | exact Hrest].
Qed.

End Schemas.

(** *** Columns by name *)

Lemma foldl_ins_notin (l : list (Field * list value))
    (acc : gmap string (list value)) (n : string) :
  Forall (fun fc => fname (fst fc) <> n) l ->
  foldl (fun m fc => <[fname (fst fc) := snd fc]> m) acc l !! n = acc !! n.
Proof.
  intros Hall. revert acc. induction Hall as [|fc l Hfc _ IH]; intros acc; simpl.
  - reflexivity.
  - rewrite IH. apply lookup_insert_ne. exact Hfc.
Qed.

Lemma foldl_ins_in (l : list (Field * list value))
    (acc : gmap string (list value)) (f : Field) (c : list value) :
  NoDup (map (fun fc => fname (fst fc)) l) -> (f, c) ∈ l ->
  foldl (fun m fc => <[fname (fst fc) := snd fc]> m) acc l !! fname f = Some c.
Proof.
  revert acc. induction l as [|fc l IH]; intros acc Hnd Hin; simpl.
  - inversion Hin.
  - simpl in Hnd. apply NoDup_cons in Hnd as [Hfc Hnd].
    apply elem_of_cons in Hin as [<- | Hin].
    + rewrite foldl_ins_notin.
      * simpl. apply lookup_insert_eq.
      * apply Forall_forall. intros fc' Hfc' Heq. apply Hfc. simpl.
        rewrite <- Heq. apply (list_elem_of_fmap_2 (fun fc => fname (fst fc))).
        exact Hfc'.
    + apply IH; assumption.
Qed.

Lemma foldl_ins_inv (l : list (Field * list value))
    (acc : gmap string (list value)) (n : string) (c : list value) :
  foldl (fun m fc => <[fname (fst fc) := snd fc]> m) acc l !! n = Some c ->
  (exists f, (f, c) ∈ l /\ fname f = n) \/ acc !! n = Some c.
Proof.
  revert acc. induction l as [|[f c'] l IH]; intros acc; simpl.
  - auto.
  - intros H. apply IH in H as [(g & Hg & Hn) | H].
    + left. exists g. split; [right; exact Hg | exact Hn].
    + simpl in H. destruct (decide (fname f = n)) as [<- | Hne].
      * rewrite lookup_insert_eq in H. injection H as ->.
        left. exists f. split; [left | reflexivity].
      * rewrite lookup_insert_ne in H by exact Hne. auto.
Qed.

Lemma to_pydict_map (g : list value -> list value) (sch : list Field)
    (cols : list (list value)) (n : string) :
  to_pydict sch (map g cols) !! n = g <$> to_pydict sch cols !! n.
Proof.
  unfold to_pydict.
  assert (Hgen : forall acc : gmap string (list value),
    foldl (fun m fc => <[fname (fst fc) := snd fc]> m) (g <$> acc) (zip sch (map g cols))
    = g <$> foldl (fun m fc => <[fname (fst fc) := snd fc]> m) acc (zip sch cols)).
  { revert cols. induction sch as [|f sch IH]; intros [|c cols] acc; simpl;
      try reflexivity.
    rewrite <- IH. f_equal. symmetry. apply fmap_insert. }
  specialize (Hgen ∅). rewrite fmap_empty in Hgen. rewrite Hgen.
  apply lookup_fmap.
Qed.

Lemma first_row_lookup (sch : list Field) (cols : list (list value))
    (row : gmap string value) (n : string) :
  first_row sch cols = Some row ->
  row !! n = to_pydict sch cols !! n ≫= head.
Proof.
  unfold first_row, to_pydict.
  assert (Hgen : forall l (r : gmap string value) (d : gmap string (list value)),
    (forall n, r !! n = d !! n ≫= head) ->
    foldl (fun om fc => m ← om; v ← head (snd fc); Some (<[fname (fst fc) := v]> m))
          (Some r) l = Some row ->
    row !! n = foldl (fun m fc => <[fname (fst fc) := snd fc]> m) d l !! n ≫= head).
  { induction l as [|[f c] l IH]; intros r d Hrd; simpl.
    - intros [= <-]. apply Hrd.
    - destruct (head c) as [v|] eqn:Ev; simpl.
      + apply IH. intros m. destruct (decide (fname f = m)) as [<- | Hne].
        * rewrite !lookup_insert_eq. simpl. symmetry. exact Ev.
        * rewrite !lookup_insert_ne by exact Hne. apply Hrd.
      + intros H. exfalso. clear -H. induction l as [|fc l IHl]; simpl in H;
          [discriminate | auto]. }
  apply Hgen. intros m. rewrite !lookup_empty. reflexivity.
Qed.

Lemma table_column_index (t : Table) (k : nat) (f : Field) (c : list value) :
  table_wf t -> schema t !! k = Some f -> columns t !! k = Some c ->
  table_column t (fname f) = Some c.
Proof.
  intros (Hlen & _ & Hnd & _) Hf Hc. unfold table_column, to_pydict.
  apply foldl_ins_in.
  - replace (map (fun fc : Field * list value => fname (fst fc))
                 (zip (schema t) (columns t)))
      with (map fname (schema t)); [exact Hnd|].
    rewrite <- (fst_zip (schema t) (columns t)) at 1 by lia.
    rewrite <- list_fmap_compose. reflexivity.
  - apply list_elem_of_lookup. exists k. rewrite lookup_zip_with, Hf, Hc. reflexivity.
Qed.

Lemma table_column_inv (t : Table) (n : string) (c : list value) :
  table_column t n = Some c ->
  exists k f, schema t !! k = Some f /\ fname f = n /\ columns t !! k = Some c.
Proof.
  unfold table_column, to_pydict. intros H.
  apply foldl_ins_inv in H as [(f & Hin & Hn) | H]; [|rewrite lookup_empty in H; discriminate].
  apply list_elem_of_lookup in Hin as (k & Hk). rewrite lookup_zip_with in Hk.
  destruct (schema t !! k) as [f'|] eqn:Ef; simpl in Hk; [|discriminate].
  destruct (columns t !! k) as [c'|] eqn:Ec; simpl in Hk; [|discriminate].
  injection Hk as -> ->. eauto.
Qed.

Lemma table_column_length (t : Table) (n : string) (c : list value) :
  table_wf t -> table_column t n = Some c -> length c = num_rows t.
Proof.
  intros (_ & Hall & _) H. apply table_column_inv in H as (k & f & _ & _ & Hc).
  eapply Forall_lookup_1 in Hall; eauto.
Qed.

(** The id column is the column of the only field named [id], a column of
    strings. *)
Lemma id_column_spec (t : Table) (ids : list value) :
  id_column t = Ok ids ->
  exists k f, schema t !! k = Some f /\ fname f = "id" /\ ftype f = pa_string
              /\ columns t !! k = Some ids.
Proof.
  unfold id_column.
  destruct (get_field_index (schema t) "id" <? 0) eqn:E; [discriminate|].
  apply Z.ltb_ge in E.
  destruct (get_field_index_spec _ _ _ eq_refl E) as (f & Hf & Hn & _).
  rewrite Hf. destruct (columns t !! _) as [col|] eqn:Ec; [|discriminate].
  destruct (ftype f) eqn:Et; try discriminate.
  intros [= <-]. eauto 10.
Qed.

Lemma id_column_table_column (t : Table) (ids : list value) :
  table_wf t -> id_column t = Ok ids -> table_column t "id" = Some ids.
Proof.
  intros Hwf H. apply id_column_spec in H as (k & f & Hf & <- & _ & Hc).
  eapply table_column_index; eassumption.
Qed.

Lemma id_column_length (t : Table) (ids : list value) :
  table_wf t -> id_column t = Ok ids -> length ids = num_rows t.
Proof.
  intros Hwf H. eapply table_column_length; [exact Hwf|].
  apply id_column_table_column; assumption.
Qed.

Lemma id_column_intro (t : Table) (k : nat) (f : Field) (c : list value) :
  NoDup (map fname (schema t)) -> schema t !! k = Some f -> fname f = "id" ->
  ftype f = pa_string -> columns t !! k = Some c -> id_column t = Ok c.
Proof.
  intros Hnd Hf Hn Ht Hc. unfold id_column, get_field_index.
  rewrite <- Hn, (indices_of_unique _ 0 k f Hnd Hf). simpl.
  destruct (Z.of_nat k <? 0) eqn:E; [apply Z.ltb_lt in E; lia|].
  rewrite Nat2Z.id, Hf, Hc, Ht. reflexivity.
Qed.

(** *** The loops over the fields, one column at a time *)

Lemma append_item_spec (sch : list Field) (row : gmap string value)
    (tbl tbl1 : gmap string (list value)) :
  NoDup (map fname sch) -> append_item sch row tbl = Ok tbl1 ->
  (forall n, n ∉ map fname sch -> tbl1 !! n = tbl !! n)
  /\ (forall f, f ∈ sch ->
        exists col v, tbl !! fname f = Some col /\ row !! fname f = Some v
                      /\ tbl1 !! fname f = Some (col ++ [v])).
Proof.
  revert tbl. induction sch as [|f sch IH]; intros tbl Hnd; simpl.
  - intros [= <-]. split; [reflexivity | intros f Hf; inversion Hf].
  - simpl in Hnd. apply NoDup_cons in Hnd as [Hf Hnd].
    unfold get_column, get_cell.
    destruct (tbl !! fname f) as [col|] eqn:Ec; simpl; [|discriminate].
    destruct (row !! fname f) as [v|] eqn:Ev; simpl; [|discriminate].
    intros H. destruct (IH _ Hnd H) as [IH1 IH2]. split.
    + intros n Hn. apply not_elem_of_cons in Hn as [Hne Hn].
      rewrite (IH1 _ Hn). apply lookup_insert_ne. congruence.
    + intros g Hg. apply elem_of_cons in Hg as [-> | Hg].
      * exists col, v. repeat split; try assumption.
        rewrite (IH1 _ Hf). apply lookup_insert_eq.
      * destruct (IH2 _ Hg) as (col' & v' & Hc' & Hv' & H1).
        assert (Hne : fname f <> fname g).
        { intros Heq. apply Hf. rewrite Heq. apply list_elem_of_fmap_2. exact Hg. }
        rewrite lookup_insert_ne in Hc' by exact Hne. eauto.
Qed.

Lemma sort_fields_spec (sch : list Field) (tbl tbl2 : gmap string (list value)) :
  NoDup (map fname sch) -> sort_fields sch tbl = Ok tbl2 ->
  tbl2 !! "id" = tbl !! "id"
  /\ (forall n, n ∉ map fname sch -> tbl2 !! n = tbl !! n)
  /\ (forall f, f ∈ sch -> fname f <> "id" ->
        exists ids col c', tbl !! "id" = Some ids /\ tbl !! fname f = Some col
                           /\ sort_column ids col = Ok c'
                           /\ tbl2 !! fname f = Some c').
Proof.
  revert tbl. induction sch as [|f sch IH]; intros tbl Hnd; simpl.
  - intros [= <-]. repeat split; try reflexivity. intros f Hf; inversion Hf.
  - simpl in Hnd. apply NoDup_cons in Hnd as [Hf Hnd].
    destruct (String.eqb (fname f) "id") eqn:Eid; simpl.
    + apply String.eqb_eq in Eid. intros H.
      destruct (IH _ Hnd H) as (IH0 & IH1 & IH2). repeat split.
      * exact IH0.
      * intros n Hn. apply not_elem_of_cons in Hn as [_ Hn]. auto.
      * intros g Hg Hgid. apply elem_of_cons in Hg as [-> | Hg]; [congruence | auto].
    + apply String.eqb_neq in Eid. unfold get_column.
      destruct (tbl !! "id") as [ids|] eqn:Ei; simpl; [|discriminate].
      destruct (tbl !! fname f) as [col|] eqn:Ec; simpl; [|discriminate].
      destruct (sort_column ids col) as [c'|] eqn:Es; simpl; [|discriminate].
      intros H. destruct (IH _ Hnd H) as (IH0 & IH1 & IH2). repeat split.
      * rewrite IH0. rewrite lookup_insert_ne by exact Eid. exact Ei.
      * intros n Hn. apply not_elem_of_cons in Hn as [Hne Hn].
        rewrite (IH1 _ Hn). apply lookup_insert_ne. congruence.
      * intros g Hg Hgid. apply elem_of_cons in Hg as [-> | Hg].
        -- exists ids, col, c'. repeat split; try assumption; try reflexivity.
           rewrite (IH1 _ Hf). apply lookup_insert_eq.
        -- destruct (IH2 _ Hg Hgid) as (ids' & col' & c'' & Hi' & Hc' & Hs' & H2).
           assert (Hne : fname f <> fname g).
           { intros Heq. apply Hf. rewrite Heq. apply list_elem_of_fmap_2. exact Hg. }
           rewrite lookup_insert_ne in Hi' by exact Eid.
           rewrite lookup_insert_ne in Hc' by exact Hne.
           rewrite Ei in Hi'. injection Hi' as <-.
           exists ids, col', c''. repeat split; try assumption; reflexivity.
Qed.

Lemma sorted_by_keys {A : Type} (key : A -> result (list token)) (l l' : list A) :
  sorted_by key l = Ok l' ->
  exists keys, mapM key l = Ok keys /\ l' = reorder (sort_order keys) l.
Proof.
  unfold sorted_by. destruct (mapM key l) as [keys|] eqn:E; simpl; [|discriminate].
  intros [= <-]. exists keys. split; [reflexivity|].
  apply sort_keyed_reorder. symmetry. eapply mapM_length, E.
Qed.

(** A column sorted on the ids is reordered as the keys of the ids are. *)
Lemma sort_column_reorder (ids col c' : list value) (keys : list (list token)) :
  mapM id_key ids = Ok keys -> length col = length ids ->
  sort_column ids col = Ok c' -> c' = reorder (sort_order keys) col.
Proof.
  intros Hk Hlen. unfold sort_column.
  destruct (sorted_by _ (zip ids col)) as [pairs|] eqn:E; simpl; [|discriminate].
  intros [= <-]. apply sorted_by_keys in E as (keys' & Hk' & ->).
  rewrite (mapM_fst_zip id_key) in Hk' by lia. rewrite Hk in Hk'.
  injection Hk' as <-. rewrite reorder_map. f_equal.
  change (map snd (zip ids col)) with ((zip ids col).*2).
  apply snd_zip. lia.
Qed.

Lemma filter_rows_length {A B : Type} (keep : list bool) (c1 : list A) (c2 : list B) :
  length c1 = length keep -> length c2 = length keep ->
  length (filter_rows keep c1) = length (filter_rows keep c2).
Proof.
  revert c1 c2. induction keep as [|k keep IH]; intros [|x c1] [|y c2]; simpl;
    try discriminate; try reflexivity.
  intros [= H1] [= H2]. destruct k; simpl; [f_equal|]; apply IH; assumption.
Qed.

Lemma filter_rows_le {A : Type} (keep : list bool) (c : list A) :
  (length (filter_rows keep c) <= length c)%nat.
Proof.
  revert c. induction keep as [|k keep IH]; intros [|x c]; simpl; try lia.
  specialize (IH c). destruct k; simpl; lia.
Qed.

(** The first row of the item holds the item's id. *)
Lemma item_cell_id (item_id : string) (ids : list value) :
  existsb (is_item item_id) ids = true ->
  item_cell item_id ids ids = Some (VStr item_id).
Proof.
  unfold item_cell. induction ids as [|x ids IH]; simpl; [discriminate|].
  destruct (is_item item_id x) eqn:E; simpl.
  - intros _. destruct x; try discriminate. simpl in E.
    apply String.eqb_eq in E as ->. reflexivity.
  - exact IH.
Qed.

(** Taking the item's rows out and putting one row back keeps the number of
    rows when the item had one row. *)
Lemma put_back_length (item_id : string) (ids col : list value) (v : value) :
  length col = length ids ->
  length (List.filter (is_item item_id) ids) = 1%nat ->
  length (put_back item_id ids col v) = length ids.
Proof.
  intros Hlen Hone. unfold put_back. rewrite length_app. simpl.
  rewrite (filter_rows_length _ col ids) by (rewrite ?length_map; lia).
  assert (Hgen : forall l : list value,
    (length (filter_rows (map (fun x => negb (is_item item_id x)) l) l)
     + length (List.filter (is_item item_id) l) = length l)%nat).
  { induction l as [|x l IHl]; simpl; [reflexivity|].
    destruct (is_item item_id x); simpl; lia. }
  specialize (Hgen ids). lia.
Qed.

Section Columns.
Context `{PixanoCore} `{PixanoArrow}.

Lemma renew_field_other (upd : list string) (f : Field)
    (tbl tbl' : gmap string (list value)) (n : string) :
  renew_field upd f tbl = Ok tbl' -> n <> fname f -> tbl' !! n = tbl !! n.
Proof.
  unfold renew_field, get_column. intros Hr Hn.
  destruct (is_image_type (ftype f) && elem_str (fname f) upd).
  - destruct (tbl !! fname f) as [col|]; simpl in Hr; [|discriminate].
    destruct (mapM renew_image col) as [col'|]; simpl in Hr; [|discriminate].
    destruct (is_list_of_object_annotation_type (ftype f) && elem_str (fname f) upd).
    + rewrite lookup_insert_eq in Hr. simpl in Hr.
      destruct (mapM renew_objects col') as [col''|]; simpl in Hr; [|discriminate].
      injection Hr as <-. rewrite !lookup_insert_ne by congruence. reflexivity.
    + injection Hr as <-. rewrite lookup_insert_ne by congruence. reflexivity.
  - simpl in Hr.
    destruct (is_list_of_object_annotation_type (ftype f) && elem_str (fname f) upd).
    + destruct (tbl !! fname f) as [col|]; simpl in Hr; [|discriminate].
      destruct (mapM renew_objects col) as [col''|]; simpl in Hr; [|discriminate].
      injection Hr as <-. rewrite lookup_insert_ne by congruence. reflexivity.
    + injection Hr as <-. reflexivity.
Qed.

Lemma renew_field_column (upd : list string) (f : Field)
    (tbl tbl' : gmap string (list value)) (c : list value) :
  renew_field upd f tbl = Ok tbl' -> tbl !! fname f = Some c ->
  exists c', renew_column upd f c = Ok c' /\ tbl' !! fname f = Some c'.
Proof.
  unfold renew_field, renew_column, get_column. intros Hr Hc. rewrite Hc in Hr.
  destruct (is_image_type (ftype f) && elem_str (fname f) upd); simpl in Hr.
  - destruct (mapM renew_image c) as [col'|]; simpl in *; [|discriminate].
    destruct (is_list_of_object_annotation_type (ftype f) && elem_str (fname f) upd).
    + rewrite lookup_insert_eq in Hr. simpl in Hr.
      destruct (mapM renew_objects col') as [col''|]; simpl in *; [|discriminate].
      injection Hr as <-. exists col''. split; [reflexivity|].
      apply lookup_insert_eq.
    + injection Hr as <-. exists col'. split; [reflexivity|].
      apply lookup_insert_eq.
  - destruct (is_list_of_object_annotation_type (ftype f) && elem_str (fname f) upd).
    + rewrite Hc in Hr. simpl in Hr. simpl.
      destruct (mapM renew_objects c) as [col''|]; simpl in *; [|discriminate].
      injection Hr as <-. exists col''. split; [reflexivity|].
      apply lookup_insert_eq.
    + injection Hr as <-. exists c. split; [reflexivity | exact Hc].
Qed.

Lemma renew_fields_spec (upd : list string) (sch : list Field)
    (tbl tbl3 : gmap string (list value)) :
  NoDup (map fname sch) -> renew_fields upd sch tbl = Ok tbl3 ->
  (forall n, n ∉ map fname sch -> tbl3 !! n = tbl !! n)
  /\ (forall f c, f ∈ sch -> tbl !! fname f = Some c ->
        exists c', renew_column upd f c = Ok c' /\ tbl3 !! fname f = Some c').
Proof.
  revert tbl. induction sch as [|f sch IH]; intros tbl Hnd.
  - intros [= <-]. split; [reflexivity | intros f c Hf; inversion Hf].
  - simpl in Hnd. apply NoDup_cons in Hnd as [Hf Hnd].
    change (renew_fields upd (f :: sch) tbl)
      with (renew_field upd f tbl ≫= renew_fields upd sch).
    destruct (renew_field upd f tbl) as [tbl'|] eqn:E; [|discriminate].
    intros Hr. simpl in Hr. destruct (IH _ Hnd Hr) as [IH1 IH2]. split.
    + intros n Hn. apply not_elem_of_cons in Hn as [Hne Hn].
      rewrite (IH1 _ Hn). eapply renew_field_other; eassumption.
    + intros g c Hg Hc. apply elem_of_cons in Hg as [-> | Hg].
      * destruct (renew_field_column _ _ _ _ _ E Hc) as (c' & Hc' & Ht).
        exists c'. split; [exact Hc'|]. rewrite (IH1 _ Hf). exact Ht.
      * apply IH2; [exact Hg|].
        rewrite (renew_field_other _ _ _ _ _ E); [exact Hc|].
        intros Heq. apply Hf. rewrite <- Heq. apply list_elem_of_fmap_2. exact Hg.
Qed.

Lemma field_array_encode (upd : list string) (f : Field)
    (tbl2 tbl3 : gmap string (list value)) (c2 c3 : list value) (a : Array) :
  renew_column upd f c2 = Ok c3 -> tbl3 !! fname f = Some c3 ->
  field_array tbl3 f = Ok a -> encode_column upd f c2 = Ok (arr_data a).
Proof.
  intros Hr Hc. unfold field_array, encode_column, get_column. rewrite Hr, Hc. simpl.
  intros ->. reflexivity.
Qed.

(** What [update_table] writes, column by column: every column of the new
    table is the column of that name of the table read, with the rows of the
    item taken out and one row put back, reordered as the sort on the keys
    of the ids orders the rows, and encoded for its field. *)
Lemma update_table_columns (item_id : string) (annotations : list ObjectAnnotation)
    (t t' : Table) :
  table_wf t -> update_table item_id annotations t = Ok (Some t') ->
  exists ids keys upd,
    id_column t = Ok ids
    /\ existsb (is_item item_id) ids = true
    /\ mapM id_key (put_back item_id ids ids (VStr item_id)) = Ok keys
    /\ update_field_types (schema t) (schema t, []) = Ok (schema t', upd)
    /\ map fname (schema t') ≡ₚ map fname (schema t)
    /\ length (columns t') = length (schema t')
    /\ Forall (fun c => length c = num_rows t') (columns t')
    /\ forall j f, schema t' !! j = Some f ->
         exists col0 v col',
           table_column t (fname f) = Some col0
           /\ (if String.eqb (fname f) "objects"
               then v = VList (map VObject annotations)
               else item_cell item_id ids col0 = Some v)
           /\ columns t' !! j = Some col'
           /\ encode_column upd f
                (reorder (sort_order keys) (put_back item_id ids col0 v)) = Ok col'.
Proof.
  intros Hwf. unfold update_table.
  destruct (update_field_types (schema t) (schema t, [])) as [[sch upd]|] eqn:Eu;
    simpl; [|discriminate].
  destruct (id_column t) as [ids|] eqn:Eid; simpl; [|discriminate].
  rewrite existsb_map_id.
  destruct (existsb (is_item item_id) ids) eqn:Efound; [|discriminate].
  destruct (first_row _ _) as [item0|] eqn:Erow; [|discriminate].
  destruct (append_item _ _ _) as [tbl1|] eqn:Eapp; simpl; [|discriminate].
  unfold sort_table.
  destruct (sort_fields sch tbl1) as [tbl1'|] eqn:Esf; simpl; [|discriminate].
  destruct (get_column tbl1' "id") as [ids1|] eqn:Eg; simpl; [|discriminate].
  destruct (sorted_by id_key ids1) as [sorted_ids|] eqn:Esorted; simpl; [|discriminate].
  destruct (renew_fields upd sch _) as [tbl3|] eqn:Er; simpl; [|discriminate].
  destruct (mapM (field_array tbl3) sch) as [arrays|] eqn:Ea; simpl; [|discriminate].
  unfold Table_from_arrays.
  destruct (forallb _ arrays) eqn:Elen; simpl; [|discriminate].
  intros [= <-]. simpl.
  (* names *)
  destruct Hwf as (Hcols & Hrows & Hnd & Hobj).
  assert (Hwf : table_wf t) by (repeat split; assumption).
  pose proof (update_field_types_names _ _ _ _ _ Hobj Eu) as Hnames.
  assert (Hnd' : NoDup (map fname sch)) by (rewrite Hnames; exact Hnd).
  destruct (append_item_spec _ _ _ _ Hnd' Eapp) as [Happ1 Happ2].
  destruct (sort_fields_spec _ _ _ Hnd' Esf) as (Hsf0 & Hsf1 & Hsf2).
  destruct (renew_fields_spec _ _ _ _ Hnd' Er) as [Hr1 Hr2].
  (* the id column *)
  pose proof (id_column_table_column _ _ Hwf Eid) as Hidcol.
  destruct (id_column_spec _ _ Eid) as (kid & fid & Hfid & Hfidn & _ & _).
  assert (Hidin : "id" ∈ map fname sch).
  { rewrite Hnames, <- Hfidn. apply list_elem_of_fmap_2.
    apply list_elem_of_lookup. eauto. }
  apply list_elem_of_fmap in Hidin as (gid & Hgidn & Hgid).
  (* old columns and the cell put back, for a field of the new schema *)
  assert (Hcell : forall f, f ∈ sch ->
    exists col0 v, table_column t (fname f) = Some col0
      /\ (if String.eqb (fname f) "objects"
          then v = VList (map VObject annotations)
          else item_cell item_id ids col0 = Some v)
      /\ tbl1 !! fname f = Some (put_back item_id ids col0 v)).
  { intros f Hf. destruct (Happ2 _ Hf) as (colU & v & HcU & Hv & Ht1).
    rewrite to_pydict_map in HcU. fold (table_column t (fname f)) in HcU.
    destruct (table_column t (fname f)) as [col0|] eqn:Ecol; [|discriminate].
    simpl in HcU. injection HcU as <-.
    exists col0, v. split; [reflexivity|]. split.
    - destruct (String.eqb (fname f) "objects") eqn:Eo.
      + apply String.eqb_eq in Eo. rewrite Eo, lookup_insert_eq in Hv.
        injection Hv as <-. reflexivity.
      + apply String.eqb_neq in Eo. rewrite lookup_insert_ne in Hv by congruence.
        rewrite (first_row_lookup _ _ _ _ Erow), to_pydict_map in Hv.
        fold (table_column t (fname f)) in Hv. rewrite Ecol in Hv. exact Hv.
    - rewrite Ht1. unfold put_back. rewrite map_map. reflexivity. }
  assert (Hids1 : ids1 = put_back item_id ids ids (VStr item_id)).
  { destruct (Hcell _ Hgid) as (col0 & v & Hc0 & Hv & Ht1).
    rewrite <- Hgidn in Hc0, Hv, Ht1. rewrite Hidcol in Hc0. injection Hc0 as <-.
    simpl in Hv. rewrite (item_cell_id _ _ Efound) in Hv. injection Hv as <-.
    unfold get_column in Eg. rewrite Hsf0, Ht1 in Eg. injection Eg as <-.
    reflexivity. }
  destruct (sorted_by_keys _ _ _ Esorted) as (keys & Hkeys & Hsorted).
  subst ids1.
  exists ids, keys, upd. repeat split; try assumption.
  - rewrite length_map. eapply mapM_length, Ea.
  - apply Forall_forall. intros c Hc. unfold num_rows. simpl.
    apply list_elem_of_fmap in Hc as (a & -> & Ha).
    rewrite forallb_forall in Elen.
    specialize (Elen a (proj1 (list_elem_of_In _ _) Ha)).
    apply Nat.eqb_eq in Elen. unfold arr_len in Elen. rewrite Elen.
    destruct arrays; reflexivity.
  - intros j f Hj.
    assert (Hf : f ∈ sch) by (apply list_elem_of_lookup; eauto).
    destruct (Hcell _ Hf) as (col0 & v & Hc0 & Hv & Ht1).
    destruct (mapM_lookup _ _ _ _ _ Ea Hj) as (a & Ha & Hfa).
    exists col0, v, (arr_data a). repeat split; try assumption.
    + change (map arr_data arrays) with (arr_data <$> arrays).
      rewrite list_lookup_fmap, Ha. reflexivity.
    + assert (Hc2 : (<["id" := sorted_ids]> tbl1') !! fname f
                    = Some (reorder (sort_order keys) (put_back item_id ids col0 v))).
      { destruct (decide (fname f = "id")) as [Hfid' | Hfid'].
        - rewrite Hfid', lookup_insert_eq. f_equal.
          rewrite Hfid' in Hc0, Hv. rewrite Hidcol in Hc0. injection Hc0 as <-.
          simpl in Hv. rewrite (item_cell_id _ _ Efound) in Hv. injection Hv as <-.
          exact Hsorted.
        - rewrite lookup_insert_ne by congruence.
          destruct (Hsf2 _ Hf Hfid') as (idsX & colX & c' & HiX & HcX & Hs & Ht).
          rewrite Ht. f_equal.
          unfold get_column in Eg. rewrite Hsf0, HiX in Eg. injection Eg as ->.
          rewrite Ht1 in HcX. injection HcX as <-.
          eapply sort_column_reorder; [exact Hkeys | | exact Hs].
          unfold put_back. rewrite !length_app. simpl. f_equal.
          apply filter_rows_length; rewrite length_map.
          + rewrite (table_column_length _ _ _ Hwf Hc0).
            symmetry. apply id_column_length; assumption.
          + reflexivity. }
      destruct (Hr2 _ _ Hf Hc2) as (c3 & Hc3 & Ht3).
      eapply field_array_encode; eassumption.
Qed.

(** A column of strings is written as it is. *)
Lemma encode_column_string (upd : list string) (f : Field) (c c' : list value) :
  ftype f = pa_string -> encode_column upd f c = Ok c' -> c' = c.
Proof.
  intros Ht. unfold encode_column, renew_column. rewrite Ht.
  rewrite string_is_no_image, string_is_no_annotation_list. simpl.
  unfold pa_array_typed.
  destruct (mapM (typed_value pa_string) c) as [data|] eqn:E; simpl; [|discriminate].
  intros [= <-]. eapply mapM_id; [|exact E].
  intros x y. destruct x; simpl; try discriminate; intros [= <-]; reflexivity.
Qed.

(** The table [update_table] writes, with its id column. *)
Lemma update_table_spec (item_id : string) (annotations : list ObjectAnnotation)
    (t t' : Table) :
  table_wf t -> update_table item_id annotations t = Ok (Some t') ->
  exists ids keys upd,
    id_column t = Ok ids
    /\ existsb (is_item item_id) ids = true
    /\ mapM id_key (put_back item_id ids ids (VStr item_id)) = Ok keys
    /\ update_field_types (schema t) (schema t, []) = Ok (schema t', upd)
    /\ NoDup (map fname (schema t'))
    /\ length (columns t') = length (schema t')
    /\ Forall (fun c => length c = num_rows t') (columns t')
    /\ id_column t'
       = Ok (reorder (sort_order keys) (put_back item_id ids ids (VStr item_id)))
    /\ forall j f, schema t' !! j = Some f ->
         exists col0 v col',
           table_column t (fname f) = Some col0
           /\ (if String.eqb (fname f) "objects"
               then v = VList (map VObject annotations)
               else item_cell item_id ids col0 = Some v)
           /\ columns t' !! j = Some col'
           /\ encode_column upd f
                (reorder (sort_order keys) (put_back item_id ids col0 v)) = Ok col'.
Proof.
  intros Hwf Hu.
  destruct (update_table_columns _ _ _ _ Hwf Hu)
    as (ids & keys & upd & Hid & Hfound & Hkeys & Hupd & Hnames & Hlen & Hrows & Hcols).
  pose proof Hwf as (_ & _ & Hnd & _).
  assert (Hnd' : NoDup (map fname (schema t'))) by (rewrite Hnames; exact Hnd).
  exists ids, keys, upd.
  split; [exact Hid|]. split; [exact Hfound|]. split; [exact Hkeys|].
  split; [exact Hupd|]. split; [exact Hnd'|]. split; [exact Hlen|].
  split; [exact Hrows|]. split; [|exact Hcols].
  (* the id field of the new schema is the id field of the old one *)
  destruct (id_column_spec _ _ Hid) as (kid & fid & Hfid & Hfidn & Hfidt & _).
  assert (Hfidin : fid ∈ schema t) by (apply list_elem_of_lookup; eauto).
  assert (Hin : "id" ∈ map fname (schema t')).
  { rewrite Hnames, <- Hfidn. apply list_elem_of_fmap_2. exact Hfidin. }
  apply list_elem_of_fmap in Hin as (gid & Hgidn & Hgid).
  assert (Hgidt : ftype gid = pa_string).
  { destruct (update_field_types_fields _ _ _ _ _ _ Hupd Hgid)
      as [Hold | (field & Hfield & Hn & Ht)].
    - rewrite (field_by_name _ gid fid Hnd Hold Hfidin); [exact Hfidt | congruence].
    - rewrite (field_by_name _ field fid Hnd Hfield Hfidin) in Ht by congruence.
      rewrite Hfidt in Ht. simpl in Ht. destruct Ht; discriminate. }
  apply list_elem_of_lookup in Hgid as (j & Hj).
  destruct (Hcols _ _ Hj) as (col0 & v & col' & Hc0 & Hv & Hc' & Henc).
  rewrite <- Hgidn in Hc0, Hv. simpl in Hv.
  rewrite (id_column_table_column _ _ Hwf Hid) in Hc0. injection Hc0 as <-.
  rewrite (item_cell_id _ _ Hfound) in Hv. injection Hv as <-.
  apply (encode_column_string _ _ _ _ Hgidt) in Henc. subst col'.
  eapply id_column_intro; eauto.
Qed.

End Columns.

Lemma table_ids_ok (t : Table) (ids : list value) :
  id_column t = Ok ids -> table_ids t = ids.
Proof. unfold table_ids. intros ->. reflexivity. Qed.

Lemma filter_one_exists (item_id : string) (ids : list value) :
  length (List.filter (is_item item_id) ids) = 1%nat ->
  existsb (is_item item_id) ids = true.
Proof.
  induction ids as [|x ids IH]; simpl; [discriminate|].
  destruct (is_item item_id x); simpl; [reflexivity | exact IH].
Qed.

(** *** Files *)

Lemma read_write_eq (fs : list (string * Table)) (p : string) (t : Table) :
  read_table (write_table fs p t) p = Ok t.
Proof.
  induction fs as [|[q u] fs IH]; simpl.
  - rewrite String.eqb_refl. reflexivity.
  - destruct (String.eqb q p) eqn:E; simpl; rewrite E; [reflexivity | exact IH].
Qed.

Lemma read_write_ne (fs : list (string * Table)) (p q : string) (t : Table) :
  p <> q -> read_table (write_table fs q t) p = read_table fs p.
Proof.
  intros Hne. induction fs as [|[q' u] fs IH]; simpl.
  - rewrite (proj2 (String.eqb_neq q p)) by congruence. reflexivity.
  - destruct (String.eqb q' q) eqn:E; simpl.
    + apply String.eqb_eq in E as ->.
      rewrite (proj2 (String.eqb_neq q p)) by congruence. reflexivity.
    + destruct (String.eqb q' p); [reflexivity | exact IH].
Qed.

Lemma read_table_in (fs : list (string * Table)) (p : string) (t : Table) :
  read_table fs p = Ok t -> p ∈ map fst fs.
Proof.
  induction fs as [|[q u] fs IH]; simpl; [discriminate|].
  destruct (String.eqb q p) eqn:E.
  - apply String.eqb_eq in E as ->. intros _. left.
  - intros H. right. auto.
Qed.

Lemma read_table_elem (fs : list (string * Table)) (p : string) (t : Table) :
  read_table fs p = Ok t -> (p, t) ∈ fs.
Proof.
  induction fs as [|[q u] fs IH]; simpl; [discriminate|].
  destruct (String.eqb q p) eqn:E.
  - apply String.eqb_eq in E as ->. intros [= ->]. left.
  - intros H. right. auto.
Qed.

(** Writing a file that exists leaves the list of the files as it is. *)
Lemma write_table_paths (fs : list (string * Table)) (p : string) (t : Table) :
  p ∈ map fst fs -> map fst (write_table fs p t) = map fst fs.
Proof.
  induction fs as [|[q u] fs IH]; simpl; intros Hin.
  - inversion Hin.
  - destruct (String.eqb q p) eqn:E; simpl; [reflexivity|].
    f_equal. apply IH. apply elem_of_cons in Hin as [-> | Hin]; [|exact Hin].
    rewrite String.eqb_refl in E. discriminate.
Qed.

Lemma glob_parquet_in (dataset_dir p : string) (fs : list (string * Table)) :
  p ∈ glob_parquet dataset_dir fs -> p ∈ map fst fs.
Proof.
  unfold glob_parquet. rewrite !list_elem_of_In, filter_In. tauto.
Qed.

Lemma glob_parquet_NoDup (dataset_dir : string) (fs : list (string * Table)) :
  NoDup (map fst fs) -> NoDup (glob_parquet dataset_dir fs).
Proof.
  unfold glob_parquet. rewrite !NoDup_ListNoDup. apply List.NoDup_filter.
Qed.

Section World.
Context `{PixanoCore} `{PixanoArrow}.

(** A table is written for a shard only when the shard holds the item. *)
Lemma update_table_found (item_id : string) (annotations : list ObjectAnnotation)
    (t t' : Table) :
  update_table item_id annotations t = Ok (Some t') -> contains_item item_id t = true.
Proof.
  unfold update_table, contains_item, table_ids.
  destruct (update_field_types _ _) as [[sch upd]|]; simpl; [|discriminate].
  destruct (id_column t) as [ids|]; simpl; [|discriminate].
  rewrite existsb_map_id.
  destruct (existsb (is_item item_id) ids); [reflexivity | discriminate].
Qed.

Lemma update_table_not_found (item_id : string) (annotations : list ObjectAnnotation)
    (t : Table) (r : option Table) :
  update_table item_id annotations t = Ok r -> contains_item item_id t = false ->
  r = None.
Proof.
  destruct r as [t'|]; [|reflexivity]. intros Hu Hc.
  rewrite (update_table_found _ _ _ _ Hu) in Hc. discriminate.
Qed.

Lemma update_table_contains (item_id : string) (annotations : list ObjectAnnotation)
    (t : Table) :
  update_table item_id annotations t = Ok None -> contains_item item_id t = false.
Proof.
  unfold update_table, contains_item, table_ids.
  destruct (update_field_types _ _) as [[sch upd]|]; simpl; [|discriminate].
  destruct (id_column t) as [ids|]; simpl; [|discriminate].
  rewrite existsb_map_id.
  destruct (existsb (is_item item_id) ids); [|reflexivity].
  destruct (first_row _ _); [|discriminate].
  destruct (append_item _ _ _); simpl; [|discriminate].
  destruct (sort_table _ _); simpl; [|discriminate].
  destruct (renew_fields _ _ _); simpl; [|discriminate].
  destruct (mapM _ _); simpl; [|discriminate].
  destruct (Table_from_arrays _ _); simpl; discriminate.
Qed.

(** The loop over the files: the files it writes are files of the list, each
    holds the table built from what it held, every other file is left as it
    was, and no file appears or disappears. When the loop ends without an
    exception, every file of the list that held the item was written. *)
Lemma update_files_spec (item_id : string) (annotations : list ObjectAnnotation)
    (paths : list string) (fs fs' : list (string * Table))
    (log log' : list string) (r : result unit) :
  NoDup paths ->
  update_files item_id annotations paths fs log = (fs', log', r) ->
  exists wr,
    log' = log ++ wr
    /\ (forall p, p ∈ wr ->
          p ∈ paths
          /\ exists t t', read_table fs p = Ok t
                          /\ update_table item_id annotations t = Ok (Some t')
                          /\ read_table fs' p = Ok t')
    /\ (forall p, p ∉ wr -> read_table fs' p = read_table fs p)
    /\ (NoDup wr /\ (wr = [] -> fs' = fs) /\ map fst fs' = map fst fs)
    /\ (r = Ok tt ->
        forall p t, p ∈ paths -> read_table fs p = Ok t ->
                    contains_item item_id t = true -> p ∈ wr).
Proof.
  assert (Hstop : forall (fs0 : list (string * Table)) (log0 : list string)
                         (ps : list string) (e : exn),
    exists wr : list string,
      log0 = log0 ++ wr
      /\ (forall p, p ∈ wr ->
            p ∈ ps
            /\ exists t t', read_table fs0 p = Ok t
                            /\ update_table item_id annotations t = Ok (Some t')
                            /\ read_table fs0 p = Ok t')
      /\ (forall p, p ∉ wr -> read_table fs0 p = read_table fs0 p)
      /\ (NoDup wr /\ (wr = [] -> fs0 = fs0) /\ map fst fs0 = map fst fs0)
      /\ (Err e = Ok tt ->
          forall p t, p ∈ ps -> read_table fs0 p = Ok t ->
                      contains_item item_id t = true -> p ∈ wr)).
  { intros fs0 log0 ps e. exists []. rewrite app_nil_r.
    split; [reflexivity|]. split; [intros p Hp; inversion Hp|].
    split; [reflexivity|]. split; [|discriminate].
    split; [constructor|]. split; reflexivity. }
  revert fs log. induction paths as [|file paths IH]; intros fs log Hnd; simpl.
  - intros [= <- <- <-]. exists []. rewrite app_nil_r.
    split; [reflexivity|]. split; [intros p Hp; inversion Hp|].
    split; [reflexivity|]. split; [split; [constructor|]; split; reflexivity|].
    intros _ p t Hp. inversion Hp.
  - apply NoDup_cons in Hnd as [Hfile Hnd].
    destruct (read_table fs file) as [t|] eqn:Eread; simpl;
      [|intros [= <- <- <-]; apply Hstop].
    destruct (update_table item_id annotations t) as [[t'|]|] eqn:Eupd;
      [| |intros [= <- <- <-]; apply Hstop].
    + (* the file is written *)
      intros Hrec.
      destruct (IH _ _ Hnd Hrec)
        as (wr & -> & Hwr & Hother & (Hwnd & Hnil & Hpaths) & Hall).
      assert (Hnotin : file ∉ wr).
      { intros Hin. apply Hfile. apply (Hwr _ Hin). }
      exists (file :: wr). rewrite <- app_assoc. simpl.
      split; [reflexivity|]. split; [|split; [|split]].
      * intros p Hp. apply elem_of_cons in Hp as [-> | Hin].
        -- split; [left|]. exists t, t'. split; [exact Eread|].
           split; [exact Eupd|]. rewrite (Hother _ Hnotin). apply read_write_eq.
        -- destruct (Hwr _ Hin) as (Hp & u & u' & Hu & Hupd & Hu').
           split; [right; exact Hp|]. exists u, u'.
           split; [|split; assumption].
           rewrite read_write_ne in Hu; [exact Hu|].
           intros ->. contradiction.
      * intros p Hp. apply not_elem_of_cons in Hp as [Hne Hp].
        rewrite (Hother _ Hp). apply read_write_ne. exact Hne.
      * split; [apply NoDup_cons; split; assumption|]. split; [discriminate|].
        rewrite Hpaths. apply write_table_paths. eapply read_table_in, Eread.
      * intros Hr p u Hp Hu Hc. apply elem_of_cons in Hp as [-> | Hp]; [left|].
        right. apply (Hall Hr p u Hp); [|exact Hc].
        rewrite read_write_ne; [exact Hu|]. intros ->. contradiction.
    + (* the item is not in the file *)
      intros Hrec.
      destruct (IH _ _ Hnd Hrec) as (wr & -> & Hwr & Hother & Hpaths & Hall).
      exists wr. split; [reflexivity|]. split; [|split; [|split]]; try assumption.
      * intros p Hp. destruct (Hwr _ Hp) as [Hin Hrest]. split; [right|]; assumption.
      * intros Hr p u Hp Hu Hc. apply elem_of_cons in Hp as [-> | Hp].
        -- rewrite Eread in Hu. injection Hu as <-.
           rewrite (update_table_contains _ _ _ Eupd) in Hc. discriminate.
        -- eapply Hall; eassumption.
Qed.

(** When no file holds the item, the loop over the files writes nothing. *)
Lemma update_files_no_item (item_id : string) (annotations : list ObjectAnnotation)
    (paths : list string) (fs fs' : list (string * Table))
    (log log' : list string) (r : result unit) :
  (forall p t, read_table fs p = Ok t -> contains_item item_id t = false) ->
  update_files item_id annotations paths fs log = (fs', log', r) ->
  fs' = fs /\ log' = log.
Proof.
  intros Hnone. induction paths as [|file paths IH]; simpl.
  - intros [= <- <- <-]. split; reflexivity.
  - destruct (read_table fs file) as [t|] eqn:Eread; simpl;
      [|intros [= <- <- <-]; split; reflexivity].
    destruct (update_table item_id annotations t) as [[t'|]|] eqn:Eupd.
    + apply update_table_found in Eupd. rewrite (Hnone _ _ Eread) in Eupd.
      discriminate.
    + exact IH.
    + intros [= <- <- <-]. split; reflexivity.
Qed.

(** The heap after one turn of the first loop that does not raise. *)
Lemma normalize_annotation_ok (h : gmap nat ObjectAnnotation) (l : nat)
    (a a' : ObjectAnnotation) :
  h !! l = Some a -> normalized a = Ok a' ->
  normalize_annotation h l = (<[l := a']> h, Ok tt).
Proof.
  intros Hl. unfold normalized, normalize_annotation. rewrite Hl.
  destruct (mask a) as [m|]; [|discriminate].
  destruct (from_urle m) as [rle|]; simpl; [|discriminate].
  destruct (bbox a) as [b|]; [|discriminate].
  destruct (negb (float_list_eq (coords b) zero_coords)).
  - intros [= <-]. rewrite insert_insert_eq. reflexivity.
  - destruct (to_mask rle) as [dense|]; simpl; [|discriminate].
    intros [= <-]. rewrite insert_insert_eq. reflexivity.
Qed.

Lemma normalize_annotations_ok (h : gmap nat ObjectAnnotation) (annotations : list nat) :
  NoDup annotations ->
  (forall l, l ∈ annotations ->
     exists a a', h !! l = Some a /\ normalized a = Ok a') ->
  exists h',
    normalize_annotations h annotations = (h', Ok tt)
    /\ (forall l a a', l ∈ annotations -> h !! l = Some a -> normalized a = Ok a' ->
          h' !! l = Some a')
    /\ (forall l, l ∉ annotations -> h' !! l = h !! l).
Proof.
  revert h. induction annotations as [|l rest IH]; intros h Hnd Hall; simpl.
  - exists h. split; [reflexivity|]. split; [|reflexivity].
    intros l a a' Hl. inversion Hl.
  - apply NoDup_cons in Hnd as [Hl Hnd].
    destruct (Hall l ltac:(left)) as (a & a' & Ha & Hn).
    rewrite (normalize_annotation_ok _ _ _ _ Ha Hn).
    destruct (IH (<[l := a']> h) Hnd) as (h' & Hrun & Hin & Hout).
    { intros l' Hl'. destruct (Hall l' ltac:(right; exact Hl')) as (b & b' & Hb & Hnb).
      exists b, b'. split; [|exact Hnb].
      rewrite lookup_insert_ne; [exact Hb|]. intros ->. contradiction. }
    exists h'. split; [exact Hrun|]. split.
    + intros l' b b' Hl' Hb Hnb. apply elem_of_cons in Hl' as [-> | Hl'].
      * rewrite (Hout _ Hl), lookup_insert_eq.
        rewrite Ha in Hb. injection Hb as <-. rewrite Hn in Hnb.
        injection Hnb as <-. reflexivity.
      * apply (Hin l' b b' Hl'); [|exact Hnb].
        rewrite lookup_insert_ne; [exact Hb|]. intros ->. contradiction.
    + intros l' Hl'. apply not_elem_of_cons in Hl' as [Hne Hl'].
      rewrite (Hout _ Hl'). apply lookup_insert_ne. congruence.
Qed.

(** What the first loop makes of one annotation, field by field. *)
Lemma normalized_fields (a a' : ObjectAnnotation) :
  normalized a = Ok a' ->
  exists m rle b,
    mask a = Some m /\ from_urle m = Ok rle /\ mask a' = Some rle
    /\ bbox a = Some b
    /\ (float_list_eq (coords b) zero_coords = false -> bbox a' = Some b)
    /\ (float_list_eq (coords b) zero_coords = true ->
        exists dense, to_mask rle = Ok dense /\ bbox a' = Some (from_mask dense)).
Proof.
  unfold normalized.
  destruct (mask a) as [m|]; [|discriminate].
  destruct (from_urle m) as [rle|] eqn:Er; simpl; [|discriminate].
  destruct (bbox a) as [b|]; [|discriminate].
  destruct (float_list_eq (coords b) zero_coords) eqn:Ez; simpl.
  - destruct (to_mask rle) as [dense|] eqn:Ed; simpl; [|discriminate].
    intros [= <-]. exists m, rle, b. simpl.
    split; [reflexivity|]. split; [exact Er|]. split; [reflexivity|].
    split; [reflexivity|]. split; [rewrite Ez; discriminate|].
    intros _. exists dense. split; [exact Ed | reflexivity].
  - intros [= <-]. exists m, rle, b. simpl.
    split; [reflexivity|]. split; [exact Er|]. split; [reflexivity|].
    split; [reflexivity|]. split; [reflexivity|]. rewrite Ez. discriminate.
Qed.

(** The paths the loop over the files goes through: the shard files of the
    dataset, in another order. *)
Lemma sorted_paths (paths : list string) :
  exists sorted,
    sorted_by (fun x => Ok (natural_key (path_name x))) paths = Ok sorted
    /\ sorted ≡ₚ paths.
Proof.
  unfold sorted_by.
  assert (Hk : mapM (fun x : string => Ok (natural_key (path_name x))) paths
               = Ok (map (fun x => natural_key (path_name x)) paths)).
  { induction paths as [|x paths IH]; simpl; [reflexivity|].
    rewrite IH. reflexivity. }
  rewrite Hk. simpl. eexists. split; [reflexivity|].
  rewrite sort_keyed_perm.
  change (map snd (zip (map (fun x => natural_key (path_name x)) paths) paths))
    with ((zip (map (fun x => natural_key (path_name x)) paths) paths).*2).
  rewrite snd_zip; [reflexivity|]. rewrite length_map. reflexivity.
Qed.

(** The transaction in two parts: the loop over the annotations, then, when
    that loop did not raise, the loop over the shard files of the dataset. *)
Lemma save_item_annotations_spec (dataset_dir item_id : string)
    (annotations : list nat) (w w' : World) (r : result unit) :
  save_item_annotations dataset_dir item_id annotations w = (w', r) ->
  (exists e, normalize_annotations (heap w) annotations = (heap w', Err e)
             /\ files w' = files w /\ written w' = written w /\ r = Err e)
  \/ (exists paths,
        normalize_annotations (heap w) annotations = (heap w', Ok tt)
        /\ paths ≡ₚ glob_parquet dataset_dir (files w)
        /\ update_files item_id (deref (heap w') annotations) paths
                        (files w) (written w) = (files w', written w', r)).
Proof.
  unfold save_item_annotations.
  destruct (normalize_annotations (heap w) annotations) as [h [[]|e]] eqn:En.
  - destruct (sorted_paths (glob_parquet dataset_dir (files w))) as (paths & -> & Hperm).
    destruct (update_files _ _ _ _ _) as [[fs log] r0] eqn:Eu.
    intros [= <- <-]. right. exists paths. simpl. auto.
  - intros [= <- <-]. left. exists e. simpl. auto.
Qed.

(** No id is held by two shards. *)
Lemma unique_ids_one_shard (item_id : string) (fs : list (string * Table))
    (p q : string) (t u : Table) :
  unique_ids fs -> read_table fs p = Ok t -> read_table fs q = Ok u ->
  contains_item item_id t = true -> contains_item item_id u = true -> p = q.
Proof.
  assert (Hin : forall v, contains_item item_id v = true -> VStr item_id ∈ table_ids v).
  { intros v Hv. unfold contains_item in Hv. apply existsb_exists in Hv as (x & Hx & Hi).
    destruct x; try discriminate. simpl in Hi. apply String.eqb_eq in Hi as ->.
    apply list_elem_of_In. exact Hx. }
  assert (Hrest : forall (fs0 : list (string * Table)) p0 v,
            read_table fs0 p0 = Ok v -> contains_item item_id v = true ->
            VStr item_id ∈ concat (map (fun pt => table_ids (snd pt)) fs0)).
  { intros fs0 p0 v Hr Hc. apply read_table_elem in Hr.
    apply list_elem_of_In, in_concat. exists (table_ids v). split.
    - apply in_map_iff. exists (p0, v). split; [reflexivity|].
      apply list_elem_of_In. exact Hr.
    - apply list_elem_of_In, Hin, Hc. }
  unfold unique_ids. induction fs as [|[p0 t0] fs IH]; simpl; [discriminate|].
  intros Hnd Hp Hq Ht Hu. apply NoDup_app in Hnd as (_ & Hdisj & Hnd).
  destruct (String.eqb p0 p) eqn:Ep, (String.eqb p0 q) eqn:Eq.
  - apply String.eqb_eq in Ep, Eq. congruence.
  - injection Hp as ->. exfalso. apply (Hdisj (VStr item_id)); [apply Hin, Ht|].
    eapply Hrest; eassumption.
  - injection Hq as ->. exfalso. apply (Hdisj (VStr item_id)); [apply Hin, Hu|].
    eapply Hrest; eassumption.
  - apply IH; assumption.
Qed.

End World.

End ItemsFacts.

Module TransactionFacts.
Import Geometry Core Arrow NaturalSort Items.
Import ResultFacts NaturalSortFacts ItemsFacts.

Section Transaction.
Context `{PixanoCore} `{PixanoArrow}.

(** C10: [save_item_annotations] changes the objects of the caller's list in
    place before it looks at any file. When the list names distinct objects
    and the first loop goes through each of them without raising, every
    object is left with the compressed form of its mask and, when the
    coordinates of its box were all zero, with the box of its decoded mask;
    this holds whatever happens with the files afterwards, and when no shard
    holds the item no file is written or changed. *)
Theorem annotations_mutated_in_place (dataset_dir item_id : string)
    (annotations : list nat) (w w' : World) (r : result unit) :
  NoDup annotations ->
  (forall l, l ∈ annotations ->
     exists a a', heap w !! l = Some a /\ normalized a = Ok a') ->
  save_item_annotations dataset_dir item_id annotations w = (w', r) ->
  (forall l a, l ∈ annotations -> heap w !! l = Some a ->
     exists a' m rle b,
       heap w' !! l = Some a'
       /\ a' = set_bbox (bbox a') (set_mask (Some rle) a)
       /\ mask a = Some m /\ from_urle m = Ok rle /\ mask a' = Some rle
       /\ bbox a = Some b
       /\ (float_list_eq (coords b) zero_coords = false -> bbox a' = Some b)
       /\ (float_list_eq (coords b) zero_coords = true ->
           exists dense, to_mask rle = Ok dense /\ bbox a' = Some (from_mask dense)))
  /\ (forall l, l ∉ annotations -> heap w' !! l = heap w !! l)
  /\ ((forall p t, read_table (files w) p = Ok t -> contains_item item_id t = false) ->
      files w' = files w /\ written w' = written w).
Proof.
  intros Hnd Hall Hsave.
  destruct (normalize_annotations_ok (heap w) annotations Hnd Hall)
    as (h' & Hrun & Hin & Hout).
  destruct (save_item_annotations_spec _ _ _ _ _ _ Hsave)
    as [(e & Hn & _) | (paths & Hn & Hperm & Hfiles)];
    rewrite Hrun in Hn; [discriminate|].
  injection Hn as <-.
  split; [|split; [exact Hout|]].
  - intros l a Hl Ha. destruct (Hall l Hl) as (a0 & a' & Ha0 & Hna).
    rewrite Ha in Ha0. injection Ha0 as <-.
    destruct (normalized_fields _ _ Hna) as (m & rle & b & Hm & Hrle & Hm' & Hb & Hnz & Hz).
    exists a', m, rle, b. split; [eapply Hin; eassumption|].
    split; [|repeat split; assumption].
    unfold normalized in Hna. rewrite Hm in Hna. simpl in Hna.
    rewrite Hrle in Hna. simpl in Hna. rewrite Hb in Hna.
    destruct (negb (float_list_eq (coords b) zero_coords)).
    + injection Hna as <-. reflexivity.
    + destruct (to_mask rle); simpl in Hna; [|discriminate].
      injection Hna as <-. reflexivity.
  - intros Hnone. destruct (update_files_no_item _ _ _ _ _ _ _ _ Hnone Hfiles).
    split; assumption.
Qed.

(** What the transaction does to the files, from the two loops: the paths
    written are shard files of the dataset, each written once with the table
    built from what it held; the other files keep what they held; the list
    of the files stays as it was. *)
Lemma save_files_spec (dataset_dir item_id : string)
    (annotations : list nat) (w w' : World) (r : result unit) :
  NoDup (map fst (files w)) ->
  save_item_annotations dataset_dir item_id annotations w = (w', r) ->
  exists wr,
    written w' = written w ++ wr
    /\ NoDup wr
    /\ map fst (files w') = map fst (files w)
    /\ (forall p, p ∈ wr ->
          p ∈ glob_parquet dataset_dir (files w)
          /\ exists t t', read_table (files w) p = Ok t
                          /\ update_table item_id (deref (heap w') annotations) t
                             = Ok (Some t')
                          /\ read_table (files w') p = Ok t')
    /\ (forall p, p ∉ wr -> read_table (files w') p = read_table (files w) p)
    /\ (r = Ok tt ->
        forall p t, p ∈ glob_parquet dataset_dir (files w) ->
                    read_table (files w) p = Ok t ->
                    contains_item item_id t = true -> p ∈ wr).
Proof.
  intros Hnd Hsave.
  destruct (save_item_annotations_spec _ _ _ _ _ _ Hsave)
    as [(e & _ & Hf & Hw & ->) | (paths & _ & Hperm & Hfiles)].
  - exists []. rewrite app_nil_r, Hf, Hw.
    split; [reflexivity|]. split; [constructor|]. split; [reflexivity|].
    split; [intros p Hp; inversion Hp|]. split; [reflexivity | discriminate].
  - assert (Hpnd : NoDup paths).
    { rewrite Hperm. apply glob_parquet_NoDup, Hnd. }
    destruct (update_files_spec _ _ _ _ _ _ _ _ Hpnd Hfiles)
      as (wr & Hlog & Hwr & Hother & (Hwnd & _ & Hpaths) & Hall).
    exists wr. split; [exact Hlog|]. split; [exact Hwnd|]. split; [exact Hpaths|].
    split; [|split; [exact Hother|]].
    + intros p Hp. destruct (Hwr _ Hp) as [Hin Hrest].
      split; [rewrite <- Hperm; exact Hin | exact Hrest].
    + intros Hr p t Hp. apply (Hall Hr). rewrite Hperm. exact Hp.
Qed.

(** C2 (as amended): a shard is rewritten by one [pq.write_table] call on
    the path of the shard itself, once its new table has been built in full:
    every path written is the path of a shard file that was there before the
    call, the file then holds the new table, no file is added to or taken
    from the directory (there is no temporary file and no renaming), and a
    file that is not written, be it because the item is not in it or because
    building its table raised, keeps what it held. *)
Theorem shards_written_in_place (dataset_dir item_id : string)
    (annotations : list nat) (w w' : World) (r : result unit) :
  NoDup (map fst (files w)) ->
  save_item_annotations dataset_dir item_id annotations w = (w', r) ->
  exists wr,
    written w' = written w ++ wr
    /\ map fst (files w') = map fst (files w)
    /\ (forall p, p ∈ wr ->
          p ∈ map fst (files w)
          /\ exists t t', read_table (files w) p = Ok t
                          /\ update_table item_id (deref (heap w') annotations) t
                             = Ok (Some t')
                          /\ read_table (files w') p = Ok t')
    /\ (forall p, p ∉ wr -> read_table (files w') p = read_table (files w) p).
Proof.
  intros Hnd Hsave.
  destruct (save_files_spec _ _ _ _ _ _ Hnd Hsave)
    as (wr & Hlog & _ & Hpaths & Hwr & Hother & _).
  exists wr. split; [exact Hlog|]. split; [exact Hpaths|]. split; [|exact Hother].
  intros p Hp. destruct (Hwr _ Hp) as [Hin Hrest].
  split; [eapply glob_parquet_in; exact Hin | exact Hrest].
Qed.

(** C4: over shards with unique item ids, a call rewrites at most one shard
    file, a shard of the dataset that holds the item; every other file keeps
    what it held; and when the call returns, the shard that holds the item,
    if there is one, is the one rewritten. *)
Theorem at_most_one_shard_rewritten (dataset_dir item_id : string)
    (annotations : list nat) (w w' : World) (r : result unit) :
  NoDup (map fst (files w)) ->
  unique_ids (files w) ->
  save_item_annotations dataset_dir item_id annotations w = (w', r) ->
  exists wr,
    written w' = written w ++ wr
    /\ (length wr <= 1)%nat
    /\ (forall p, p ∈ wr ->
          p ∈ glob_parquet dataset_dir (files w)
          /\ exists t, read_table (files w) p = Ok t
                       /\ contains_item item_id t = true)
    /\ (forall p, p ∉ wr -> read_table (files w') p = read_table (files w) p)
    /\ (r = Ok tt ->
        forall p t, p ∈ glob_parquet dataset_dir (files w) ->
                    read_table (files w) p = Ok t ->
                    contains_item item_id t = true -> wr = [p]).
Proof.
  intros Hnd Huniq Hsave.
  destruct (save_files_spec _ _ _ _ _ _ Hnd Hsave)
    as (wr & Hlog & Hwnd & _ & Hwr & Hother & Hall).
  assert (Hholds : forall p, p ∈ wr ->
            exists t, read_table (files w) p = Ok t /\ contains_item item_id t = true).
  { intros p Hp. destruct (Hwr _ Hp) as (_ & t & t' & Ht & Hu & _).
    exists t. split; [exact Ht|]. eapply update_table_found, Hu. }
  assert (Hone : forall p q, p ∈ wr -> q ∈ wr -> p = q).
  { intros p q Hp Hq.
    destruct (Hholds _ Hp) as (t & Ht & Hct), (Hholds _ Hq) as (u & Hu & Hcu).
    eapply unique_ids_one_shard; eassumption. }
  assert (Hlen : (length wr <= 1)%nat).
  { destruct wr as [|p [|q wr]]; simpl; try lia.
    exfalso. apply NoDup_cons in Hwnd as [Hp _]. apply Hp.
    rewrite (Hone p q) by (repeat constructor). left. }
  exists wr. split; [exact Hlog|]. split; [exact Hlen|].
  split; [|split; [exact Hother|]].
  - intros p Hp. split; [apply (Hwr _ Hp) | apply (Hholds _ Hp)].
  - intros Hr p t Hp Ht Hc. pose proof (Hall Hr p t Hp Ht Hc) as Hin.
    destruct wr as [|q [|q' wr]]; simpl in Hlen; try lia.
    + inversion Hin.
    + apply list_elem_of_singleton in Hin as ->. reflexivity.
Qed.

(** C3: when the transaction returns, a shard file of the dataset in which
    the item had its one row holds a table whose ids are sorted in natural
    order, which has as many rows as before in every column, and whose
    columns are all reordered by one and the same permutation of the rows:
    every column is the column of that name as it was read, with the item's
    cell put back, taken in the order of the sort of the ids and encoded for
    its field. *)
Theorem rewritten_shard_sorted (dataset_dir item_id : string)
    (annotations : list nat) (w w' : World) (p : string) (t : Table) :
  NoDup (map fst (files w)) ->
  save_item_annotations dataset_dir item_id annotations w = (w', Ok tt) ->
  p ∈ glob_parquet dataset_dir (files w) ->
  read_table (files w) p = Ok t ->
  table_wf t ->
  length (List.filter (is_item item_id) (table_ids t)) = 1%nat ->
  exists t' ids' keys' order upd,
    read_table (files w') p = Ok t'
    /\ id_column t' = Ok ids'
    /\ mapM id_key ids' = Ok keys'
    /\ StronglySorted key_le keys'
    /\ num_rows t' = num_rows t
    /\ length (columns t') = length (schema t')
    /\ Forall (fun c => length c = num_rows t) (columns t')
    /\ order ≡ₚ seq 0 (num_rows t)
    /\ ids' = reorder order
                (put_back item_id (table_ids t) (table_ids t) (VStr item_id))
    /\ forall j f, schema t' !! j = Some f ->
         exists col0 v col',
           table_column t (fname f) = Some col0
           /\ (if String.eqb (fname f) "objects"
               then v = VList (map VObject (deref (heap w') annotations))
               else item_cell item_id (table_ids t) col0 = Some v)
           /\ columns t' !! j = Some col'
           /\ encode_column upd f
                (reorder order (put_back item_id (table_ids t) col0 v)) = Ok col'.
Proof.
  intros Hnd Hsave Hp Ht Hwf Hone.
  pose proof (filter_one_exists _ _ Hone) as Hcontains.
  fold (contains_item item_id t) in Hcontains.
  destruct (save_files_spec _ _ _ _ _ _ Hnd Hsave)
    as (wr & _ & _ & _ & Hwr & _ & Hall).
  pose proof (Hall eq_refl p t Hp Ht Hcontains) as Hin.
  destruct (Hwr _ Hin) as (_ & t0 & t' & Ht0 & Hupd & Ht').
  rewrite Ht in Ht0. injection Ht0 as <-.
  destruct (update_table_spec _ _ _ _ Hwf Hupd)
    as (ids & keys & upd & Hid & Hfound & Hkeys & _ & Hnd' & Hlen & Hrows & Hid' & Hcols).
  rewrite (table_ids_ok _ _ Hid) in *.
  destruct (sort_keyed_keys_sorted id_key _ _ Hkeys) as (keys' & Hkeys' & Hsorted).
  assert (Hklen : length keys = num_rows t).
  { rewrite (mapM_length _ _ _ Hkeys), (put_back_length _ _ _ _ eq_refl Hone).
    apply id_column_length; assumption. }
  assert (Hrows' : num_rows t' = num_rows t).
  { destruct (id_column_spec _ _ Hid') as (k & f & _ & _ & _ & Hc).
    rewrite <- (Forall_lookup_1 _ _ _ _ Hrows Hc), reorder_length.
    - rewrite (Permutation_length (sort_order_perm keys)), length_seq. exact Hklen.
    - rewrite <- (mapM_length _ _ _ Hkeys). apply sort_order_bound. }
  exists t', (reorder (sort_order keys) (put_back item_id ids ids (VStr item_id))),
         keys', (sort_order keys), upd.
  split; [exact Ht'|]. split; [exact Hid'|]. split; [exact Hkeys'|].
  split; [exact Hsorted|]. split; [exact Hrows'|]. split; [exact Hlen|].
  split; [rewrite <- Hrows'; exact Hrows|].
  split; [rewrite <- Hklen; apply sort_order_perm|].
  split; [reflexivity | exact Hcols].
Qed.

End Transaction.

(** ** The transaction on two shards *)

Import Reference Scenario.

Lemma scenario_paths_NoDup (b : option BBox) : NoDup (map fst (files (world_of b))).
Proof. apply (bool_decide_unpack _). vm_compute. exact I. Qed.

Lemma scenario_shard_1 (b : option BBox) :
  "/data/ds/db/train/shard_1.parquet" ∈ glob_parquet "/data/ds" (files (world_of b)).
Proof. apply (bool_decide_unpack _). vm_compute. exact I. Qed.

Lemma scenario_unique_ids (b : option BBox) : unique_ids (files (world_of b)).
Proof.
  assert (Hinj : Inj eq eq VStr) by (intros x y [= ->]; reflexivity).
  apply (NoDup_fmap_2 VStr
           ["img_6"; "img_7"; "img_8"; "img_9"; "img_10";
            "img_1"; "img_2"; "img_3"; "img_4"; "img_5"]).
  apply (bool_decide_unpack _). vm_compute. exact I.
Qed.

Lemma shard_1_wf : table_wf shard_1.
Proof.
  split; [reflexivity|]. split; [repeat constructor|].
  split; [apply (bool_decide_unpack _); vm_compute; exact I|].
  repeat constructor; intros Hx; try reflexivity; vm_compute in Hx; discriminate.
Qed.

Lemma scenario_annotation_ok :
  forall l, l ∈ [0%nat] ->
    exists a a', heap (world_of (Some empty_bbox)) !! l = Some a /\ normalized a = Ok a'.
Proof.
  intros l Hl. apply list_elem_of_singleton in Hl as ->.
  exists (new_annotation (Some empty_bbox)). eexists. split; [reflexivity|].
  vm_compute. reflexivity.
Qed.

Lemma scenario_saved :
  save_item_annotations "/data/ds" "img_7" [0%nat] (world_of (Some empty_bbox))
  = (fst (saved (Some empty_bbox)), Ok tt).
Proof. vm_compute. reflexivity. Qed.

Lemma scenario_no_img_42 (b : option BBox) :
  forall p t, read_table (files (world_of b)) p = Ok t -> contains_item "img_42" t = false.
Proof.
  intros p t Ht. apply read_table_elem in Ht.
  repeat (apply elem_of_cons in Ht as [[= -> ->] | Ht]; [reflexivity|]).
  inversion Ht.
Qed.

(** A call for an item that no shard holds leaves the files as they were. *)
Lemma annotations_mutated_in_place_witness :
  let w := world_of (Some empty_bbox) in
  let w' := fst (save_item_annotations "/data/ds" "img_42" [0%nat] w) in
  files w' = files w /\ written w' = written w.
Proof.
  exact (proj2 (proj2 (annotations_mutated_in_place "/data/ds" "img_42" [0%nat]
                         (world_of (Some empty_bbox)) _ _
                         (NoDup_singleton 0%nat) scenario_annotation_ok
                         (surjective_pairing _)))
               (scenario_no_img_42 _)).
Defined.

(** The call for [img_7] leaves the directory with the two files it had. *)
Lemma shards_written_in_place_witness :
  map fst (files (fst (saved (Some empty_bbox))))
  = map fst (files (world_of (Some empty_bbox))).
Proof.
  destruct (shards_written_in_place "/data/ds" "img_7" [0%nat]
              (world_of (Some empty_bbox)) _ _
              (scenario_paths_NoDup _) (surjective_pairing _))
    as (wr & _ & Hpaths & _).
  exact Hpaths.
Defined.

(** C2, against the claim: the one call of [pq.write_table] that the
    transaction makes for [img_7] is on the path of the shard itself; no
    other path is written and the directory holds the same two paths after
    the call, so there is no temporary file and nothing is renamed. *)
Lemma shard_written_on_its_own_path :
  written (fst (saved (Some empty_bbox))) = ["/data/ds/db/train/shard_1.parquet"]
  /\ map fst (files (fst (saved (Some empty_bbox))))
     = ["/data/ds/db/train/shard_1.parquet"; "/data/ds/db/train/shard_0.parquet"]
  /\ read_table (files (fst (saved (Some empty_bbox))))
       "/data/ds/db/train/shard_1.parquet"
     <> read_table (files (world_of (Some empty_bbox)))
          "/data/ds/db/train/shard_1.parquet".
Proof.
  split; [vm_compute; reflexivity|]. split; [vm_compute; reflexivity|].
  vm_compute. discriminate.
Qed.

(** The call for [img_7] writes the second shard and no other file. *)
Lemma at_most_one_shard_rewritten_witness :
  written (fst (saved (Some empty_bbox)))
  = written (world_of (Some empty_bbox)) ++ ["/data/ds/db/train/shard_1.parquet"].
Proof.
  destruct (at_most_one_shard_rewritten "/data/ds" "img_7" [0%nat]
              (world_of (Some empty_bbox)) _ _
              (scenario_paths_NoDup _) (scenario_unique_ids _) scenario_saved)
    as (wr & Hlog & _ & _ & _ & Hone).
  rewrite Hlog.
  rewrite (Hone eq_refl "/data/ds/db/train/shard_1.parquet" shard_1
             (scenario_shard_1 _) eq_refl eq_refl).
  reflexivity.
Defined.

(** The second shard after the call for [img_7]: sorted ids, five rows. *)
Lemma rewritten_shard_sorted_witness :
  exists t' ids' keys',
    read_table (files (fst (saved (Some empty_bbox))))
      "/data/ds/db/train/shard_1.parquet" = Ok t'
    /\ id_column t' = Ok ids'
    /\ mapM id_key ids' = Ok keys'
    /\ StronglySorted key_le keys'
    /\ num_rows t' = 5%nat.
Proof.
  destruct (rewritten_shard_sorted "/data/ds" "img_7" [0%nat]
              (world_of (Some empty_bbox)) _
              "/data/ds/db/train/shard_1.parquet" shard_1
              (scenario_paths_NoDup _) scenario_saved (scenario_shard_1 _)
              eq_refl shard_1_wf eq_refl)
    as (t' & ids' & keys' & order & upd & Ht' & Hid' & Hkeys' & Hsorted & Hrows & _).
  exists t', ids', keys'.
  split; [exact Ht'|]. split; [exact Hid'|]. split; [exact Hkeys'|].
  split; [exact Hsorted | exact Hrows].
Defined.

(** C1 on the code: an incoming annotation for [img_7] that has a URLE mask
    and no bounding box ([bbox] is None) makes the call raise
    [AttributeError] on [ann.bbox.coords] in the first loop, although the
    item is in the second shard. The caller's object has its mask replaced
    by the compressed form and still has no bounding box; no file is
    written and the files keep what they held, so nothing is stored for the
    item and no bounding box is made from the mask. *)
Theorem missing_bbox_raises :
  bbox (new_annotation None) = None
  /\ mask (new_annotation None) = Some urle_mask
  /\ contains_item "img_7" shard_1 = true
  /\ snd (saved None) = Err (AttributeError "coords")
  /\ (exists rle, from_urle urle_mask = Ok rle
        /\ heap (fst (saved None)) !! 0%nat
           = Some (set_mask (Some rle) (new_annotation None)))
  /\ written (fst (saved None)) = []
  /\ files (fst (saved None)) = files (world_of None).
Proof.
  split; [reflexivity|]. split; [reflexivity|]. split; [reflexivity|].
  split; [vm_compute; reflexivity|].
  split; [eexists; split; vm_compute; reflexivity|].
  split; vm_compute; reflexivity.
Qed.

End TransactionFacts.

(** ** Laws of the conversions of [BBox] *)

Module BBoxLaws.
Import Geometry.

(** X1: a box that [to_xyxy] returns is left as it is by [to_xyxy], and a box
    that [to_xywh] returns by [to_xywh]; neither result is predicted, as the
    conversions do not pass the confidence on. *)
Theorem conversions_idempotent (b b' : BBox) :
  (to_xyxy b = Ok b' -> to_xyxy b' = Ok b' /\ is_predicted b' = false)
  /\ (to_xywh b = Ok b' -> to_xywh b' = Ok b' /\ is_predicted b' = false).
Proof.
  split; unfold to_xyxy, to_xywh.
  - destruct (xyxy_coords b) as [c|]; simpl; [|discriminate].
    intros [= <-]. split; reflexivity.
  - destruct (xywh_coords b) as [c|]; simpl; [|discriminate].
    intros [= <-]. split; reflexivity.
Qed.
Lemma conversions_idempotent_witness :
  to_xyxy (mkBBox [1%float; 2%float; 4%float; 6%float] "xyxy" (Some false) None)
  = Ok (mkBBox [1%float; 2%float; 4%float; 6%float] "xyxy" (Some false) None).
Proof.
  exact (proj1 (proj1 (conversions_idempotent
                         (mkBBox [1%float; 2%float; 4%float; 6%float] "xyxy"
                                 (Some false) (Some 0.5%float))
                         (mkBBox [1%float; 2%float; 4%float; 6%float] "xyxy"
                                 (Some false) None))
                      eq_refl)).
Defined.

End BBoxLaws.

(** ** Laws of [convert_field] *)

Module ConverterLaws.
Import Geometry Core Arrow ArrowShape ResultFacts ArrowFacts.

Lemma DataType_nested_ind (P : DataType -> Prop) :
  P pa_null -> P pa_bool -> P pa_int32 -> P pa_int64 -> P pa_float32 ->
  P pa_float64 -> P pa_string -> P pa_binary ->
  (forall v, P v -> P (pa_list v)) ->
  (forall v n, P v -> P (pa_fixed_size_list v n)) ->
  (forall fs, Forall (fun f => P (snd f)) fs -> P (pa_struct fs)) ->
  (forall n c st, P st -> P (pa_extension n c st)) ->
  forall t, P t.
Proof.
  intros Hnull Hbool Hi32 Hi64 Hf32 Hf64 Hstr Hbin Hlist Hfsl Hstruct Hext.
  fix IH 1. intros [| | | | | | | |v|v n|fs|n c st]; try assumption.
  - apply Hlist, IH.
  - apply Hfsl, IH.
  - apply Hstruct. induction fs as [|f fs IHfs]; constructor; [apply IH | exact IHfs].
  - apply Hext, IH.
Qed.

Lemma pa_array_typed_shape (data : list value) (t : DataType) (arr : Array) :
  pa_array_typed data t = Ok arr -> arr_type arr = t /\ arr_len arr = length data.
Proof.
  unfold pa_array_typed.
  destruct (mapM (typed_value t) data) as [data'|] eqn:E; simpl; [|discriminate].
  intros [= <-]. split; [reflexivity|]. apply (mapM_length _ _ _ E).
Qed.

Lemma running_total_length (start : nat) (lens : list nat) :
  length (running_total start lens) = S (length lens).
Proof.
  revert start. induction lens as [|n lens IH]; intros start; simpl;
    [reflexivity | rewrite IH; reflexivity].
Qed.

Lemma list_rows_running_total (start : nat) (lens : list nat) (vals : list value) :
  list_rows (running_total start lens) vals
  = match lens with
    | [] => []
    | n :: lens' =>
        VList (take n (drop start vals))
        :: list_rows (running_total (start + n) lens') vals
    end.
Proof.
  destruct lens as [|n lens]; [reflexivity|].
  simpl. destruct lens as [|m lens]; simpl;
    replace (start + n - start)%nat with n by lia; reflexivity.
Qed.

Lemma list_rows_length (start : nat) (lens : list nat) (vals : list value) :
  length (list_rows (running_total start lens) vals) = length lens.
Proof.
  revert start. induction lens as [|n lens IH]; intros start;
    rewrite list_rows_running_total; [reflexivity|].
  simpl. rewrite IH. reflexivity.
Qed.

(** Row [i] of the list array built on the running totals of [lens]: the
    values from the total of the lengths before [i] on. *)
Lemma list_rows_lookup (start : nat) (lens : list nat) (vals : list value)
    (i n : nat) :
  lens !! i = Some n ->
  list_rows (running_total start lens) vals !! i
  = Some (VList (take n (drop (start + sum_list (take i lens)) vals))).
Proof.
  revert start i. induction lens as [|m lens IH]; intros start i Hi;
    [destruct i; discriminate|].
  rewrite list_rows_running_total. destruct i as [|i]; simpl in Hi |- *.
  - injection Hi as ->. rewrite Nat.add_0_r. reflexivity.
  - rewrite (IH _ _ Hi), Nat.add_assoc. reflexivity.
Qed.

Lemma to_numpy_length (a : Array) : length (to_numpy a) = arr_len a.
Proof.
  unfold to_numpy, arr_len.
  destruct (is_numeric (arr_type a) && existsb is_none (arr_data a));
    [apply length_map | reflexivity].
Qed.

Lemma convert_subfields_shape
    (conv : string -> DataType -> list value -> result Array)
    (field_name : string) (native_arr : Array) (fs : list (string * DataType))
    (arrays : list Array) :
  Forall (fun f => forall name data arr,
            conv name (snd f) data = Ok arr ->
            arr_type arr = snd f /\ arr_len arr = length data) fs ->
  convert_subfields conv field_name native_arr fs = Ok arrays ->
  Forall2 (fun f c => arr_type c = snd f /\ arr_len c = arr_len native_arr)
          fs arrays.
Proof.
  intros Hconv. revert arrays.
  induction Hconv as [|[n t] fs Hf _ IH]; intros arrays; simpl.
  - intros [= <-]. constructor.
  - unfold field. destruct (arr_type native_arr) as [| | | | | | | | | |tfs|];
      simpl; try discriminate.
    destruct (field_type tfs n) as [ty|]; simpl; [|discriminate].
    destruct (conv _ t _) as [converted|] eqn:Ec; simpl; [|discriminate].
    destruct (convert_subfields conv field_name native_arr fs) as [rest|];
      simpl; [|discriminate].
    intros [= <-]. constructor; [|apply IH; reflexivity].
    destruct (Hf _ _ _ Ec) as [Hty Hlen]. simpl in *. split; [exact Hty|].
    rewrite Hlen, to_numpy_length. unfold arr_len. simpl. apply length_map.
Qed.

(** The array a conversion returns has the target type and one row for
    every value of the column. *)
Lemma convert_field_shape (t : DataType) :
  forall (field_name : string) (data : list value) (arr : Array),
    declares_fields t = true ->
    convert_field field_name t data = Ok arr ->
    arr_type arr = t /\ arr_len arr = length data.
Proof.
  induction t as [| | | | | | | |v IH|v n IH|fs IH|n c st IH]
    using DataType_nested_ind;
    intros field_name data arr Hdecl; simpl;
    try (apply pa_array_typed_shape).
  - (* list *)
    unfold pa_array.
    destruct (infer_types data) as [ty|]; simpl; [|discriminate].
    unfold is_null_array, offsets, values. simpl.
    destruct ty; simpl; try discriminate.
    + intros [= <-]. split; [reflexivity|]. unfold arr_len. simpl.
      apply length_replicate.
    + destruct (convert_field _ v _) as [converted|] eqn:Ec; simpl; [|discriminate].
      intros [= <-]. destruct (IH _ _ _ Hdecl Ec) as [Hty _].
      split; [simpl; rewrite Hty; reflexivity|].
      unfold arr_len. simpl. rewrite list_rows_length. apply length_map.
  - (* struct *)
    simpl in Hdecl. apply andb_prop in Hdecl as [Hne Hall].
    unfold pa_array.
    destruct (infer_types data) as [ty|]; simpl; [|discriminate].
    unfold is_null_array. simpl.
    destruct (match ty with pa_null => true | _ => false end) eqn:Enull.
    + intros [= <-]. split; [reflexivity|]. unfold arr_len. simpl.
      apply length_replicate.
    + destruct (convert_subfields convert_field field_name (mkArray ty data) fs)
        as [arrays|] eqn:Es; simpl; [|discriminate].
      assert (Hshape : Forall2 (fun f c => arr_type c = snd f
                                           /\ arr_len c = length data) fs arrays).
      { apply (convert_subfields_shape convert_field field_name
                 (mkArray ty data) fs arrays); [|exact Es].
        rewrite forallb_forall in Hall. rewrite Forall_forall in IH |- *.
        intros f Hf name d a. apply IH; [exact Hf|].
        apply Hall. apply list_elem_of_In. exact Hf. }
      unfold StructArray_from_arrays.
      destruct (forallb _ arrays); [|discriminate].
      intros [= <-]. split; [reflexivity|]. unfold arr_len at 1. simpl.
      rewrite length_map, length_seq.
      destruct Hshape as [|f c fs' arrays' [_ Hc] _]; [discriminate|]. exact Hc.
  - (* extension *)
    destruct (pa_array_typed data st) as [storage|] eqn:E; simpl; [|discriminate].
    intros [= <-]. split; [reflexivity|].
    apply (pa_array_typed_shape _ _ _ E).
Qed.

Lemma mapM_typed_nulls (t : DataType) (n : nat) :
  mapM (typed_value t) (replicate n VNone) = Ok (replicate n VNone).
Proof.
  assert (Hnone : typed_value t VNone = Ok VNone) by (destruct t; reflexivity).
  induction n as [|n IH]; [reflexivity|].
  change (replicate (S n) VNone) with (VNone :: replicate n VNone).
  change (mapM (typed_value t) (VNone :: replicate n VNone))
    with (typed_value t VNone ≫= fun y =>
          mapM (typed_value t) (replicate n VNone) ≫= fun ys => Ok (y :: ys)).
  rewrite Hnone, IH. reflexivity.
Qed.

Lemma infer_types_nulls (n : nat) : infer_types (replicate n VNone) = Ok pa_null.
Proof.
  unfold infer_types. induction n as [|n IH]; simpl; [reflexivity|].
  rewrite IH. reflexivity.
Qed.

Lemma infer_type_null_inv (v : value) : infer_type v = Ok pa_null -> v = VNone.
Proof.
  destruct v as [| | | | | |l|d| |]; simpl; try discriminate; [reflexivity| |].
  - destruct (infer_items infer_type l); discriminate.
  - destruct (infer_entries infer_type d); discriminate.
Qed.

Lemma infer_types_null_inv (data : list value) :
  infer_types data = Ok pa_null -> Forall (fun v => v = VNone) data.
Proof.
  unfold infer_types. induction data as [|v data IH]; simpl; [constructor|].
  destruct (infer_type v) as [tv|] eqn:Ev; simpl; [|discriminate].
  destruct (infer_items infer_type data) as [tl|]; simpl; [|discriminate].
  intros Hu. apply unify_null_inv in Hu as [-> ->].
  constructor; [apply infer_type_null_inv, Ev | apply IH; reflexivity].
Qed.

Lemma length_concat_map {A B : Type} (f : A -> list B) (l : list A) :
  length (concat (map f l)) = sum_list (map (fun x => length (f x)) l).
Proof.
  induction l as [|x l IH]; simpl; [reflexivity|].
  rewrite length_app, IH. reflexivity.
Qed.

Lemma sum_list_take_lookup (lens : list nat) (i n : nat) :
  lens !! i = Some n -> (sum_list (take i lens) + n <= sum_list lens)%nat.
Proof.
  revert i. induction lens as [|m lens IH]; intros [|i]; simpl; try discriminate.
  - intros [= ->]. lia.
  - intros Hi. specialize (IH _ Hi). lia.
Qed.

Lemma struct_row_keys (names : list string) (children : list Array) (i : nat) :
  length children = length names ->
  exists d, struct_row names children i = VDict d /\ map fst d = names.
Proof.
  intros Hlen. unfold struct_row. eexists. split; [reflexivity|].
  revert children Hlen. induction names as [|n names IH]; intros [|c children];
    simpl; try discriminate; [reflexivity|].
  intros [= Hlen]. rewrite (IH _ Hlen). reflexivity.
Qed.

(** X2: the array [convert_field] returns has the target type and as many
    rows as the column it was given, for every target type whose structs
    declare a field. *)
Theorem convert_field_type_and_length (field_name : string) (t : DataType)
    (data : list value) (arr : Array) :
  declares_fields t = true ->
  convert_field field_name t data = Ok arr ->
  arr_type arr = t /\ length (arr_data arr) = length data.
Proof. apply convert_field_shape. Qed.

Lemma convert_field_type_and_length_witness :
  exists arr,
    convert_field "features" (pa_list (pa_struct [("label", pa_string)]))
      [VList [VDict [("label", VStr "cat")]; VDict [("label", VStr "dog")]]; VNone]
    = Ok arr
    /\ arr_type arr = pa_list (pa_struct [("label", pa_string)])
    /\ length (arr_data arr) = 2%nat.
Proof.
  eexists. split; [reflexivity|].
  apply (convert_field_type_and_length "features"
           (pa_list (pa_struct [("label", pa_string)]))
           [VList [VDict [("label", VStr "cat")]; VDict [("label", VStr "dog")]]; VNone]
           _ eq_refl eq_refl).
Defined.

(** X3: a column of [n] values that are all [None] converts to [n] nulls of
    the target type, whatever the target type: the list and struct branches
    do not look at the declared items or fields then, and the empty column
    converts to the empty array. *)
Theorem convert_field_all_none (field_name : string) (t : DataType) (n : nat) :
  convert_field field_name t (replicate n VNone) = Ok (pa_nulls n t).
Proof.
  assert (Htyped : forall ty, pa_array_typed (replicate n VNone) ty = Ok (pa_nulls n ty)).
  { intros ty. unfold pa_array_typed. rewrite mapM_typed_nulls. reflexivity. }
  assert (Hnative : pa_array (replicate n VNone) = Ok (mkArray pa_null (replicate n VNone))).
  { unfold pa_array. rewrite infer_types_nulls. reflexivity. }
  destruct t; simpl; rewrite ?Htyped, ?Hnative; simpl;
    unfold pa_nulls, arr_len; simpl; rewrite ?length_replicate; reflexivity.
Qed.

(** X4: in a list column that holds a list, every row of the converted array
    is a list with as many items as the row of the column had; a row that
    is [None] comes out as the empty list, not as a null. *)
Theorem convert_field_list_rows (field_name : string) (t : DataType)
    (data : list value) (arr : Array) (i : nat) (row : value) :
  declares_fields t = true ->
  convert_field field_name (pa_list t) data = Ok arr ->
  (exists j l, data !! j = Some (VList l)) ->
  data !! i = Some row ->
  exists items,
    arr_data arr !! i = Some (VList items)
    /\ length items = length (row_items row)
    /\ (row = VNone -> items = []).
Proof.
  intros Hdecl Hconv (j & l & Hj) Hi. simpl in Hconv. unfold pa_array in Hconv.
  destruct (infer_types data) as [ty|] eqn:Ety; simpl in Hconv; [|discriminate].
  unfold is_null_array, offsets, values in Hconv. simpl in Hconv.
  destruct ty as [| | | | | | | |ty| | |]; simpl in Hconv; try discriminate.
  - apply infer_types_null_inv in Ety.
    pose proof (Forall_lookup_1 _ _ _ _ Ety Hj). discriminate.
  - destruct (convert_field _ t _) as [converted|] eqn:Ec; simpl in Hconv;
      [|discriminate].
    injection Hconv as <-. simpl.
    destruct (convert_field_shape _ _ _ _ Hdecl Ec) as [_ Hlen].
    rewrite to_numpy_length in Hlen. unfold arr_len in Hlen. simpl in Hlen.
    rewrite length_concat_map in Hlen.
    set (lens := map (fun r => length (row_items r)) data) in *.
    assert (Hn : lens !! i = Some (length (row_items row))).
    { unfold lens. rewrite list_lookup_fmap, Hi. reflexivity. }
    rewrite (list_rows_lookup _ _ _ _ _ Hn). simpl.
    pose proof (sum_list_take_lookup _ _ _ Hn) as Hsum.
    eexists. split; [reflexivity|].
    assert (Hitems : length (take (length (row_items row))
                               (drop (sum_list (take i lens)) (arr_data converted)))
                     = length (row_items row)).
    { rewrite length_take, length_drop. lia. }
    split; [exact Hitems|].
    intros ->. simpl. reflexivity.
Qed.

Lemma convert_field_list_rows_witness :
  exists arr,
    convert_field "tags" (pa_list pa_string) [VList [VStr "a"; VStr "b"]; VNone]
    = Ok arr
    /\ arr_data arr !! 1%nat = Some (VList []).
Proof.
  eexists. split; [reflexivity|].
  destruct (convert_field_list_rows "tags" pa_string
              [VList [VStr "a"; VStr "b"]; VNone] _ 1 VNone eq_refl eq_refl
              (ex_intro _ 0%nat (ex_intro _ [VStr "a"; VStr "b"] eq_refl)) eq_refl)
    as (items & Hrow & _ & Hnone).
  rewrite Hrow, (Hnone eq_refl). reflexivity.
Defined.

(** X5: in a struct column that holds a dictionary, every row of the
    converted array is a dictionary with the declared fields, in the
    declared order; a row that is [None] comes out as such a dictionary too,
    not as a null. *)
Theorem convert_field_struct_rows (field_name : string)
    (fields : list (string * DataType)) (data : list value) (arr : Array)
    (i : nat) (row : value) :
  convert_field field_name (pa_struct fields) data = Ok arr ->
  (exists j d, data !! j = Some (VDict d)) ->
  data !! i = Some row ->
  declares_fields (pa_struct fields) = true ->
  exists d, arr_data arr !! i = Some (VDict d) /\ map fst d = map fst fields.
Proof.
  intros Hconv (j & dj & Hj) Hi Hdecl. simpl in Hconv. unfold pa_array in Hconv.
  destruct (infer_types data) as [ty|] eqn:Ety; simpl in Hconv; [|discriminate].
  unfold is_null_array in Hconv. simpl in Hconv.
  destruct (match ty with pa_null => true | _ => false end) eqn:Enull.
  { destruct ty; try discriminate. apply infer_types_null_inv in Ety.
    pose proof (Forall_lookup_1 _ _ _ _ Ety Hj). discriminate. }
  destruct (convert_subfields convert_field field_name (mkArray ty data) fields)
    as [arrays|] eqn:Es; simpl in Hconv; [|discriminate].
  simpl in Hdecl. apply andb_prop in Hdecl as [Hne Hall].
  assert (Hshape : Forall2 (fun f c => arr_type c = snd f
                                       /\ arr_len c = length data) fields arrays).
  { apply (convert_subfields_shape convert_field field_name
             (mkArray ty data) fields arrays); [|exact Es].
    rewrite forallb_forall in Hall. apply Forall_forall.
    intros f Hf name d a. apply convert_field_shape.
    apply Hall. apply list_elem_of_In. exact Hf. }
  unfold StructArray_from_arrays in Hconv.
  destruct (forallb _ arrays); [|discriminate].
  injection Hconv as <-. simpl.
  assert (Hn : match arrays with [] => 0%nat | c :: _ => arr_len c end = length data).
  { destruct Hshape as [|f c fs' arrays' [_ Hc] _]; [discriminate Hne | exact Hc]. }
  rewrite Hn, list_lookup_fmap, lookup_seq_lt by (eapply lookup_lt_Some, Hi).
  simpl. destruct (struct_row_keys (map fst fields) arrays i) as (d & -> & Hd).
  - rewrite length_map. symmetry. eapply Forall2_length, Hshape.
  - exists d. auto.
Qed.

Lemma convert_field_struct_rows_witness :
  exists arr d,
    convert_field "features" (pa_struct [("label", pa_string); ("score", pa_float64)])
      [VDict [("score", VFloat 0.5%float); ("label", VStr "cat")]; VNone]
    = Ok arr
    /\ arr_data arr !! 1%nat = Some (VDict d)
    /\ map fst d = ["label"; "score"].
Proof.
  eexists.
  destruct (convert_field_struct_rows "features"
              [("label", pa_string); ("score", pa_float64)]
              [VDict [("score", VFloat 0.5%float); ("label", VStr "cat")]; VNone]
              _ 1 VNone eq_refl
              (ex_intro _ 0%nat (ex_intro _ [("score", VFloat 0.5%float);
                                             ("label", VStr "cat")] eq_refl))
              eq_refl eq_refl)
    as (d & Hrow & Hkeys).
  exists d. split; [reflexivity|]. split; [exact Hrow | exact Hkeys].
Defined.

End ConverterLaws.

(** ** Laws of [DatasetStat.to_json] *)

Module StatsLaws.
Import Stats.

Lemma keep_other_names_inv (n : string) (stats kept : list json) :
  keep_other_names n stats = Ok kept ->
  kept = List.filter (other_name n) stats
  /\ Forall (fun stat => is_ok (stat_name stat) = true) stats.
Proof.
  revert kept. induction stats as [|stat stats IH]; intros kept; simpl.
  - intros [= <-]. split; [reflexivity | constructor].
  - unfold other_name at 1.
    destruct (stat_name stat) as [v|] eqn:Ev; simpl; [|discriminate].
    destruct (keep_other_names n stats) as [kept0|]; simpl; [|discriminate].
    destruct (IH kept0 eq_refl) as [-> Hall].
    intros [= <-]. split.
    + destruct (name_differs v n); reflexivity.
    + constructor; [rewrite Ev; reflexivity | exact Hall].
Qed.

Lemma keep_other_names_ok (n : string) (stats : list json) :
  Forall (fun stat => is_ok (stat_name stat) = true) stats ->
  keep_other_names n stats = Ok (List.filter (other_name n) stats).
Proof.
  induction 1 as [|stat stats Hs _ IH]; simpl; [reflexivity|].
  unfold other_name at 1.
  destruct (stat_name stat) as [v|]; [|discriminate]. simpl.
  rewrite IH. simpl. destruct (name_differs v n); reflexivity.
Qed.

Lemma other_name_named (n : string) (stat : json) :
  other_name n stat = true -> is_ok (stat_name stat) = true.
Proof. unfold other_name. destruct (stat_name stat); [reflexivity | discriminate]. Qed.

Lemma other_name_stat_record (self : DatasetStat) (n : string) :
  other_name n (stat_record self) = negb (String.eqb (name self) n).
Proof. reflexivity. Qed.

Lemma filter_all {A : Type} (p : A -> bool) (l : list A) :
  Forall (fun x => p x = true) l -> List.filter p l = l.
Proof.
  induction 1 as [|x l Hx _ IH]; simpl; [reflexivity|]. rewrite Hx, IH. reflexivity.
Qed.

Lemma filter_Forall {A : Type} (p : A -> bool) (l : list A) :
  Forall (fun x => p x = true) (List.filter p l).
Proof.
  induction l as [|x l IH]; simpl; [constructor|].
  destruct (p x) eqn:E; [constructor; assumption | exact IH].
Qed.

Lemma json_lookup_insert (fs : json_files) (p : string) (doc : json) :
  (<[p := doc]> fs : json_files) !! p = Some doc.
Proof. apply (lookup_insert_eq (M := gmap string)). Qed.

Lemma json_lookup_insert_ne (fs : json_files) (p q : string) (doc : json) :
  p <> q -> (<[p := doc]> fs : json_files) !! q = fs !! q.
Proof. apply (lookup_insert_ne (M := gmap string)). Qed.

Lemma json_insert_insert (fs : json_files) (p : string) (doc doc' : json) :
  (<[p := doc']> (<[p := doc]> fs) : json_files) = <[p := doc']> fs.
Proof. apply (insert_insert_eq (M := gmap string)). Qed.

(** A call on a file that holds an array of named records. *)
Lemma to_json_named (self : DatasetStat) (json_fp : string) (fs : json_files)
    (stats : list json) :
  fs !! json_fp = Some (JArr stats) ->
  Forall (fun stat => is_ok (stat_name stat) = true) stats ->
  to_json self json_fp fs =
    Ok (<[json_fp := JArr (List.filter (other_name (name self)) stats
                           ++ [stat_record self])]> fs).
Proof.
  intros Hfs Hnamed. unfold to_json. rewrite Hfs. simpl.
  rewrite (keep_other_names_ok _ _ Hnamed). reflexivity.
Qed.

(** The records read, the records kept and the file written by a call that
    returns. *)
Lemma to_json_inv (self : DatasetStat) (json_fp : string) (fs fs' : json_files) :
  to_json self json_fp fs = Ok fs' ->
  exists old,
    match fs !! json_fp with
    | Some doc => iter_json doc = Ok old
    | None => old = []
    end
    /\ Forall (fun stat => is_ok (stat_name stat) = true) old
    /\ fs' = <[json_fp := JArr (List.filter (other_name (name self)) old
                                ++ [stat_record self])]> fs.
Proof.
  unfold to_json. intros Hrun.
  destruct (fs !! json_fp) as [doc|] eqn:Efs.
  - destruct (iter_json doc) as [old|] eqn:Eold; simpl in Hrun; [|discriminate].
    destruct (keep_other_names (name self) old) as [kept|] eqn:Ek;
      simpl in Hrun; [|discriminate].
    destruct (keep_other_names_inv _ _ _ Ek) as [-> Hall].
    injection Hrun as <-. exists old. auto.
  - simpl in Hrun. injection Hrun as <-. exists []. auto.
Qed.

(** X6: [to_json] leaves one record of the name of the statistic, the last
    one of the file; the records of other names stay, in their order, and no
    other file changes. *)
Theorem to_json_one_record_per_name (self : DatasetStat) (json_fp : string)
    (fs fs' : json_files) :
  to_json self json_fp fs = Ok fs' ->
  exists kept,
    fs' !! json_fp = Some (JArr (kept ++ [stat_record self]))
    /\ Forall (fun stat => other_name (name self) stat = true) kept
    /\ (forall stats, fs !! json_fp = Some (JArr stats) ->
          kept = List.filter (other_name (name self)) stats)
    /\ (fs !! json_fp = None -> kept = [])
    /\ (forall p, p <> json_fp -> fs' !! p = fs !! p).
Proof.
  intros Hrun. destruct (to_json_inv _ _ _ _ Hrun) as (old & Hold & _ & ->).
  exists (List.filter (other_name (name self)) old).
  split; [apply json_lookup_insert|].
  split; [apply filter_Forall|].
  split; [|split].
  - intros stats Hfs. rewrite Hfs in Hold. simpl in Hold. congruence.
  - intros Hfs. rewrite Hfs in Hold. subst old. reflexivity.
  - intros p Hp. apply json_lookup_insert_ne. congruence.
Qed.

Lemma to_json_one_record_per_name_witness :
  exists fs' kept,
    to_json new_area_stat "stats.json"
            {[ "stats.json" := JArr [area_record; split_record; area_record] ]}
    = Ok fs'
    /\ fs' !! "stats.json" = Some (JArr (kept ++ [stat_record new_area_stat]))
    /\ kept = [split_record].
Proof.
  destruct (to_json new_area_stat "stats.json"
              {[ "stats.json" := JArr [area_record; split_record; area_record] ]})
    as [fs'|] eqn:E; [|vm_compute in E; discriminate].
  destruct (to_json_one_record_per_name _ _ _ _ E) as (kept & Hfile & _ & Hkept & _).
  exists fs', kept. split; [reflexivity|]. split; [exact Hfile|].
  apply (Hkept [area_record; split_record; area_record]). reflexivity.
Defined.

(** X7: writing a statistic a second time changes nothing. *)
Theorem to_json_idempotent (self : DatasetStat) (json_fp : string)
    (fs fs' : json_files) :
  to_json self json_fp fs = Ok fs' ->
  to_json self json_fp fs' = Ok fs'.
Proof.
  intros Hrun. destruct (to_json_inv _ _ _ _ Hrun) as (old & _ & _ & ->).
  rewrite (to_json_named self json_fp _ _ (json_lookup_insert _ _ _)).
  - rewrite List.filter_app. simpl.
    rewrite other_name_stat_record, String.eqb_refl. simpl.
    rewrite app_nil_r, (filter_all _ _ (filter_Forall _ _)).
    rewrite json_insert_insert. reflexivity.
  - apply Forall_app. split.
    + eapply Forall_impl; [apply filter_Forall|]. apply other_name_named.
    + repeat constructor.
Qed.

Lemma to_json_idempotent_witness :
  exists fs',
    to_json new_area_stat "stats.json"
            {[ "stats.json" := JArr [area_record; split_record] ]} = Ok fs'
    /\ to_json new_area_stat "stats.json" fs' = Ok fs'.
Proof.
  destruct (to_json new_area_stat "stats.json"
              {[ "stats.json" := JArr [area_record; split_record] ]})
    as [fs'|] eqn:E; [|vm_compute in E; discriminate].
  exists fs'. split; [reflexivity|]. apply (to_json_idempotent _ _ _ _ E).
Defined.

(** X8: two statistics of different names written one after the other are
    the last two records of the file, in the order of the calls; the calls
    in the other order keep the same other records. *)
Theorem to_json_two_names (a b : DatasetStat) (json_fp : string)
    (fs fs1 fs2 : json_files) :
  name a <> name b ->
  to_json a json_fp fs = Ok fs1 ->
  to_json b json_fp fs1 = Ok fs2 ->
  exists kept fs1' fs2',
    fs2 !! json_fp = Some (JArr (kept ++ [stat_record a; stat_record b]))
    /\ to_json b json_fp fs = Ok fs1'
    /\ to_json a json_fp fs1' = Ok fs2'
    /\ fs2' !! json_fp = Some (JArr (kept ++ [stat_record b; stat_record a])).
Proof.
  intros Hab Ha Hb.
  destruct (to_json_inv _ _ _ _ Ha) as (old & Hold & Hnamed & ->).
  assert (Hnamed_of : forall n, Forall (fun stat => is_ok (stat_name stat) = true)
                                  (List.filter (other_name n) old ++ [stat_record a])
                                /\ Forall (fun stat => is_ok (stat_name stat) = true)
                                  (List.filter (other_name n) old ++ [stat_record b])).
  { intros n. split; apply Forall_app; (split; [|repeat constructor]);
      (eapply Forall_impl; [apply filter_Forall|]); apply other_name_named. }
  assert (Hne : String.eqb (name a) (name b) = false) by (apply String.eqb_neq, Hab).
  assert (Hne' : String.eqb (name b) (name a) = false)
    by (apply String.eqb_neq; congruence).
  assert (Hswap : List.filter (other_name (name b)) (List.filter (other_name (name a)) old)
                  = List.filter (other_name (name a)) (List.filter (other_name (name b)) old)).
  { clear. induction old as [|x old IH]; simpl; [reflexivity|].
    destruct (other_name (name a) x) eqn:Ea, (other_name (name b) x) eqn:Eb;
      simpl; rewrite ?Ea, ?Eb, ?IH; reflexivity. }
  assert (Hb1 : to_json b json_fp fs
                = Ok (<[json_fp := JArr (List.filter (other_name (name b)) old
                                         ++ [stat_record b])]> fs)).
  { unfold to_json. destruct (fs !! json_fp) as [doc|].
    - rewrite Hold. simpl. rewrite (keep_other_names_ok _ _ Hnamed). reflexivity.
    - subst old. reflexivity. }
  rewrite (to_json_named b json_fp _ _ (json_lookup_insert _ _ _)
             (proj1 (Hnamed_of (name a)))) in Hb.
  injection Hb as <-.
  exists (List.filter (other_name (name b)) (List.filter (other_name (name a)) old)).
  eexists _, _. split; [|split; [exact Hb1|split]].
  - rewrite json_lookup_insert, List.filter_app. simpl.
    rewrite other_name_stat_record, Hne. simpl.
    rewrite <- app_assoc. reflexivity.
  - apply (to_json_named a json_fp _ _ (json_lookup_insert _ _ _)
             (proj2 (Hnamed_of (name b)))).
  - rewrite json_lookup_insert, List.filter_app. simpl.
    rewrite other_name_stat_record, Hne'. simpl.
    rewrite <- app_assoc, Hswap. reflexivity.
Qed.

Lemma to_json_two_names_witness :
  exists kept fs1 fs2,
    to_json new_area_stat "stats.json" ∅ = Ok fs1
    /\ to_json (mkStat "split" "categorical" [] None) "stats.json" fs1 = Ok fs2
    /\ fs2 !! "stats.json"
       = Some (JArr (kept ++ [stat_record new_area_stat;
                              stat_record (mkStat "split" "categorical" [] None)])).
Proof.
  destruct (to_json new_area_stat "stats.json" ∅) as [fs1|] eqn:E1;
    [|vm_compute in E1; discriminate].
  destruct (to_json (mkStat "split" "categorical" [] None) "stats.json" fs1)
    as [fs2|] eqn:E2.
  - assert (Hne : name new_area_stat <> name (mkStat "split" "categorical" [] None))
      by (vm_compute; discriminate).
    destruct (to_json_two_names _ _ _ _ _ _ Hne E1 E2)
      as (kept & _ & _ & Hfile & _).
    exists kept, fs1, fs2. auto.
  - exfalso. vm_compute in E1. injection E1 as <-. vm_compute in E2. discriminate.
Defined.

End StatsLaws.

(** ** Laws of the update transaction *)

Module StoreLaws.
Import Geometry Core Arrow NaturalSort Items.
Import ResultFacts NaturalSortFacts ItemsFacts TransactionFacts.

(** *** Lists *)

Lemma filter_rows_filter {A : Type} (p : A -> bool) (l : list A) :
  filter_rows (map p l) l = List.filter p l.
Proof.
  induction l as [|x l IH]; simpl; [reflexivity|].
  destruct (p x); rewrite IH; reflexivity.
Qed.

Lemma filter_perm {A : Type} (p : A -> bool) (l l' : list A) :
  l ≡ₚ l' -> List.filter p l ≡ₚ List.filter p l'.
Proof.
  induction 1 as [|x l l' _ IH|x y l|l l' l'' _ IH1 _ IH2]; simpl.
  - reflexivity.
  - destruct (p x); [constructor|]; exact IH.
  - destruct (p x), (p y); try reflexivity. apply perm_swap.
  - etransitivity; eassumption.
Qed.

Lemma filter_split_length {A : Type} (p : A -> bool) (l : list A) :
  length l = (length (List.filter p l)
              + length (List.filter (fun x => negb (p x)) l))%nat.
Proof.
  induction l as [|x l IH]; simpl; [reflexivity|].
  destruct (p x); simpl; lia.
Qed.

Lemma filter_filter_negb {A : Type} (p : A -> bool) (l : list A) :
  List.filter p (List.filter (fun x => negb (p x)) l) = [].
Proof.
  induction l as [|x l IH]; simpl; [reflexivity|].
  destruct (p x) eqn:E; simpl; [exact IH | rewrite E; exact IH].
Qed.

Lemma filter_idem {A : Type} (p : A -> bool) (l : list A) :
  List.filter p (List.filter p l) = List.filter p l.
Proof.
  induction l as [|x l IH]; simpl; [reflexivity|].
  destruct (p x) eqn:E; simpl; [rewrite E, IH; reflexivity | exact IH].
Qed.

Lemma reorder_id {A : Type} (l : list A) : reorder (seq 0 (length l)) l = l.
Proof.
  apply list_eq. intros k. rewrite reorder_lookup.
  - destruct (decide (k < length l)%nat) as [Hk|Hk].
    + rewrite lookup_seq_lt by exact Hk. reflexivity.
    + rewrite lookup_seq_ge by lia. simpl. symmetry. apply lookup_ge_None. lia.
  - apply Forall_forall. intros i Hi. apply elem_of_seq in Hi. lia.
Qed.

Lemma reorder_perm {A : Type} (order : list nat) (l : list A) :
  order ≡ₚ seq 0 (length l) -> reorder order l ≡ₚ l.
Proof.
  intros Hperm. rewrite <- (reorder_id l) at 2. unfold reorder.
  apply omap_Permutation. exact Hperm.
Qed.

(** *** Sorting a sorted list whose one element was moved to the end *)

Lemma StronglySorted_app_r {A : Type} (R : A -> A -> Prop) (l1 l2 : list A) :
  StronglySorted R (l1 ++ l2) -> StronglySorted R l2.
Proof.
  induction l1 as [|x l1 IH]; simpl; [auto|].
  intros Hs. apply StronglySorted_inv in Hs as [Hs _]. apply IH, Hs.
Qed.

Lemma StronglySorted_lookup {A : Type} (R : A -> A -> Prop) (l : list A)
    (i j : nat) (a b : A) :
  StronglySorted R l -> l !! i = Some a -> l !! j = Some b -> (i < j)%nat -> R a b.
Proof.
  intros Hs. revert i j. induction Hs as [|x l _ IH Hall]; intros i j Hi Hj Hlt.
  - discriminate.
  - destruct j as [|j]; [lia|]. destruct i as [|i]; simpl in *.
    + injection Hi as ->. eapply Forall_lookup_1; eassumption.
    + eapply IH; [eassumption..|lia].
Qed.

Section MoveLast.
Context {A K : Type} (lt : K -> K -> bool).
Hypothesis lt_asym : forall a b, lt a b = true -> lt b a = false.

Lemma insert_keyed_front (x : K * A) (l : list (K * A)) :
  Forall (fun y => lt (fst x) (fst y) = true) l ->
  insert_keyed lt x l = x :: l.
Proof.
  destruct 1 as [|y l Hy _]; simpl; [reflexivity|].
  rewrite (lt_asym _ _ Hy). reflexivity.
Qed.

Lemma foldr_insert_keyed_sorted (l r : list (K * A)) :
  StronglySorted (fun p q => lt (fst p) (fst q) = true) (l ++ r) ->
  foldr (insert_keyed lt) r l = l ++ r.
Proof.
  induction l as [|x l IH]; simpl; [reflexivity|].
  intros Hs. apply StronglySorted_inv in Hs as [Hs Hall].
  rewrite (IH Hs). apply insert_keyed_front, Hall.
Qed.

Lemma foldr_insert_keyed_after (x : K * A) (l : list (K * A)) :
  StronglySorted (fun p q => lt (fst p) (fst q) = true) (x :: l) ->
  foldr (insert_keyed lt) [x] l = x :: l.
Proof.
  induction l as [|y l IH]; simpl; [reflexivity|].
  intros Hs. apply StronglySorted_inv in Hs as [Hs Hall].
  apply StronglySorted_inv in Hs as [Hs Hy].
  apply Forall_cons in Hall as [Hxy Hall].
  rewrite IH by (constructor; assumption). simpl. rewrite Hxy.
  rewrite (insert_keyed_front y l Hy). reflexivity.
Qed.

(** The stable sort puts an element that was taken out of a strictly sorted
    list and put at its end back at its place. *)
Lemma sort_keyed_move_last (l : list (K * A)) (idx : nat) (x : K * A) :
  StronglySorted (fun p q => lt (fst p) (fst q) = true) l ->
  l !! idx = Some x ->
  sort_keyed lt (take idx l ++ drop (S idx) l ++ [x]) = l.
Proof.
  intros Hs Hx. unfold sort_keyed. rewrite !foldr_app. simpl.
  pose proof (take_drop_middle _ _ _ Hx) as Hl.
  rewrite foldr_insert_keyed_after.
  - rewrite foldr_insert_keyed_sorted; rewrite Hl; [reflexivity | exact Hs].
  - rewrite <- Hl in Hs. apply StronglySorted_app_r in Hs. exact Hs.
Qed.
End MoveLast.

(** *** A shard whose ids are in strict natural order *)

Lemma mapM_intro {A B : Type} (f : A -> result B) (l : list A) (l' : list B) :
  Forall2 (fun x y => f x = Ok y) l l' -> mapM f l = Ok l'.
Proof.
  induction 1 as [|x y l l' Hx _ IH]; simpl; [reflexivity|].
  rewrite Hx. simpl. rewrite IH. reflexivity.
Qed.

Lemma StronglySorted_zip {K B : Type} (R : K -> K -> Prop) (ks : list K)
    (cs : list B) :
  StronglySorted R ks ->
  StronglySorted (fun p q => R (fst p) (fst q)) (zip ks cs).
Proof.
  intros Hs. revert cs. induction Hs as [|k ks _ IH Hall]; intros [|c cs]; simpl;
    try constructor.
  - apply IH.
  - apply Forall_forall. intros [k' c'] Hin.
    apply elem_of_zip_l in Hin. simpl.
    eapply Forall_forall in Hall; eassumption.
Qed.

Lemma is_item_inv (item_id : string) (x : value) :
  is_item item_id x = true -> x = VStr item_id.
Proof.
  destruct x; simpl; try discriminate. intros E.
  apply String.eqb_eq in E as ->. reflexivity.
Qed.

(** Under strictly increasing keys the item has one row only. *)
Lemma item_row_unique (item_id : string) (ids : list value)
    (keys0 : list (list token)) (idx k : nat) (x : value) :
  mapM id_key ids = Ok keys0 ->
  StronglySorted (fun a b => key_lt a b = true) keys0 ->
  ids !! idx = Some (VStr item_id) ->
  ids !! k = Some x -> is_item item_id x = true -> k = idx.
Proof.
  intros Hkeys Hs Hidx Hk Hx. apply is_item_inv in Hx as ->.
  destruct (mapM_lookup _ _ _ _ _ Hkeys Hidx) as (k1 & Hk1 & E1).
  destruct (mapM_lookup _ _ _ _ _ Hkeys Hk) as (k2 & Hk2 & E2).
  simpl in E1, E2. injection E1 as <-. injection E2 as <-.
  destruct (Nat.lt_trichotomy k idx) as [Hlt | [-> | Hlt]]; [|reflexivity|].
  - pose proof (StronglySorted_lookup _ _ _ _ _ _ Hs Hk2 Hk1 Hlt) as Hl.
    simpl in Hl. rewrite (key_lt_asym _ _ Hl) in Hl. discriminate.
  - pose proof (StronglySorted_lookup _ _ _ _ _ _ Hs Hk1 Hk2 Hlt) as Hl.
    simpl in Hl. rewrite (key_lt_asym _ _ Hl) in Hl. discriminate.
Qed.

Lemma filter_rows_all {A B : Type} (p : A -> bool) (l : list A) (col : list B) :
  (forall k x, l !! k = Some x -> p x = false) ->
  length col = length l ->
  filter_rows (map (fun x => negb (p x)) l) col = col
  /\ filter_rows (map p l) col = [].
Proof.
  revert col. induction l as [|x l IH]; intros [|c col] Hp Hlen; simpl in *;
    try discriminate; [auto|].
  rewrite (Hp 0%nat x eq_refl). simpl.
  destruct (IH col) as [-> ->]; [|lia|auto].
  intros k y Hy. apply (Hp (S k) y Hy).
Qed.

(** The rows that are kept and the row that is taken out when one row only
    of the table is the item's. *)
Lemma filter_rows_one {A B : Type} (p : A -> bool) (l : list A) (col : list B)
    (idx : nat) (y : A) :
  (forall k x, l !! k = Some x -> p x = true -> k = idx) ->
  l !! idx = Some y -> p y = true ->
  length col = length l ->
  filter_rows (map (fun x => negb (p x)) l) col = take idx col ++ drop (S idx) col
  /\ head (filter_rows (map p l) col) = col !! idx.
Proof.
  revert col idx. induction l as [|x l IH]; intros [|c col] idx Hu Hy Hpy Hlen;
    simpl in *; try discriminate.
  destruct idx as [|idx]; simpl in *.
  - injection Hy as ->. rewrite Hpy. simpl.
    destruct (filter_rows_all p l col) as [-> _]; [|lia|auto].
    intros k x Hx. destruct (p x) eqn:E; [|reflexivity].
    specialize (Hu (S k) x Hx E). discriminate.
  - destruct (p x) eqn:E; [specialize (Hu 0%nat x eq_refl E); discriminate|].
    simpl. destruct (IH col idx) as [-> ->]; [|assumption..|lia|auto].
    intros k z Hz Hpz. specialize (Hu (S k) z Hz Hpz). lia.
Qed.

(** The sort of lines 316-327 on a shard in strict natural order: the cell
    that was put back at the end returns to the row of the item, and no
    other row moves. *)
Lemma reorder_sorted_shard (item_id : string) (ids col : list value)
    (keys0 keys : list (list token)) (idx : nat) (v : value) :
  mapM id_key ids = Ok keys0 ->
  StronglySorted (fun a b => key_lt a b = true) keys0 ->
  ids !! idx = Some (VStr item_id) ->
  length col = length ids ->
  mapM id_key (put_back item_id ids ids (VStr item_id)) = Ok keys ->
  reorder (sort_order keys) (put_back item_id ids col v) = <[idx := v]> col
  /\ item_cell item_id ids col = col !! idx.
Proof.
  intros Hkeys0 Hs Hidx Hlen Hkeys.
  assert (Hitem : is_item item_id (VStr item_id) = true)
    by (simpl; apply String.eqb_refl).
  assert (Hu : forall k x, ids !! k = Some x -> is_item item_id x = true -> k = idx).
  { intros k x. eapply item_row_unique; eassumption. }
  destruct (filter_rows_one (is_item item_id) ids col idx _ Hu Hidx Hitem Hlen)
    as [Hcol Hcell].
  destruct (filter_rows_one (is_item item_id) ids ids idx _ Hu Hidx Hitem eq_refl)
    as [Hids _].
  split; [|exact Hcell].
  assert (Hlen0 : length keys0 = length ids) by (eapply mapM_length, Hkeys0).
  assert (Hlt : (idx < length ids)%nat) by (eapply lookup_lt_Some, Hidx).
  destruct (mapM_lookup _ _ _ _ _ Hkeys0 Hidx) as (nk & Hnk & Enk).
  (* the keys of the rows as they are put back *)
  assert (Hkeys1 : keys = take idx keys0 ++ drop (S idx) keys0 ++ [nk]).
  { unfold put_back in Hkeys. rewrite Hids, <- app_assoc in Hkeys.
    apply mapM_Forall2 in Hkeys0.
    assert (Hall : mapM id_key (take idx ids ++ drop (S idx) ids ++ [VStr item_id])
                   = Ok (take idx keys0 ++ drop (S idx) keys0 ++ [nk])).
    { apply mapM_intro. apply Forall2_app; [apply Forall2_take, Hkeys0|].
      apply Forall2_app; [apply Forall2_drop, Hkeys0|].
      constructor; [exact Enk | constructor]. }
    rewrite Hall in Hkeys. injection Hkeys as <-. reflexivity. }
  unfold put_back. rewrite Hcol, <- app_assoc.
  (* the rows with their keys, before the item was taken out *)
  set (P := zip keys0 (<[idx := v]> col)).
  assert (HP : zip keys (take idx col ++ drop (S idx) col ++ [v])
               = take idx P ++ drop (S idx) P ++ [(nk, v)]).
  { rewrite Hkeys1. unfold P.
    rewrite zip_with_take, zip_with_drop, take_insert_ge, drop_insert_lt by lia.
    rewrite zip_with_app by (rewrite !length_take; lia).
    rewrite zip_with_app by (rewrite !length_drop; lia).
    reflexivity. }
  rewrite <- sort_keyed_reorder.
  - rewrite HP. rewrite (sort_keyed_move_last key_lt key_lt_asym P idx (nk, v)).
    + unfold P. change (map snd ?l) with (snd <$> l). rewrite snd_zip; [reflexivity|].
      rewrite length_insert. lia.
    + apply (StronglySorted_zip (fun a b => key_lt a b = true)), Hs.
    + unfold P. apply lookup_zip_Some. split; [exact Hnk|].
      apply list_lookup_insert_eq. lia.
  - rewrite Hkeys1, !length_app, !length_take, !length_drop. simpl. lia.
Qed.

(** *** The schema that is written *)

Lemma schema_remove_named (sch sch1 : list Field) (name : string) (g : Field) :
  NoDup (map fname sch) ->
  schema_remove sch (get_field_index sch name) = Ok sch1 ->
  g ∈ sch1 -> g ∈ sch /\ fname g <> name.
Proof.
  intros Hnd Hrm Hg. split; [eapply schema_remove_sub; eassumption|].
  pose proof (schema_remove_perm _ _ _ Hrm) as Hperm.
  rewrite Hperm in Hnd. apply NoDup_cons in Hnd as [Hnotin _].
  intros <-. apply Hnotin. apply list_elem_of_fmap. exists g. auto.
Qed.

Section MigratedSchema.
Context {arrow : PixanoArrow}.

(** One turn of the loop of lines 285-300: a field of the new schema is a
    field of the old one, under another name than the one being replaced, or
    it is the replacement. *)
Lemma update_field_type_step (field : Field) (sch sch' : list Field)
    (upd upd' : list string) (g : Field) :
  NoDup (map fname sch) ->
  (type_str (ftype field) = previous_objects_str -> fname field = "objects") ->
  update_field_type field (sch, upd) = Ok (sch', upd') ->
  g ∈ sch' ->
  (g ∈ sch /\ (of_previous_type field -> fname g <> fname field))
  \/ (of_previous_type field
      /\ g = mkField (fname field) (migrated_type field)).
Proof.
  intros Hnd Hobj. unfold update_field_type, migrated_type, of_previous_type.
  destruct (String.eqb (type_str (ftype field)) previous_objects_str) eqn:Eo.
  - apply String.eqb_eq in Eo. rewrite (Hobj Eo) in *.
    destruct (schema_remove sch (get_field_index sch "objects")) as [sch1|] eqn:Er;
      simpl; [|discriminate].
    assert (Ei : String.eqb (type_str (ftype field)) previous_image_str = false).
    { rewrite Eo. reflexivity. }
    rewrite Ei. intros [= <- <-] Hg.
    unfold schema_append in Hg. apply elem_of_app in Hg as [Hg | Hg].
    + left. destruct (schema_remove_named _ _ _ _ Hnd Er Hg). auto.
    + apply list_elem_of_singleton in Hg as ->. right. auto.
  - simpl. destruct (String.eqb (type_str (ftype field)) previous_image_str) eqn:Ei.
    + destruct (schema_remove sch (get_field_index sch (fname field)))
        as [sch1|] eqn:Er; simpl; [|discriminate].
      intros [= <- <-] Hg. apply String.eqb_eq in Ei.
      unfold schema_append in Hg. apply elem_of_app in Hg as [Hg | Hg].
      * left. destruct (schema_remove_named _ _ _ _ Hnd Er Hg). auto.
      * apply list_elem_of_singleton in Hg as ->. right. auto.
    + intros [= <- <-] Hg. left. split; [exact Hg|].
      apply String.eqb_neq in Eo, Ei. intros [E | E]; contradiction.
Qed.

(** The loop of lines 285-300: a field of the schema it leaves is a field of
    the schema it started from whose name is not that of a field of a
    previous type, or it is the replacement of such a field. *)
Lemma update_field_types_steps (fields sch sch' : list Field)
    (upd upd' : list string) (g : Field) :
  NoDup (map fname sch) ->
  Forall (fun f => type_str (ftype f) = previous_objects_str -> fname f = "objects")
         fields ->
  update_field_types fields (sch, upd) = Ok (sch', upd') ->
  g ∈ sch' ->
  (g ∈ sch /\ forall f, f ∈ fields -> of_previous_type f -> fname g <> fname f)
  \/ (exists f, f ∈ fields /\ of_previous_type f
                /\ g = mkField (fname f) (migrated_type f)).
Proof.
  intros Hnd Hobj. revert sch upd Hnd.
  induction Hobj as [|f fields Hf _ IH]; intros sch upd Hnd.
  - intros [= <- <-] Hg. left. split; [exact Hg|]. intros f Hf. inversion Hf.
  - change (update_field_types (f :: fields) (sch, upd))
      with (update_field_type f (sch, upd) ≫= update_field_types fields).
    destruct (update_field_type f (sch, upd)) as [[sch1 upd1]|] eqn:E1;
      simpl; [|discriminate].
    intros Hrec Hg.
    assert (Hnd1 : NoDup (map fname sch1)).
    { rewrite (update_field_type_names _ _ _ _ _ Hf E1). exact Hnd. }
    destruct (IH _ _ Hnd1 Hrec Hg) as [[Hg1 Hrest] | (f' & Hf' & Hp & ->)].
    + destruct (update_field_type_step _ _ _ _ _ g Hnd Hf E1 Hg1)
        as [[Hg0 Hname] | [Hp ->]].
      * left. split; [exact Hg0|]. intros f' Hf' Hp.
        apply elem_of_cons in Hf' as [-> | Hf']; [exact (Hname Hp)|].
        exact (Hrest _ Hf' Hp).
      * right. exists f. split; [left|]. split; [exact Hp | reflexivity].
    + right. exists f'. split; [right; exact Hf'|]. split; [exact Hp | reflexivity].
Qed.

(** The schema that is written for a table: every field stands for the
    field of its name in the schema that was read, with the type the
    support for previous types gives it. *)
Lemma update_field_types_schema (t : Table) (sch' : list Field)
    (upd : list string) (g : Field) :
  table_wf t ->
  update_field_types (schema t) (schema t, []) = Ok (sch', upd) ->
  g ∈ sch' ->
  exists f, f ∈ schema t /\ fname g = fname f /\ ftype g = migrated_type f.
Proof.
  intros (_ & _ & Hnd & Hobj) Hupd Hg.
  destruct (update_field_types_steps _ _ _ _ _ g Hnd Hobj Hupd Hg)
    as [[Hg0 Hname] | (f & Hf & _ & ->)].
  - exists g. split; [exact Hg0|]. split; [reflexivity|].
    unfold migrated_type.
    destruct (String.eqb (type_str (ftype g)) previous_objects_str) eqn:Eo.
    { apply String.eqb_eq in Eo. exfalso. apply (Hname g Hg0); [left; exact Eo|].
      reflexivity. }
    destruct (String.eqb (type_str (ftype g)) previous_image_str) eqn:Ei.
    { apply String.eqb_eq in Ei. exfalso. apply (Hname g Hg0); [right; exact Ei|].
      reflexivity. }
    reflexivity.
  - exists f. split; [exact Hf|]. split; reflexivity.
Qed.

End MigratedSchema.

(** *** The transaction on one shard *)

Section Store.
Context `{PixanoCore} `{PixanoArrow}.

(** The shard that holds the item, after a call that returns. *)
Lemma saved_shard (dataset_dir item_id : string) (annotations : list nat)
    (w w' : World) (p : string) (t : Table) :
  NoDup (map fst (files w)) ->
  save_item_annotations dataset_dir item_id annotations w = (w', Ok tt) ->
  p ∈ glob_parquet dataset_dir (files w) ->
  read_table (files w) p = Ok t ->
  contains_item item_id t = true ->
  exists t',
    read_table (files w') p = Ok t'
    /\ update_table item_id (deref (heap w') annotations) t = Ok (Some t').
Proof.
  intros Hnd Hsave Hp Ht Hc.
  destruct (save_files_spec _ _ _ _ _ _ Hnd Hsave)
    as (wr & _ & _ & _ & Hwr & _ & Hall).
  pose proof (Hall eq_refl p t Hp Ht Hc) as Hin.
  destruct (Hwr _ Hin) as (_ & t0 & t' & Ht0 & Hupd & Ht').
  rewrite Ht in Ht0. injection Ht0 as <-. eauto.
Qed.

(** The ids of the table that is written: the ids of the other items and
    the id of the item once, in some order. *)
Lemma update_table_ids (item_id : string) (annotations : list ObjectAnnotation)
    (t t' : Table) :
  table_wf t -> update_table item_id annotations t = Ok (Some t') ->
  exists ids',
    id_column t' = Ok ids'
    /\ length ids' = num_rows t'
    /\ ids' ≡ₚ List.filter (fun x => negb (is_item item_id x)) (table_ids t)
               ++ [VStr item_id].
Proof.
  intros Hwf Hupd.
  destruct (update_table_spec _ _ _ _ Hwf Hupd)
    as (ids & keys & upd & Hid & _ & Hkeys & _ & _ & _ & Hrows & Hid' & _).
  rewrite (table_ids_ok _ _ Hid).
  eexists. split; [exact Hid'|]. split.
  - destruct (id_column_spec _ _ Hid') as (k & f & _ & _ & _ & Hc).
    apply (Forall_lookup_1 _ _ _ _ Hrows Hc).
  - rewrite <- filter_rows_filter.
    apply (reorder_perm _ (put_back item_id ids ids (VStr item_id))).
    rewrite <- (mapM_length _ _ _ Hkeys). apply sort_order_perm.
Qed.

(** X9: the shard a call has rewritten holds the item in one row, whatever
    the number of rows it held it in before, and the ids of the other items
    are the ones the shard had: no row of another item is lost or added. *)
Theorem item_kept_in_one_row (dataset_dir item_id : string)
    (annotations : list nat) (w w' : World) (p : string) (t : Table) :
  NoDup (map fst (files w)) ->
  save_item_annotations dataset_dir item_id annotations w = (w', Ok tt) ->
  p ∈ glob_parquet dataset_dir (files w) ->
  read_table (files w) p = Ok t ->
  table_wf t ->
  contains_item item_id t = true ->
  exists t',
    read_table (files w') p = Ok t'
    /\ List.filter (is_item item_id) (table_ids t') = [VStr item_id]
    /\ List.filter (fun x => negb (is_item item_id x)) (table_ids t')
       ≡ₚ List.filter (fun x => negb (is_item item_id x)) (table_ids t)
    /\ (num_rows t' + length (List.filter (is_item item_id) (table_ids t))
        = num_rows t + 1)%nat.
Proof.
  intros Hnd Hsave Hp Ht Hwf Hc.
  destruct (saved_shard _ _ _ _ _ _ _ Hnd Hsave Hp Ht Hc) as (t' & Ht' & Hupd).
  destruct (update_table_ids _ _ _ _ Hwf Hupd) as (ids' & Hid' & Hlen' & Hperm).
  exists t'. split; [exact Ht'|]. rewrite (table_ids_ok _ _ Hid').
  assert (Hitem : is_item item_id (VStr item_id) = true)
    by (simpl; apply String.eqb_refl).
  assert (Hin : List.filter (is_item item_id) ids' ≡ₚ [VStr item_id]).
  { rewrite (filter_perm _ _ _ Hperm), List.filter_app, filter_filter_negb.
    simpl. rewrite String.eqb_refl. reflexivity. }
  assert (Hout : List.filter (fun x => negb (is_item item_id x)) ids'
                 ≡ₚ List.filter (fun x => negb (is_item item_id x)) (table_ids t)).
  { rewrite (filter_perm _ _ _ Hperm), List.filter_app, filter_idem.
    simpl. rewrite String.eqb_refl. simpl. rewrite app_nil_r. reflexivity. }
  split; [apply Permutation_singleton_r, Hin|]. split; [exact Hout|].
  destruct (update_table_spec _ _ _ _ Hwf Hupd) as (ids & _ & _ & Hid & _).
  rewrite <- Hlen', <- (id_column_length _ _ Hwf Hid), (table_ids_ok _ _ Hid) in *.
  pose proof (filter_split_length (is_item item_id) ids') as Hsplit'.
  pose proof (filter_split_length (is_item item_id) ids) as Hsplit.
  rewrite (Permutation_length Hin), (Permutation_length Hout) in Hsplit'.
  simpl in Hsplit'. lia.
Qed.

(** X10: on a shard whose ids are in strict natural order, the call changes
    the cell of the item in the column [objects] and nothing else: the ids
    stay as they are, in their order, and every column that is written is
    the column that was read, encoded for its field. *)
Theorem sorted_shard_updated_in_place (dataset_dir item_id : string)
    (annotations : list nat) (w w' : World) (p : string) (t : Table)
    (keys0 : list (list token)) :
  NoDup (map fst (files w)) ->
  save_item_annotations dataset_dir item_id annotations w = (w', Ok tt) ->
  p ∈ glob_parquet dataset_dir (files w) ->
  read_table (files w) p = Ok t ->
  table_wf t ->
  contains_item item_id t = true ->
  mapM id_key (table_ids t) = Ok keys0 ->
  StronglySorted (fun a b => key_lt a b = true) keys0 ->
  exists t' idx upd,
    read_table (files w') p = Ok t'
    /\ table_ids t !! idx = Some (VStr item_id)
    /\ id_column t' = Ok (table_ids t)
    /\ forall j f, schema t' !! j = Some f ->
         exists col0 col',
           table_column t (fname f) = Some col0
           /\ columns t' !! j = Some col'
           /\ encode_column upd f
                (if String.eqb (fname f) "objects"
                 then <[idx := VList (map VObject (deref (heap w') annotations))]> col0
                 else col0) = Ok col'.
Proof.
  intros Hnd Hsave Hp Ht Hwf Hc Hkeys0 Hs.
  destruct (saved_shard _ _ _ _ _ _ _ Hnd Hsave Hp Ht Hc) as (t' & Ht' & Hupd).
  destruct (update_table_spec _ _ _ _ Hwf Hupd)
    as (ids & keys & upd & Hid & Hfound & Hkeys & _ & _ & _ & _ & Hid' & Hcols).
  rewrite (table_ids_ok _ _ Hid) in *.
  assert (Hidx : exists idx, ids !! idx = Some (VStr item_id)).
  { apply existsb_exists in Hfound as (x & Hx & Hitem).
    apply is_item_inv in Hitem as ->.
    apply list_elem_of_In, list_elem_of_lookup in Hx. exact Hx. }
  destruct Hidx as (idx & Hidx).
  exists t', idx, upd. split; [exact Ht'|]. split; [exact Hidx|]. split.
  - rewrite Hid'. f_equal.
    destruct (reorder_sorted_shard item_id ids ids keys0 keys idx (VStr item_id)
                Hkeys0 Hs Hidx eq_refl Hkeys) as [-> _].
    apply list_insert_id, Hidx.
  - intros j f Hj. destruct (Hcols j f Hj) as (col0 & v & col' & Hc0 & Hv & Hcj & Henc).
    exists col0, col'. split; [exact Hc0|]. split; [exact Hcj|].
    assert (Hlen : length col0 = length ids).
    { rewrite (table_column_length _ _ _ Hwf Hc0).
      symmetry. apply id_column_length; assumption. }
    destruct (reorder_sorted_shard item_id ids col0 keys0 keys idx v
                Hkeys0 Hs Hidx Hlen Hkeys) as [Hre Hcell].
    rewrite Hre in Henc.
    destruct (String.eqb (fname f) "objects").
    + subst v. exact Henc.
    + rewrite Hcell in Hv. rewrite (list_insert_id _ _ _ Hv) in Henc. exact Henc.
Qed.

(** X12: the shard a call has rewritten is a table with one column for
    every field, all of one length, under the names the shard had. Every
    field of its schema stands for the field of its name in the schema that
    was read: it has the current annotation or image type when the type of
    that field printed as the literal of line 288 or of line 296, and the
    type of that field otherwise. A schema in which no type prints as one of
    the two literals is written as it was read. *)
Theorem rewritten_shard_schema (dataset_dir item_id : string)
    (annotations : list nat) (w w' : World) (p : string) (t : Table) :
  NoDup (map fst (files w)) ->
  save_item_annotations dataset_dir item_id annotations w = (w', Ok tt) ->
  p ∈ glob_parquet dataset_dir (files w) ->
  read_table (files w) p = Ok t ->
  table_wf t ->
  contains_item item_id t = true ->
  exists t',
    read_table (files w') p = Ok t'
    /\ length (columns t') = length (schema t')
    /\ Forall (fun c => length c = num_rows t') (columns t')
    /\ map fname (schema t') ≡ₚ map fname (schema t)
    /\ (forall g, g ∈ schema t' ->
          exists f, f ∈ schema t /\ fname g = fname f
                    /\ ftype g = migrated_type f)
    /\ (no_previous_type t -> schema t' = schema t).
Proof.
  intros Hnd Hsave Hp Ht Hwf Hc.
  destruct (saved_shard _ _ _ _ _ _ _ Hnd Hsave Hp Ht Hc) as (t' & Ht' & Hupd).
  destruct (update_table_columns _ _ _ _ Hwf Hupd)
    as (ids & keys & upd & _ & _ & _ & Hsch & Hnames & Hlen & Hrows & _).
  exists t'. split; [exact Ht'|]. split; [exact Hlen|]. split; [exact Hrows|].
  split; [exact Hnames|]. split.
  - intros g Hg. eapply update_field_types_schema; eassumption.
  - intros Hcur. rewrite (update_field_types_unchanged _ _ _ Hcur) in Hsch.
    injection Hsch as Hsch _. symmetry. exact Hsch.
Qed.

(** The first loop over a list that is made of two. *)
Lemma normalize_annotations_app (h : gmap nat ObjectAnnotation)
    (l1 l2 : list nat) :
  normalize_annotations h (l1 ++ l2) =
    match normalize_annotations h l1 with
    | (h', Ok _) => normalize_annotations h' l2
    | (h', Err e) => (h', Err e)
    end.
Proof.
  revert h. induction l1 as [|l l1 IH]; intros h; simpl; [reflexivity|].
  destruct (normalize_annotation h l) as [h' [[]|e]]; [apply IH | reflexivity].
Qed.

(** X13: an annotation that has a mask and no bounding box stops the call in
    the first loop: [AttributeError] is raised, no file is read or written,
    and the caller's objects are left half-way: the annotations before it
    have their new mask and box, it has its new mask, and the ones after it
    are untouched. *)
Theorem missing_bbox_stops_the_call (dataset_dir item_id : string)
    (before after : list nat) (l : nat) (a : ObjectAnnotation)
    (m rle : MaskDict) (w : World) :
  NoDup (before ++ [l]) ->
  (forall l', l' ∈ before ->
     exists a0 a', heap w !! l' = Some a0 /\ normalized a0 = Ok a') ->
  heap w !! l = Some a ->
  mask a = Some m -> from_urle m = Ok rle -> bbox a = None ->
  exists w',
    save_item_annotations dataset_dir item_id (before ++ l :: after) w
    = (w', Err (AttributeError "coords"))
    /\ files w' = files w /\ written w' = written w
    /\ heap w' !! l = Some (set_mask (Some rle) a)
    /\ (forall l' a0 a', l' ∈ before -> heap w !! l' = Some a0 ->
          normalized a0 = Ok a' -> heap w' !! l' = Some a')
    /\ (forall l', l' ∉ before -> l' <> l -> heap w' !! l' = heap w !! l').
Proof.
  intros Hnd Hbefore Hl Hm Hrle Hb.
  apply NoDup_app in Hnd as (Hnd & Hnotin & _).
  assert (Hl' : l ∉ before).
  { intros Hin. apply (Hnotin l Hin). left. }
  destruct (normalize_annotations_ok (heap w) before Hnd Hbefore)
    as (h1 & Hrun & Hin & Hout).
  unfold save_item_annotations.
  rewrite normalize_annotations_app, Hrun. simpl.
  unfold normalize_annotation. rewrite (Hout l Hl'), Hl, Hm, Hrle. simpl.
  rewrite Hb. eexists. split; [reflexivity|]. simpl.
  split; [reflexivity|]. split; [reflexivity|].
  split; [apply lookup_insert_eq|]. split.
  - intros l' a0 a' Hin' Ha0 Hn. rewrite lookup_insert_ne by congruence.
    eapply Hin; eassumption.
  - intros l' Hn1 Hn2. rewrite lookup_insert_ne by congruence. apply Hout, Hn1.
Qed.

End Store.

(** *** The laws on the two shards of the scenario *)

Import Reference Scenario.

Lemma shard_1_strictly_sorted :
  mapM id_key (table_ids shard_1)
  = Ok (map natural_key ["img_6"; "img_7"; "img_8"; "img_9"; "img_10"])
  /\ StronglySorted (fun a b => key_lt a b = true)
       (map natural_key ["img_6"; "img_7"; "img_8"; "img_9"; "img_10"]).
Proof.
  split; [vm_compute; reflexivity|].
  repeat (constructor; [|repeat (constructor; [vm_compute; reflexivity|]); constructor]).
  constructor.
Qed.

Lemma item_kept_in_one_row_witness :
  exists t',
    read_table (files (fst (saved (Some empty_bbox))))
      "/data/ds/db/train/shard_1.parquet" = Ok t'
    /\ List.filter (is_item "img_7") (table_ids t') = [VStr "img_7"]
    /\ num_rows t' = 5%nat.
Proof.
  destruct (item_kept_in_one_row "/data/ds" "img_7" [0%nat]
              (world_of (Some empty_bbox)) _
              "/data/ds/db/train/shard_1.parquet" shard_1
              (scenario_paths_NoDup _) scenario_saved (scenario_shard_1 _)
              eq_refl shard_1_wf eq_refl)
    as (t' & Ht' & Hone & _ & Hrows).
  exists t'. split; [exact Ht'|]. split; [exact Hone|].
  change (num_rows shard_1) with 5%nat in Hrows.
  change (length (List.filter (is_item "img_7") (table_ids shard_1))) with 1%nat in Hrows.
  lia.
Defined.

Lemma sorted_shard_updated_in_place_witness :
  exists t',
    read_table (files (fst (saved (Some empty_bbox))))
      "/data/ds/db/train/shard_1.parquet" = Ok t'
    /\ id_column t' = Ok (map VStr ["img_6"; "img_7"; "img_8"; "img_9"; "img_10"]).
Proof.
  destruct (sorted_shard_updated_in_place "/data/ds" "img_7" [0%nat]
              (world_of (Some empty_bbox)) _
              "/data/ds/db/train/shard_1.parquet" shard_1 _
              (scenario_paths_NoDup _) scenario_saved (scenario_shard_1 _)
              eq_refl shard_1_wf eq_refl
              (proj1 shard_1_strictly_sorted) (proj2 shard_1_strictly_sorted))
    as (t' & idx & upd & Ht' & _ & Hids & _).
  exists t'. split; [exact Ht' | exact Hids].
Defined.

Lemma previous_shard_wf : table_wf previous_shard.
Proof.
  split; [reflexivity|]. split; [repeat constructor|].
  split; [apply (bool_decide_unpack _); vm_compute; exact I|].
  repeat constructor; intros Hx; try reflexivity; vm_compute in Hx; discriminate.
Qed.

(** The shard of the previous types after the call for [img_12]: the two
    columns of a previous type have moved to the end of the schema, with
    the current types. *)
Lemma rewritten_shard_schema_witness :
  exists t',
    read_table (files (fst previous_saved)) "/data/old/db/val/shard_0.parquet" = Ok t'
    /\ schema t' = [mkField "id" pa_string; mkField "split" pa_string;
                    mkField "image" ImageType;
                    mkField "objects" (pa_list ObjectAnnotationType)]
    /\ (forall g, g ∈ schema t' ->
          exists f, f ∈ schema previous_shard /\ fname g = fname f
                    /\ ftype g = migrated_type f).
Proof.
  assert (Hsaved : save_item_annotations "/data/old" "img_12" [0%nat] previous_world
                   = (fst previous_saved, Ok tt)) by (vm_compute; reflexivity).
  assert (Hpaths : NoDup (map fst (files previous_world)))
    by (apply (bool_decide_unpack _); vm_compute; exact I).
  assert (Hp : "/data/old/db/val/shard_0.parquet"
               ∈ glob_parquet "/data/old" (files previous_world))
    by (apply (bool_decide_unpack _); vm_compute; exact I).
  destruct (rewritten_shard_schema "/data/old" "img_12" [0%nat] previous_world _
              "/data/old/db/val/shard_0.parquet" previous_shard
              Hpaths Hsaved Hp eq_refl previous_shard_wf eq_refl)
    as (t' & Ht' & _ & _ & _ & Hfields & _).
  exists t'. split; [exact Ht'|]. split; [|exact Hfields].
  vm_compute in Ht'. injection Ht' as <-. reflexivity.
Defined.

Lemma missing_bbox_stops_the_call_witness :
  exists w',
    save_item_annotations "/data/ds" "img_7" [0%nat] (world_of None)
    = (w', Err (AttributeError "coords"))
    /\ files w' = files (world_of None) /\ written w' = [].
Proof.
  destruct (missing_bbox_stops_the_call (H := reference_core)
              "/data/ds" "img_7" [] [] 0%nat
              (new_annotation None) urle_mask
              (mkMask [3; 4] (RleCounts (concat (map pack_run [5; 2; 2; 2; 1]))))
              (world_of None)
              (NoDup_singleton 0%nat)
              (fun l' Hl' => match not_elem_of_nil l' Hl' with end)
              eq_refl eq_refl eq_refl eq_refl)
    as (w' & Hrun & Hfiles & Hlog & _).
  exists w'. split; [exact Hrun|]. split; [exact Hfiles | exact Hlog].
Defined.

End StoreLaws.

(** ** The readers of the item store *)

Module ExplorerFacts.
Import Geometry Core Arrow NaturalSort Items Explorer.
Import ResultFacts NaturalSortFacts ItemsFacts StoreLaws.

Section Readers.
Context `{PixanoCore} `{ExplorerCore} `{PixanoArrow}.

(** *** [_create_features] *)

(** X14: [_create_features] makes one feature for every field of the schema
    that is a number, an image or a string, in the order of the schema, and
    none for a field of another type (a list, a struct, a boolean); a
    number or a string is shown as the cell the row has for it. *)
Theorem create_features_fields (item : gmap string value) (sch : list Field)
    (feats : list ItemFeature) :
  _create_features item sch = Ok feats ->
  map feat_name feats
  = map fname (List.filter (fun f => is_number (ftype f) || is_image_type (ftype f)
                                     || is_string (ftype f)) sch)
  /\ Forall (fun ft => dtype ft = "number" \/ dtype ft = "image" \/ dtype ft = "text")
            feats
  /\ Forall (fun ft => dtype ft <> "image" ->
                       item !! feat_name ft = Some (feat_value ft)) feats.
Proof.
  revert feats. induction sch as [|field sch IH]; intros feats; simpl.
  - intros [= <-]. repeat split; constructor.
  - unfold feature_of, get_cell.
    destruct (_create_features item sch) as [more|]; simpl.
    2:{ destruct (is_number (ftype field)); [|destruct (is_image_type (ftype field));
          [|destruct (is_string (ftype field))]]; simpl;
        try discriminate;
        destruct (item !! fname field) as [v|]; simpl; try discriminate.
        destruct (match v with VImage im => preview_url im | _ => _ end);
          discriminate. }
    destruct (IH more eq_refl) as (Hnames & Hd & Hv).
    destruct (is_number (ftype field)); simpl.
    { destruct (item !! fname field) as [v|] eqn:Ev; simpl; [|discriminate].
      intros [= <-]. simpl. rewrite Hnames. split; [reflexivity|].
      split; constructor; auto. }
    destruct (is_image_type (ftype field)); simpl.
    { destruct (item !! fname field) as [v|] eqn:Ev; simpl; [|discriminate].
      destruct (match v with VImage im => preview_url im | _ => _ end) as [th|];
        simpl; [|discriminate].
      intros [= <-]. simpl. rewrite Hnames. split; [reflexivity|].
      split; constructor; auto. simpl. congruence. }
    destruct (is_string (ftype field)); simpl.
    { destruct (item !! fname field) as [v|] eqn:Ev; simpl; [|discriminate].
      intros [= <-]. simpl. rewrite Hnames. split; [reflexivity|].
      split; constructor; auto. }
    intros [= <-]. auto.
Qed.

(** *** [load_items] *)

Lemma row_dict_ext (sch : list Field) (cols cols' : list (list value)) (i j : nat) :
  Forall2 (fun c c' => c !! i = c' !! j) cols cols' ->
  row_dict sch cols i = row_dict sch cols' j.
Proof.
  unfold row_dict. generalize (Some (∅ : gmap string value)) as acc.
  intros acc Hcols. revert sch acc.
  induction Hcols as [|c c' cols cols' Hc _ IH]; intros [|f sch] acc; simpl;
    try reflexivity.
  rewrite Hc. apply IH.
Qed.

Lemma row_dict_is_Some (sch : list Field) (cols : list (list value)) (i : nat) :
  Forall (fun c => (i < length c)%nat) cols -> is_Some (row_dict sch cols i).
Proof.
  unfold row_dict. assert (Hacc : is_Some (Some (∅ : gmap string value))) by eauto.
  revert Hacc. generalize (Some (∅ : gmap string value)) as acc.
  intros acc Hacc Hcols. revert sch acc Hacc.
  induction Hcols as [|c cols Hc _ IH]; intros [|f sch] acc Hacc; simpl; try exact Hacc.
  apply IH. destruct Hacc as [m ->]. simpl.
  destruct (lookup_lt_is_Some_2 c i Hc) as [v ->]. simpl. eauto.
Qed.

Lemma omap_seq_lookup {A : Type} (f : nat -> option A) (n i : nat) :
  (forall k, (k < n)%nat -> is_Some (f k)) -> (i < n)%nat ->
  omap f (seq 0 n) !! i = f i /\ length (omap f (seq 0 n)) = n.
Proof.
  intros Hf Hi.
  assert (Hgen : forall s m, (forall k, (s <= k < s + m)%nat -> is_Some (f k)) ->
            length (omap f (seq s m)) = m
            /\ forall j, (j < m)%nat -> omap f (seq s m) !! j = f (s + j)%nat).
  { intros s m. revert s. induction m as [|m IH]; intros s Hs.
    - split; [reflexivity | intros j Hj; lia].
    - destruct (Hs s ltac:(lia)) as [x Hx].
      destruct (IH (S s)) as [Hlen Hlook]; [intros k Hk; apply Hs; lia|].
      assert (Hcons : omap f (seq s (S m)) = x :: omap f (seq (S s) m)).
      { change (seq s (S m)) with (s :: seq (S s) m).
        change (omap f (s :: seq (S s) m))
          with (match f s with
                | Some y => y :: omap f (seq (S s) m)
                | None => omap f (seq (S s) m)
                end).
        rewrite Hx. reflexivity. }
      rewrite Hcons. split; [simpl; rewrite Hlen; reflexivity|].
      intros [|j] Hj; [rewrite Nat.add_0_r; simpl; auto|].
      change ((x :: omap f (seq (S s) m)) !! S j) with (omap f (seq (S s) m) !! j).
      rewrite Hlook by lia. f_equal. lia. }
  destruct (Hgen 0%nat n) as [Hlen Hlook]; [intros k Hk; apply Hf; lia|].
  split; [apply Hlook, Hi | exact Hlen].
Qed.

(** The rows of a table whose columns all have the length of the table. *)
Lemma to_pylist_lookup (t : Table) (i : nat) :
  Forall (fun c => length c = num_rows t) (columns t) ->
  (i < num_rows t)%nat ->
  to_pylist t !! i = row_dict (schema t) (columns t) i
  /\ length (to_pylist t) = num_rows t.
Proof.
  intros Hcols Hi. apply omap_seq_lookup; [|exact Hi].
  intros k Hk. apply row_dict_is_Some.
  eapply Forall_impl; [exact Hcols|]. simpl. intros c ->. exact Hk.
Qed.

Lemma py_range_length (start stop : Z) :
  length (py_range start stop) = Z.to_nat (stop - start).
Proof. unfold py_range. rewrite length_map, length_seq. reflexivity. Qed.

(** The indices of a page that [take] accepts are the rows from [start]
    on. *)
Lemma take_range (n : nat) (start stop : Z) (order : list nat) :
  start < stop ->
  mapM (take_index n) (py_range start stop) = Ok order ->
  0 <= start /\ stop <= Z.of_nat n
  /\ order = seq (Z.to_nat start) (Z.to_nat (stop - start)).
Proof.
  intros Hlt Hm. pose proof (mapM_length _ _ _ Hm) as Hlen.
  rewrite py_range_length in Hlen.
  assert (Hk : forall k, (k < Z.to_nat (stop - start))%nat ->
            0 <= start + Z.of_nat k < Z.of_nat n
            /\ order !! k = Some (Z.to_nat (start + Z.of_nat k))).
  { intros k Hk.
    assert (Hr : py_range start stop !! k = Some (start + Z.of_nat k)).
    { unfold py_range. rewrite list_lookup_fmap, lookup_seq_lt by exact Hk.
      reflexivity. }
    destruct (mapM_lookup _ _ _ _ _ Hm Hr) as (y & Hy & Ey).
    unfold take_index in Ey.
    destruct ((0 <=? start + Z.of_nat k) && (start + Z.of_nat k <? Z.of_nat n)) eqn:E;
      [|discriminate].
    injection Ey as <-. apply andb_prop in E as [E1 E2].
    apply Z.leb_le in E1. apply Z.ltb_lt in E2. auto. }
  destruct (Hk 0%nat ltac:(lia)) as [[Hlo _] _].
  destruct (Hk (Z.to_nat (stop - start) - 1)%nat ltac:(lia)) as [[_ Hn] _].
  split; [lia|]. split; [lia|].
  apply list_eq. intros k.
  destruct (decide (k < Z.to_nat (stop - start))%nat) as [Hlt'|Hge].
  - destruct (Hk k Hlt') as [_ ->]. rewrite lookup_seq_lt by exact Hlt'.
    f_equal. lia.
  - rewrite lookup_seq_ge by lia. apply lookup_ge_None. lia.
Qed.

Lemma reorder_seq {A : Type} (start len : nat) (c : list A) (k : nat) :
  (start + len <= length c)%nat -> (k < len)%nat ->
  reorder (seq start len) c !! k = c !! (start + k)%nat
  /\ length (reorder (seq start len) c) = len.
Proof.
  intros Hb Hk.
  assert (Hbound : Forall (fun i => (i < length c)%nat) (seq start len)).
  { apply Forall_forall. intros i Hi. apply elem_of_seq in Hi. lia. }
  split.
  - rewrite (reorder_lookup _ _ _ Hbound), lookup_seq_lt by exact Hk. reflexivity.
  - rewrite (reorder_length _ _ Hbound). apply length_seq.
Qed.

(** X15: [load_items] gives [None], not an empty page, exactly when the limit
    is not positive or the offset is at or past the last row. *)
Theorem load_items_none (pa_ds : Table) (offset limit : Z) :
  load_items pa_ds offset limit = Ok None
  <-> (limit <= 0 \/ Z.of_nat (num_rows pa_ds) <= offset).
Proof.
  unfold load_items.
  destruct (Z.min (offset + limit) (Z.of_nat (num_rows pa_ds)) <=? offset) eqn:E.
  - apply Z.leb_le in E. split; [intros _; lia | reflexivity].
  - apply Z.leb_gt in E. split; [|lia].
    destruct (take_rows pa_ds _) as [items_table|]; simpl; [|discriminate].
    destruct (mapM _ (to_pylist items_table)); simpl; discriminate.
Qed.

(** X16: a page that [load_items] returns for an offset that is not negative
    holds the features of the rows from the offset on, in their order: as
    many as the limit, or as there are rows left; it never holds more rows
    than the limit, and its total is the number of rows of the dataset. *)
Theorem load_items_page (pa_ds : Table) (offset limit : Z) (page : Page) :
  Forall (fun c => length c = num_rows pa_ds) (columns pa_ds) ->
  0 <= offset ->
  load_items pa_ds offset limit = Ok (Some page) ->
  offset < Z.of_nat (num_rows pa_ds)
  /\ page_total page = num_rows pa_ds
  /\ Z.of_nat (length (page_items page))
     = Z.min limit (Z.of_nat (num_rows pa_ds) - offset)
  /\ forall k fs, page_items page !! k = Some fs ->
       exists row,
         to_pylist pa_ds !! (Z.to_nat offset + k)%nat = Some row
         /\ _create_features row (schema pa_ds) = Ok fs.
Proof.
  intros Hcols Hoffset. unfold load_items.
  set (total := Z.of_nat (num_rows pa_ds)).
  set (stop := Z.min (offset + limit) total).
  destruct (stop <=? offset) eqn:E; [discriminate|]. apply Z.leb_gt in E.
  unfold take_rows.
  destruct (mapM (take_index (num_rows pa_ds)) (py_range offset stop))
    as [order|] eqn:Eo; simpl; [|discriminate].
  destruct (take_range _ _ _ _ E Eo) as (Hlo & Hstop & ->).
  set (m := Z.to_nat (stop - offset)) in *.
  set (o := Z.to_nat offset) in *.
  set (items_table := mkTable (schema pa_ds)
                              (map (reorder (seq o m)) (columns pa_ds))).
  destruct (mapM _ (to_pylist items_table)) as [items|] eqn:Ei; simpl; [|discriminate].
  intros [= <-]. simpl.
  assert (Hbound : Forall (fun c => (o + m <= length c)%nat) (columns pa_ds)).
  { eapply Forall_impl; [exact Hcols|]. simpl. intros c ->. lia. }
  assert (Hm : (0 < m)%nat) by lia.
  assert (Hrows : num_rows items_table = m).
  { unfold items_table, num_rows. simpl.
    destruct (columns pa_ds) as [|c cols] eqn:Ec.
    - unfold total, num_rows in Hstop. rewrite Ec in Hstop. simpl in Hstop. lia.
    - simpl. apply Forall_cons in Hbound as [Hc _].
      apply (reorder_seq o m c 0 Hc Hm). }
  assert (Hcols' : Forall (fun c => length c = num_rows items_table)
                          (columns items_table)).
  { rewrite Hrows. unfold items_table. simpl. apply Forall_fmap.
    eapply Forall_impl; [exact Hbound|]. simpl. intros c Hc.
    apply (reorder_seq o m c 0 Hc Hm). }
  assert (Hrow : forall k, (k < m)%nat ->
            to_pylist items_table !! k = to_pylist pa_ds !! (o + k)%nat).
  { intros k Hk.
    destruct (to_pylist_lookup items_table k Hcols') as [-> _]; [lia|].
    destruct (to_pylist_lookup pa_ds (o + k) Hcols) as [-> _]; [lia|].
    unfold items_table. simpl. symmetry. apply row_dict_ext.
    apply Forall2_fmap_r. apply Forall_Forall2_diag.
    eapply Forall_impl; [exact Hbound|]. simpl. intros c Hc.
    symmetry. apply (reorder_seq o m c k Hc Hk). }
  assert (Hlen : length items = m).
  { rewrite (mapM_length _ _ _ Ei).
    destruct (to_pylist_lookup items_table 0 Hcols') as [_ ->]; lia. }
  split; [lia|]. split; [reflexivity|]. split; [lia|].
  intros k fs Hk.
  assert (Hkm : (k < m)%nat) by (rewrite <- Hlen; eapply lookup_lt_Some, Hk).
  apply mapM_Forall2 in Ei.
  destruct (Forall2_lookup_r _ _ _ _ _ Ei Hk) as (row & Hr & Hf).
  exists row. rewrite <- Hrow by exact Hkm. auto.
Qed.

(** *** Looking an item up *)

Lemma first_row_heads (sch : list Field) (cols : list (list value))
    (row : gmap string value) (k : nat) (f : Field) (c : list value) :
  first_row sch cols = Some row ->
  sch !! k = Some f -> cols !! k = Some c -> is_Some (head c).
Proof.
  unfold first_row.
  assert (Hgen : forall (l : list (Field * list value)) acc,
            foldl (fun om fc => m ← om; v ← head (snd fc);
                                Some (<[fname (fst fc) := v]> m)) acc l = Some row ->
            is_Some acc /\ forall fc, fc ∈ l -> is_Some (head (snd fc))).
  { induction l as [|fc l IH]; intros acc; simpl.
    - intros ->. split; [eauto | intros fc Hfc; inversion Hfc].
    - intros Hfold. destruct (IH _ Hfold) as [[m Hm] Hall].
      destruct acc as [m0|]; [|discriminate]. simpl in Hm.
      destruct (head (snd fc)) as [v|] eqn:Ev; [|discriminate].
      split; [eauto|]. intros fc' Hin.
      apply elem_of_cons in Hin as [-> | Hin]; [rewrite Ev; eauto | auto]. }
  intros Hrow Hf Hc. destruct (Hgen _ _ Hrow) as [_ Hall].
  apply (Hall (f, c)). apply list_elem_of_lookup. exists k.
  apply lookup_zip_Some. auto.
Qed.

Lemma first_row_empty (sch : list Field) (cols : list (list value))
    (k : nat) (f : Field) :
  sch !! k = Some f -> cols !! k = Some [] -> first_row sch cols = None.
Proof.
  intros Hf Hc. destruct (first_row sch cols) as [row|] eqn:E; [|reflexivity].
  destruct (first_row_heads _ _ _ _ _ _ E Hf Hc) as [v Hv]. discriminate.
Qed.

(** The row of the item is found when the table holds the item, and only
    then. *)
Lemma find_item_contains (t : Table) (item_id : string) (item : gmap string value) :
  find_item t item_id = Ok item -> contains_item item_id t = true.
Proof.
  unfold find_item, contains_item, table_ids.
  destruct (id_column t) as [ids|] eqn:Eid; simpl; [|discriminate].
  destruct (first_row _ _) as [row|] eqn:Er; [|discriminate]. intros _.
  destruct (id_column_spec _ _ Eid) as (k & f & Hf & _ & _ & Hc).
  assert (Hck : map (filter_rows (map (is_item item_id) ids)) (columns t) !! k
                = Some (filter_rows (map (is_item item_id) ids) ids)).
  { rewrite list_lookup_fmap, Hc. reflexivity. }
  destruct (first_row_heads _ _ _ _ _ _ Er Hf Hck) as [v Hv].
  rewrite filter_rows_filter in Hv.
  apply existsb_exists. exists v.
  assert (Hin : In v (List.filter (is_item item_id) ids)).
  { destruct (List.filter (is_item item_id) ids); [discriminate|].
    injection Hv as ->. left. reflexivity. }
  apply filter_In in Hin. exact Hin.
Qed.

Lemma find_item_unknown (t : Table) (item_id : string) (ids : list value) :
  id_column t = Ok ids -> contains_item item_id t = false ->
  find_item t item_id = Err IndexError.
Proof.
  intros Eid Hc. unfold find_item. rewrite Eid. simpl.
  unfold contains_item, table_ids in Hc. rewrite Eid in Hc.
  destruct (id_column_spec _ _ Eid) as (k & f & Hf & _ & _ & Hck).
  rewrite (first_row_empty _ _ k f Hf); [reflexivity|].
  rewrite list_lookup_fmap, Hck. simpl. f_equal.
  rewrite filter_rows_filter. clear -Hc.
  induction ids as [|x ids IH]; simpl in *; [reflexivity|].
  apply orb_false_elim in Hc as [-> Hc]. apply IH. exact Hc.
Qed.

Lemma gather_inferences_contains (item_id : string) (inf_datasets : list Table)
    (objs : list value) :
  gather_inferences item_id inf_datasets = Ok objs ->
  Forall (fun t => contains_item item_id t = true) inf_datasets.
Proof.
  revert objs. induction inf_datasets as [|t rest IH]; intros objs; simpl;
    [constructor|].
  destruct (find_item t item_id) as [inf_item|] eqn:Ef; simpl; [|discriminate].
  destruct (gather_objects inf_item (schema t)); simpl; [|discriminate].
  destruct (gather_inferences item_id rest) as [more|]; simpl; [|discriminate].
  intros _. constructor; [eapply find_item_contains, Ef | eapply IH; reflexivity].
Qed.

(** X17: [load_item_details] returns only when the dataset and every
    inference dataset it is given hold the item: the row of an inference
    dataset is never [None], an inference dataset without the item makes the
    call raise. *)
Theorem details_need_the_item_everywhere (pa_ds : Table) (item_id uri_prefix : string)
    (inf_datasets : list Table) (d : ItemDetails) :
  load_item_details pa_ds item_id uri_prefix inf_datasets = Ok d ->
  contains_item item_id pa_ds = true
  /\ Forall (fun t => contains_item item_id t = true) inf_datasets.
Proof.
  unfold load_item_details.
  destruct (find_item pa_ds item_id) as [item|] eqn:Ef; simpl; [|discriminate].
  destruct (gather_objects item (schema pa_ds)); simpl; [|discriminate].
  destruct (gather_inferences item_id inf_datasets) as [inf|] eqn:Ei; simpl;
    [|discriminate].
  intros _. split; [eapply find_item_contains, Ef|].
  eapply gather_inferences_contains, Ei.
Qed.

(** X18: for an item that the table does not hold, the two readers of one
    item raise [IndexError]. *)
Theorem unknown_item_raises (t : Table) (item_id uri_prefix view : string)
    (inf_datasets : list Table) (ids : list value) :
  id_column t = Ok ids ->
  contains_item item_id t = false ->
  load_item_details t item_id uri_prefix inf_datasets = Err IndexError
  /\ load_item_embedding t item_id view = Err IndexError.
Proof.
  intros Eid Hc. unfold load_item_details, load_item_embedding.
  rewrite (find_item_unknown _ _ _ Eid Hc). split; reflexivity.
Qed.

(** *** The objects by source and view *)

Lemma objects_of_add (source view source' view' : string) (o : DisplayedObject)
    (groups : gmap string (gmap string (list DisplayedObject))) :
  objects_of (add_object source view o groups) source' view'
  = objects_of groups source' view'
    ++ (if String.eqb source source' && String.eqb view view' then [o] else []).
Proof.
  unfold objects_of, add_object.
  destruct (String.eqb source source') eqn:Es.
  - apply String.eqb_eq in Es as <-. rewrite lookup_insert_eq. simpl.
    destruct (String.eqb view view') eqn:Ev.
    + apply String.eqb_eq in Ev as <-. rewrite lookup_insert_eq. reflexivity.
    + apply String.eqb_neq in Ev. rewrite lookup_insert_ne by exact Ev.
      rewrite app_nil_r. reflexivity.
  - apply String.eqb_neq in Es. rewrite lookup_insert_ne by exact Es.
    simpl. rewrite app_nil_r. reflexivity.
Qed.

(** The loop over the objects at one view: the objects of the view are
    added to the lists of their sources, in their order. *)
Lemma show_objects_spec (view : string) (objects : list value)
    (groups groups' : gmap string (gmap string (list DisplayedObject))) :
  show_objects view objects groups = Ok groups' ->
  exists anns,
    mapM as_annotation objects = Ok anns
    /\ (forall source v, v <> view ->
          objects_of groups' source v = objects_of groups source v)
    /\ (forall source, exists ds,
          mapM displayed
               (List.filter (fun a => String.eqb (view_id a) view
                                      && String.eqb (source_of a) source) anns)
          = Ok ds
          /\ objects_of groups' source view = objects_of groups source view ++ ds).
Proof.
  revert groups. induction objects as [|obj rest IH]; intros groups; simpl.
  - intros [= <-]. exists []. split; [reflexivity|]. split; [reflexivity|].
    intros source. exists []. rewrite app_nil_r. auto.
  - unfold show_object.
    destruct (as_annotation obj) as [ann|]; simpl; [|discriminate].
    destruct (String.eqb (view_id ann) view) eqn:Ev; simpl.
    + destruct (displayed ann) as [o|] eqn:Ed; simpl; [|discriminate].
      intros Hrest. destruct (IH _ Hrest) as (anns & -> & Hother & Hview).
      exists (ann :: anns). split; [reflexivity|]. split.
      * intros source v Hv. rewrite (Hother source v Hv), objects_of_add.
        assert (E : String.eqb view v = false) by (apply String.eqb_neq; congruence).
        rewrite E, andb_false_r, app_nil_r. reflexivity.
      * intros source. destruct (Hview source) as (ds & Hds & Hobjs).
        simpl. rewrite Ev. simpl. rewrite Hobjs, objects_of_add, String.eqb_refl.
        rewrite andb_true_r, (String.eqb_sym (source_of ann) source).
        destruct (String.eqb source (source_of ann)); simpl.
        -- rewrite Ed. simpl. rewrite Hds. simpl. exists (o :: ds).
           rewrite <- app_assoc. auto.
        -- exists ds. rewrite app_nil_r. auto.
    + intros Hrest. destruct (IH _ Hrest) as (anns & -> & Hother & Hview).
      exists (ann :: anns). split; [reflexivity|]. split; [exact Hother|].
      intros source. destruct (Hview source) as (ds & Hds & Hobjs).
      exists ds. simpl. rewrite Ev. simpl. auto.
Qed.

(** The loop over the views. *)
Lemma show_views_spec (uri_prefix : string) (item : gmap string value)
    (objects : list value) (sch : list Field)
    (views views' : list (string * value))
    (groups groups' : gmap string (gmap string (list DisplayedObject))) :
  NoDup (map fname sch) ->
  show_views uri_prefix item objects sch (views, groups) = Ok (views', groups') ->
  map fst views'
  = map fst views ++ map fname (List.filter (fun f => is_image_type (ftype f)) sch)
  /\ (forall source v,
        v ∉ map fname (List.filter (fun f => is_image_type (ftype f)) sch) ->
        objects_of groups' source v = objects_of groups source v)
  /\ (forall source v,
        v ∈ map fname (List.filter (fun f => is_image_type (ftype f)) sch) ->
        exists anns ds,
          mapM as_annotation objects = Ok anns
          /\ mapM displayed
                  (List.filter (fun a => String.eqb (view_id a) v
                                         && String.eqb (source_of a) source) anns)
             = Ok ds
          /\ objects_of groups' source v = objects_of groups source v ++ ds).
Proof.
  revert views groups. induction sch as [|field sch IH]; intros views groups Hnd;
    simpl.
  - intros [= <- <-]. rewrite app_nil_r. split; [reflexivity|].
    split; [reflexivity|]. intros source v Hv. inversion Hv.
  - apply NoDup_cons in Hnd as [Hfield Hnd].
    assert (Hnotin : fname field
                     ∉ map fname (List.filter (fun f => is_image_type (ftype f)) sch)).
    { intros Hin. apply Hfield. apply list_elem_of_fmap in Hin as (g & -> & Hg).
      apply list_elem_of_fmap. exists g. split; [reflexivity|].
      apply list_elem_of_In. apply list_elem_of_In, filter_In in Hg. apply Hg. }
    destruct (is_image_type (ftype field)) eqn:Eimg; [|apply IH, Hnd].
    destruct (get_cell item (fname field)) as [image|]; simpl; [|discriminate].
    destruct (match image with VImage im => image_url uri_prefix im | _ => _ end)
      as [url|]; simpl; [|discriminate].
    destruct (show_objects (fname field) objects groups) as [groups1|] eqn:Eo;
      simpl; [|discriminate].
    intros Hrest. destruct (IH _ _ Hnd Hrest) as (Hviews & Hother & Hin).
    destruct (show_objects_spec _ _ _ _ Eo) as (anns & Hanns & Hother1 & Hview1).
    split; [|split].
    + rewrite Hviews, map_app, <- app_assoc. reflexivity.
    + intros source v Hv. apply not_elem_of_cons in Hv as [Hne Hv].
      rewrite (Hother source v Hv). apply Hother1. exact Hne.
    + intros source v Hv. apply elem_of_cons in Hv as [-> | Hv].
      * destruct (Hview1 source) as (ds & Hds & Hobjs).
        exists anns, ds. split; [exact Hanns|]. split; [exact Hds|].
        rewrite (Hother source _ Hnotin). exact Hobjs.
      * destruct (Hin source v Hv) as (anns' & ds & Hanns' & Hds & Hobjs).
        exists anns', ds. split; [exact Hanns'|]. split; [exact Hds|].
        rewrite Hobjs. f_equal. apply Hother1. intros ->. contradiction.
Qed.

(** The details of an item, by the two loops. *)
Lemma objects_listed_by_source_and_view_gen (pa_ds : Table)
    (item_id uri_prefix : string) (inf_datasets : list Table) (d : ItemDetails) :
  NoDup (map fname (schema pa_ds)) ->
  load_item_details pa_ds item_id uri_prefix inf_datasets = Ok d ->
  exists item objects inf_objects,
    find_item pa_ds item_id = Ok item
    /\ gather_objects item (schema pa_ds) = Ok objects
    /\ gather_inferences item_id inf_datasets = Ok inf_objects
    /\ map fst (item_views d)
       = map fname (List.filter (fun f => is_image_type (ftype f)) (schema pa_ds))
    /\ (forall source view, view ∉ map fst (item_views d) ->
          objects_of (itemObjects d) source view = [])
    /\ (forall source view, view ∈ map fst (item_views d) ->
          exists anns,
            mapM as_annotation (objects ++ inf_objects) = Ok anns
            /\ mapM displayed
                    (List.filter (fun a => String.eqb (view_id a) view
                                           && String.eqb (source_of a) source) anns)
               = Ok (objects_of (itemObjects d) source view)).
Proof.
  intros Hnd. unfold load_item_details.
  destruct (find_item pa_ds item_id) as [item|] eqn:Ef; simpl; [|discriminate].
  destruct (gather_objects item (schema pa_ds)) as [objects|] eqn:Eg; simpl;
    [|discriminate].
  destruct (gather_inferences item_id inf_datasets) as [inf_objects|] eqn:Ei; simpl;
    [|discriminate].
  destruct (get_cell item "id") as [id_cell|]; simpl; [|discriminate].
  destruct (_create_features item (schema pa_ds)) as [features|]; simpl;
    [|discriminate].
  destruct (show_views _ _ _ _ _) as [[views groups]|] eqn:Ev; simpl; [|discriminate].
  intros [= <-]. simpl.
  destruct (show_views_spec _ _ _ _ _ _ _ _ Hnd Ev) as (Hviews & Hother & Hin).
  simpl in Hviews. exists item, objects, inf_objects.
  split; [reflexivity|]. split; [exact Eg|]. split; [reflexivity|].
  split; [exact Hviews|]. rewrite Hviews. split.
  - intros source view Hv. rewrite (Hother source view Hv). reflexivity.
  - intros source view Hv. destruct (Hin source view Hv) as (anns & ds & Ha & Hd & Ho).
    exists anns. split; [exact Ha|]. rewrite Ho. exact Hd.
Qed.

(** X19: the details of an item have one view for every image field of the
    dataset, in the order of the schema, and list under a source and a view
    the annotations of the item, from the dataset and then from the
    inference datasets in their order, whose view is that view and whose
    source, by the rule of line 211, is that source: all of them, each once,
    in that order, and nothing under a view that is not an image field. *)
Theorem objects_listed_by_source_and_view (pa_ds : Table)
    (item_id uri_prefix : string) (inf_datasets : list Table) (d : ItemDetails) :
  NoDup (map fname (schema pa_ds)) ->
  load_item_details pa_ds item_id uri_prefix inf_datasets = Ok d ->
  exists item objects inf_objects,
    find_item pa_ds item_id = Ok item
    /\ gather_objects item (schema pa_ds) = Ok objects
    /\ gather_inferences item_id inf_datasets = Ok inf_objects
    /\ map fst (item_views d)
       = map fname (List.filter (fun f => is_image_type (ftype f)) (schema pa_ds))
    /\ (forall source view, view ∉ map fst (item_views d) ->
          objects_of (itemObjects d) source view = [])
    /\ (forall source view, view ∈ map fst (item_views d) ->
          exists anns,
            mapM as_annotation (objects ++ inf_objects) = Ok anns
            /\ mapM displayed
                    (List.filter (fun a => String.eqb (view_id a) view
                                           && String.eqb (source_of a) source) anns)
               = Ok (objects_of (itemObjects d) source view)).
Proof. apply objects_listed_by_source_and_view_gen. Qed.

End Readers.

(** *** The readers on the scenario *)

Import Reference Scenario ReaderScenario TransactionFacts.

Lemma create_features_fields_witness :
  exists feats,
    _create_features {[ "id" := VStr "img_7"; "split" := VStr "train" ]}
      [mkField "id" pa_string; mkField "objects" (pa_list ObjectAnnotationType);
       mkField "split" pa_string] = Ok feats
    /\ map feat_name feats = ["id"; "split"].
Proof.
  destruct (_create_features {[ "id" := VStr "img_7"; "split" := VStr "train" ]}
              [mkField "id" pa_string;
               mkField "objects" (pa_list ObjectAnnotationType);
               mkField "split" pa_string]) as [feats|] eqn:E;
    [|vm_compute in E; discriminate].
  exists feats. split; [reflexivity|].
  apply (proj1 (create_features_fields _ _ _ E)).
Defined.

Lemma load_items_page_witness :
  exists page,
    load_items shard_1 3 10 = Ok (Some page)
    /\ length (page_items page) = 2%nat.
Proof.
  destruct (load_items shard_1 3 10) as [[page|]|] eqn:E;
    [|vm_compute in E; discriminate..].
  exists page. split; [reflexivity|].
  destruct (load_items_page shard_1 3 10 page (proj1 (proj2 shard_1_wf))
              ltac:(lia) E)
    as (_ & _ & Hlen & _).
  change (num_rows shard_1) with 5%nat in Hlen. lia.
Defined.

Lemma details_need_the_item_everywhere_witness :
  exists d,
    load_item_details saved_shard_1 "img_7" "file:///data/ds/media" [shard_1] = Ok d
    /\ contains_item "img_7" shard_1 = true.
Proof.
  destruct (load_item_details saved_shard_1 "img_7" "file:///data/ds/media" [shard_1])
    as [d|] eqn:E; [|vm_compute in E; discriminate].
  exists d. split; [reflexivity|].
  destruct (details_need_the_item_everywhere _ _ _ _ _ E) as [_ Hinf].
  apply (Forall_inv Hinf).
Defined.

Lemma unknown_item_raises_witness :
  load_item_details shard_1 "img_42" "file:///data/ds/media" [] = Err IndexError
  /\ load_item_embedding shard_1 "img_42" "image" = Err IndexError.
Proof.
  apply (unknown_item_raises shard_1 "img_42" "file:///data/ds/media" "image" []
           (map VStr ["img_6"; "img_7"; "img_8"; "img_9"; "img_10"])
           eq_refl eq_refl).
Defined.

Lemma objects_listed_by_source_and_view_witness :
  exists d anns,
    load_item_details saved_shard_1 "img_7" "file:///data/ds/media" [] = Ok d
    /\ map fst (item_views d) = ["image"]
    /\ mapM displayed anns = Ok (objects_of (itemObjects d) "Pixano Annotator" "image")
    /\ objects_of (itemObjects d) "Ground truth" "objects" = [].
Proof.
  destruct (load_item_details saved_shard_1 "img_7" "file:///data/ds/media" [])
    as [d|] eqn:E; [|vm_compute in E; discriminate].
  assert (Hnd : NoDup (map fname (schema saved_shard_1))).
  { apply (bool_decide_unpack _). vm_compute. exact I. }
  destruct (objects_listed_by_source_and_view _ _ _ _ _ Hnd E)
    as (item & objects & inf_objects & _ & _ & _ & Hviews & Hother & Hin).
  assert (Hv : map fst (item_views d) = ["image"]).
  { rewrite Hviews. vm_compute. reflexivity. }
  destruct (Hin "Pixano Annotator" "image") as (anns & _ & Hshown).
  { rewrite Hv. left. }
  exists d. eexists. split; [reflexivity|]. split; [exact Hv|].
  split; [exact Hshown|].
  apply Hother. rewrite Hv. intros Hx. apply list_elem_of_singleton in Hx.
  discriminate.
Defined.

End ExplorerFacts.
